(** * data-drag: the drag orchestration engine, embedded and verified

    The development follows [index.js]: the configuration values read from
    the [data-drag] and [data-drag-parent] attributes, the document tree the
    engine mutates, the [Access] evaluator and the [DataDrag] orchestrator
    with its process-wide registry and drag state. *)

From Stdlib Require Import ZArith QArith Qround String Ascii List Lia DecimalString.
From stdpp Require Import base list strings.

Set Warnings "-register-all".
Open Scope string_scope.

(** ** Outcomes of JavaScript code: a value, or a thrown exception *)

Inductive Exn : Type :=
| TypeError
| SyntaxError (selector : string)
| HierarchyRequestError
| NotFoundError.

Inductive outcome (A : Type) : Type :=
| Ret (a : A)
| Throw (e : Exn).

Arguments Ret {A} a.
Arguments Throw {A} e.

Definition obind {A B : Type} (m : outcome A) (k : A -> outcome B) : outcome B :=
  match m with
  | Ret a => k a
  | Throw e => Throw e
  end.

Notation "x <-- m ;; k" := (obind m (fun x => k))
  (at level 100, m at next level, right associativity, only parsing).

(** ** Configuration values

    The values [JSON.parse] produces.  Numbers are the integers a double
    holds exactly together with the two infinities that an out-of-range
    literal parses to; objects are property lists in insertion order. *)

Module JS.

Inductive JSNumber : Type :=
| NInt (z : Z)
| NInfinity (negative : bool).

Inductive JSON : Type :=
| JNull
| JBool (b : bool)
| JNum (n : JSNumber)
| JStr (s : string)
| JArr (items : list JSON)
| JObj (props : list (string * JSON)).

(** [undefined] is [None] wherever a property read may yield it. *)
Definition truthy (v : JSON) : bool :=
  match v with
  | JNull => false
  | JBool b => b
  | JNum (NInt z) => negb (z =? 0)%Z
  | JNum (NInfinity _) => true
  | JStr s => negb (String.eqb s EmptyString)
  | JArr _ | JObj _ => true
  end.

Definition truthyOpt (v : option JSON) : bool :=
  match v with
  | Some x => truthy x
  | None => false
  end.

(** [typeof value === 'object'] *)
Definition typeofObject (v : JSON) : bool :=
  match v with
  | JNull | JArr _ | JObj _ => true
  | _ => false
  end.

Fixpoint lookupProp (k : string) (props : list (string * JSON)) : option JSON :=
  match props with
  | [] => None
  | (k', v) :: rest => if String.eqb k k' then Some v else lookupProp k rest
  end.

Fixpoint setProp (k : string) (v : JSON) (props : list (string * JSON))
  : list (string * JSON) :=
  match props with
  | [] => [(k, v)]
  | (k', v') :: rest =>
      if String.eqb k k' then (k', v) :: rest else (k', v') :: setProp k v rest
  end.

(** [value.name] for one of the configuration names the engine reads. *)
Definition getProp (v : JSON) (k : string) : option JSON :=
  match v with
  | JObj props => lookupProp k props
  | _ => None
  end.

(** [value[0]] *)
Definition index0 (v : JSON) : option JSON :=
  match v with
  | JArr (x :: _) => Some x
  | JStr (String c _) => Some (JStr (String c EmptyString))
  | JObj props => lookupProp "0" props
  | _ => None
  end.

(** [a || b] where [a] may be [undefined] *)
Definition orElse (a : option JSON) (b : JSON) : JSON :=
  match a with
  | Some x => if truthy x then x else b
  | None => b
  end.

Definition isStr (s : string) (v : JSON) : bool :=
  match v with
  | JStr s' => String.eqb s s'
  | _ => false
  end.

Definition isStrOpt (s : string) (v : option JSON) : bool :=
  match v with
  | Some x => isStr s x
  | None => false
  end.

Definition Z_toString (z : Z) : string := NilZero.string_of_int (Z.to_int z).

Definition Number_toString (n : JSNumber) : string :=
  match n with
  | NInt z => Z_toString z
  | NInfinity false => "Infinity"
  | NInfinity true => "-Infinity"
  end.

Definition join (sep : string) (parts : list string) : string :=
  String.concat sep parts.

(** [String(value)], as the DOM applies it to a non-string argument. *)
Fixpoint toString (v : JSON) : string :=
  match v with
  | JNull => "null"
  | JBool true => "true"
  | JBool false => "false"
  | JNum n => Number_toString n
  | JStr s => s
  | JArr items =>
      join ","
        (map (fun x => match x with JNull => EmptyString | _ => toString x end) items)
  | JObj _ => "[object Object]"
  end.

(** Array indices as property names, for spreading an array or a string. *)
Definition indexName (i : nat) : string := Z_toString (Z.of_nat i).

Fixpoint charsOf (s : string) : list JSON :=
  match s with
  | EmptyString => []
  | String c rest => JStr (String c EmptyString) :: charsOf rest
  end.

Fixpoint indexed (i : nat) (items : list JSON) : list (string * JSON) :=
  match items with
  | [] => []
  | x :: rest => (indexName i, x) :: indexed (S i) rest
  end.

(** The own enumerable properties an object spread copies. *)
Definition ownProps (v : JSON) : list (string * JSON) :=
  match v with
  | JObj props => props
  | JArr items => indexed 0 items
  | JStr s => indexed 0 (charsOf s)
  | _ => []
  end.

(** [{ ...base, ...over }] *)
Definition spread (base : list (string * JSON)) (over : JSON) : list (string * JSON) :=
  fold_left (fun acc kv => setProp (fst kv) (snd kv) acc) (ownProps over) base.

(** *** Text of a value: [JSON.stringify] *)

Definition dquote : ascii := ascii_of_nat 34.
Definition squote : ascii := ascii_of_nat 39.
Definition backslash : ascii := ascii_of_nat 92.

Definition hexDigit (n : nat) : ascii :=
  if (n <? 10)%nat then ascii_of_nat (48 + n) else ascii_of_nat (87 + n).

Definition escapeChar (c : ascii) : string :=
  let n := nat_of_ascii c in
  if (n =? 34)%nat then String backslash (String dquote EmptyString)
  else if (n =? 92)%nat then String backslash (String backslash EmptyString)
  else if (n =? 8)%nat then String backslash "b"
  else if (n =? 9)%nat then String backslash "t"
  else if (n =? 10)%nat then String backslash "n"
  else if (n =? 12)%nat then String backslash "f"
  else if (n =? 13)%nat then String backslash "r"
  else if (n <? 32)%nat then
    String backslash
      (String "u" (String "0" (String "0"
         (String (hexDigit (n / 16)) (String (hexDigit (n mod 16)) EmptyString)))))
  else String c EmptyString.

Fixpoint escape (s : string) : string :=
  match s with
  | EmptyString => EmptyString
  | String c rest => escapeChar c ++ escape rest
  end.

Definition quoteString (s : string) : string :=
  String dquote (escape s ++ String dquote EmptyString).

Fixpoint JSON_stringify (v : JSON) : string :=
  match v with
  | JNull => "null"
  | JBool true => "true"
  | JBool false => "false"
  | JNum (NInt z) => Z_toString z
  | JNum (NInfinity _) => "null"
  | JStr s => quoteString s
  | JArr items => "[" ++ join "," (map JSON_stringify items) ++ "]"
  | JObj props =>
      "{" ++ join ","
               (map (fun kv => quoteString (fst kv) ++ ":" ++ JSON_stringify (snd kv)) props)
          ++ "}"
  end.

(** [text.replace(/a/g, b)] for single characters *)
Fixpoint replaceAll (a b : ascii) (s : string) : string :=
  match s with
  | EmptyString => EmptyString
  | String c rest =>
      String (if Ascii.eqb c a then b else c) (replaceAll a b rest)
  end.

Fixpoint containsChar (a : ascii) (s : string) : bool :=
  match s with
  | EmptyString => false
  | String c rest => Ascii.eqb c a || containsChar a rest
  end.

(** *** Reading a value: the [JSON.parse] of the examples

    A recursive-descent reader of the JSON grammar, used wherever a closed
    example needs a parser; the engine itself takes [JSON.parse] as a
    parameter.  A literal that denotes an integer is rounded to the nearest
    double, to an infinity beyond the largest one.  [None] is a
    [SyntaxError]; it is also the answer for what the value type does not
    hold, a number with a fractional part or a [\u] escape above [00ff]. *)

Definition isWhitespace (c : ascii) : bool :=
  let n := nat_of_ascii c in
  (n =? 32)%nat || (n =? 9)%nat || (n =? 10)%nat || (n =? 13)%nat.

Fixpoint skipWhitespace (s : string) : string :=
  match s with
  | String c rest => if isWhitespace c then skipWhitespace rest else s
  | EmptyString => s
  end.

Definition digitValue (c : ascii) : option Z :=
  let n := nat_of_ascii c in
  if (48 <=? n)%nat && (n <=? 57)%nat then Some (Z.of_nat (n - 48)) else None.

Definition hexValue (c : ascii) : option nat :=
  let n := nat_of_ascii c in
  if (48 <=? n)%nat && (n <=? 57)%nat then Some (n - 48)%nat
  else if (97 <=? n)%nat && (n <=? 102)%nat then Some (n - 87)%nat
  else if (65 <=? n)%nat && (n <=? 70)%nat then Some (n - 55)%nat
  else None.

Definition unescape (e : ascii) : option ascii :=
  let n := nat_of_ascii e in
  if (n =? 34)%nat then Some dquote
  else if (n =? 92)%nat then Some backslash
  else if (n =? 47)%nat then Some "/"%char
  else if (n =? 98)%nat then Some (ascii_of_nat 8)
  else if (n =? 102)%nat then Some (ascii_of_nat 12)
  else if (n =? 110)%nat then Some (ascii_of_nat 10)
  else if (n =? 114)%nat then Some (ascii_of_nat 13)
  else if (n =? 116)%nat then Some (ascii_of_nat 9)
  else None.

Definition consFst (c : ascii) (r : option (string * string)) : option (string * string) :=
  match r with
  | Some (body, rest) => Some (String c body, rest)
  | None => None
  end.

(** The characters of a string literal after its opening quote. *)
Fixpoint readString (s : string) : option (string * string) :=
  match s with
  | EmptyString => None
  | String c rest =>
      if Ascii.eqb c dquote then Some (EmptyString, rest)
      else if Ascii.eqb c backslash then
        match rest with
        | String e rest1 =>
            if Ascii.eqb e "u"%char then
              match rest1 with
              | String h1 (String h2 (String h3 (String h4 rest2))) =>
                  match hexValue h1, hexValue h2, hexValue h3, hexValue h4 with
                  | Some 0%nat, Some 0%nat, Some a, Some b =>
                      consFst (ascii_of_nat (16 * a + b)) (readString rest2)
                  | _, _, _, _ => None
                  end
              | _ => None
              end
            else
              match unescape e with
              | Some c' => consFst c' (readString rest1)
              | None => None
              end
        | EmptyString => None
        end
      else if (nat_of_ascii c <? 32)%nat then None
      else consFst c (readString rest)
  end.

(** A run of digits: its value continuing [acc], its length, the rest. *)
Fixpoint readDigits (s : string) (acc : Z) (count : nat) : Z * nat * string :=
  match s with
  | String c rest =>
      match digitValue c with
      | Some v => readDigits rest (10 * acc + v)%Z (S count)
      | None => (acc, count, s)
      end
  | EmptyString => (acc, count, s)
  end.

(** Round an integer to the nearest double, ties to even. *)
Definition roundToDouble (z : Z) : Z :=
  let a := Z.abs z in
  let bits := (Z.log2 a + 1)%Z in
  if (bits <=? 53)%Z then z
  else
    let k := (bits - 53)%Z in
    let q := Z.shiftr a k in
    let r := Z.land a (Z.ones k) in
    let half := Z.shiftl 1 (k - 1) in
    let q' := if (half <? r)%Z || ((r =? half)%Z && Z.odd q) then (q + 1)%Z else q in
    (Z.sgn z * Z.shiftl q' k)%Z.

Definition numberOfInteger (z : Z) : JSNumber :=
  let r := roundToDouble z in
  if (Z.shiftl 1 1024 <=? Z.abs r)%Z then NInfinity (r <? 0)%Z else NInt r.

(** The number [mantissa * 10 ^ exponent] of a literal. *)
Definition numberOfDecimal (mantissa exponent : Z) : option JSNumber :=
  if (0 <=? exponent)%Z then Some (numberOfInteger (mantissa * 10 ^ exponent))
  else
    let scale := (10 ^ (- exponent))%Z in
    if (mantissa mod scale =? 0)%Z then Some (numberOfInteger (mantissa / scale))
    else None.

Definition readFraction (s : string) (int : Z) : option (Z * nat * string) :=
  match s with
  | String "."%char rest =>
      match readDigits rest int 0 with
      | (_, O, _) => None
      | r => Some r
      end
  | _ => Some (int, O, s)
  end.

Definition readExponent (s : string) : option (Z * string) :=
  match s with
  | String c rest =>
      if Ascii.eqb c "e"%char || Ascii.eqb c "E"%char then
        let signed :=
          match rest with
          | String "-"%char rest' => (true, rest')
          | String "+"%char rest' => (false, rest')
          | _ => (false, rest)
          end in
        match readDigits (snd signed) 0 0 with
        | (_, O, _) => None
        | (e, _, rest') => Some (if fst signed then (- e)%Z else e, rest')
        end
      else Some (0%Z, s)
  | EmptyString => Some (0%Z, s)
  end.

Definition readNumber (s : string) : option (JSNumber * string) :=
  let signed :=
    match s with
    | String "-"%char rest => (true, rest)
    | _ => (false, s)
    end in
  let integer :=
    match snd signed with
    | String "0"%char rest => Some (0%Z, rest)
    | body =>
        match readDigits body 0 0 with
        | (_, O, _) => None
        | (v, _, rest) => Some (v, rest)
        end
    end in
  match integer with
  | None => None
  | Some (int, rest) =>
      match readFraction rest int with
      | None => None
      | Some (mantissa, fractionDigits, rest1) =>
          match readExponent rest1 with
          | None => None
          | Some (e, rest2) =>
              match numberOfDecimal (if fst signed then (- mantissa)%Z else mantissa)
                      (e - Z.of_nat fractionDigits) with
              | Some n => Some (n, rest2)
              | None => None
              end
          end
      end
  end.

Fixpoint dropPrefix (p s : string) : option string :=
  match p, s with
  | EmptyString, _ => Some s
  | String a p', String b s' => if Ascii.eqb a b then dropPrefix p' s' else None
  | String _ _, EmptyString => None
  end.

Fixpoint readValue (fuel : nat) (s : string) : option (JSON * string) :=
  match fuel with
  | O => None
  | S f =>
      match skipWhitespace s with
      | EmptyString => None
      | String c rest =>
          if Ascii.eqb c "{"%char then
            match skipWhitespace rest with
            | String "}"%char rest' => Some (JObj [], rest')
            | _ =>
                match readMembers f rest [] with
                | Some (props, rest') => Some (JObj props, rest')
                | None => None
                end
            end
          else if Ascii.eqb c "["%char then
            match skipWhitespace rest with
            | String "]"%char rest' => Some (JArr [], rest')
            | _ =>
                match readElements f rest [] with
                | Some (items, rest') => Some (JArr items, rest')
                | None => None
                end
            end
          else if Ascii.eqb c dquote then
            match readString rest with
            | Some (str, rest') => Some (JStr str, rest')
            | None => None
            end
          else if Ascii.eqb c "t"%char then
            match dropPrefix "rue" rest with
            | Some rest' => Some (JBool true, rest')
            | None => None
            end
          else if Ascii.eqb c "f"%char then
            match dropPrefix "alse" rest with
            | Some rest' => Some (JBool false, rest')
            | None => None
            end
          else if Ascii.eqb c "n"%char then
            match dropPrefix "ull" rest with
            | Some rest' => Some (JNull, rest')
            | None => None
            end
          else
            match readNumber (String c rest) with
            | Some (n, rest') => Some (JNum n, rest')
            | None => None
            end
      end
  end

with readElements (fuel : nat) (s : string) (acc : list JSON)
  : option (list JSON * string) :=
  match fuel with
  | O => None
  | S f =>
      match readValue f s with
      | None => None
      | Some (v, rest) =>
          match skipWhitespace rest with
          | String ","%char rest' => readElements f rest' (acc ++ [v])%list
          | String "]"%char rest' => Some ((acc ++ [v])%list, rest')
          | _ => None
          end
      end
  end

with readMembers (fuel : nat) (s : string) (acc : list (string * JSON))
  : option (list (string * JSON) * string) :=
  match fuel with
  | O => None
  | S f =>
      match skipWhitespace s with
      | String c rest =>
          if Ascii.eqb c dquote then
            match readString rest with
            | None => None
            | Some (key, rest1) =>
                match skipWhitespace rest1 with
                | String ":"%char rest2 =>
                    match readValue f rest2 with
                    | None => None
                    | Some (v, rest3) =>
                        match skipWhitespace rest3 with
                        | String ","%char rest4 => readMembers f rest4 (setProp key v acc)
                        | String "}"%char rest4 => Some (setProp key v acc, rest4)
                        | _ => None
                        end
                    end
                | _ => None
                end
            end
          else None
      | EmptyString => None
      end
  end.

Definition json_parse (s : string) : option JSON :=
  match readValue (S (String.length s)) s with
  | Some (v, rest) =>
      match skipWhitespace rest with
      | EmptyString => Some v
      | String _ _ => None
      end
  | None => None
  end.

End JS.

Import JS.

(** ** The document tree

    Nodes live in a store indexed by identity; [parentNode] and [childNodes]
    are the links the DOM keeps.  A shadow root hangs off its host through
    [ShadowRoot host] and has no [parentNode]. *)

Module DOM.

(** Nodes are named by their index in the store. *)
Abbreviation NodeId := nat (only parsing).

Inductive NodeKind : Type :=
| Document
| Element
| ShadowRoot (host : NodeId)
| DocumentFragment
| Text.

(** Inline style values the engine writes. *)
Inductive StyleValue : Type :=
| SText (s : string)
| SPx (q : Q)
| STranslate (dx dy : Q)
| STransition (duration : JSON).

Record Node : Type := mkNode {
  kind : NodeKind;
  parentNode : option NodeId;
  childNodes : list NodeId;
  attributes : list (string * string);
  classList : list string;
  style : list (string * StyleValue)
}.

Record Dom : Type := mkDom {
  nodes : list Node;
  document : NodeId;
  body : NodeId
}.

Record Rect : Type := mkRect {
  rleft : Q;
  rtop : Q;
  rwidth : Q;
  rheight : Q
}.

Definition rright (r : Rect) : Q := rleft r + rwidth r.
Definition rbottom (r : Rect) : Q := rtop r + rheight r.

(** What an identity outside the store reads as: no element, no links. *)
Definition blankNode : Node := mkNode Text None [] [] [] [].

Definition nodeAt (d : Dom) (n : NodeId) : Node :=
  match nodes d !! n with
  | Some x => x
  | None => blankNode
  end.

Definition withParent (p : option NodeId) (x : Node) : Node :=
  mkNode (kind x) p (childNodes x) (attributes x) (classList x) (style x).

Definition withChildren (kids : list NodeId) (x : Node) : Node :=
  mkNode (kind x) (parentNode x) kids (attributes x) (classList x) (style x).

Definition withAttributes (attrs : list (string * string)) (x : Node) : Node :=
  mkNode (kind x) (parentNode x) (childNodes x) attrs (classList x) (style x).

Definition withClassList (cls : list string) (x : Node) : Node :=
  mkNode (kind x) (parentNode x) (childNodes x) (attributes x) cls (style x).

Definition withStyle (st : list (string * StyleValue)) (x : Node) : Node :=
  mkNode (kind x) (parentNode x) (childNodes x) (attributes x) (classList x) st.

Definition updateNode (f : Node -> Node) (n : NodeId) (d : Dom) : Dom :=
  mkDom (alter f n (nodes d)) (document d) (body d).

Definition isElement (d : Dom) (n : NodeId) : bool :=
  match kind (nodeAt d n) with
  | Element => true
  | _ => false
  end.

Definition parentNodeOf (d : Dom) (n : NodeId) : option NodeId :=
  parentNode (nodeAt d n).

Definition parentElement (d : Dom) (n : NodeId) : option NodeId :=
  match parentNodeOf d n with
  | Some p => if isElement d p then Some p else None
  | None => None
  end.

(** [node.parentNode?.host] *)
Definition parentHost (d : Dom) (n : NodeId) : option NodeId :=
  match parentNodeOf d n with
  | Some p =>
      match kind (nodeAt d p) with
      | ShadowRoot h => Some h
      | _ => None
      end
  | None => None
  end.

(** [element.children]: the element children, in tree order *)
Definition children (d : Dom) (n : NodeId) : list NodeId :=
  List.filter (isElement d) (childNodes (nodeAt d n)).

Fixpoint after (n : NodeId) (l : list NodeId) : list NodeId :=
  match l with
  | [] => []
  | c :: rest => if Nat.eqb c n then rest else after n rest
  end.

Definition nextSibling (d : Dom) (n : NodeId) : option NodeId :=
  match parentNodeOf d n with
  | Some p => head (after n (childNodes (nodeAt d p)))
  | None => None
  end.

Definition nextElementSibling (d : Dom) (n : NodeId) : option NodeId :=
  match parentNodeOf d n with
  | Some p => head (List.filter (isElement d) (after n (childNodes (nodeAt d p))))
  | None => None
  end.

(** *** Attributes, classes, inline style *)

Fixpoint assocGet {V : Type} (k : string) (l : list (string * V)) : option V :=
  match l with
  | [] => None
  | (k', v) :: rest => if String.eqb k k' then Some v else assocGet k rest
  end.

Fixpoint assocSet {V : Type} (k : string) (v : V) (l : list (string * V))
  : list (string * V) :=
  match l with
  | [] => [(k, v)]
  | (k', v') :: rest =>
      if String.eqb k k' then (k', v) :: rest else (k', v') :: assocSet k v rest
  end.

Definition assocDel {V : Type} (k : string) (l : list (string * V))
  : list (string * V) :=
  List.filter (fun kv => negb (String.eqb k (fst kv))) l.

Definition getAttribute (d : Dom) (n : NodeId) (name : string) : option string :=
  assocGet name (attributes (nodeAt d n)).

Definition hasAttribute (d : Dom) (n : NodeId) (name : string) : bool :=
  match getAttribute d n name with
  | Some _ => true
  | None => false
  end.

Definition setAttribute (n : NodeId) (name value : string) (d : Dom) : Dom :=
  updateNode (fun x => withAttributes (assocSet name value (attributes x)) x) n d.

Definition hasClass (d : Dom) (n : NodeId) (c : string) : bool :=
  existsb (String.eqb c) (classList (nodeAt d n)).

Definition classList_add (n : NodeId) (c : string) (d : Dom) : Dom :=
  updateNode
    (fun x =>
       if existsb (String.eqb c) (classList x) then x
       else withClassList (classList x ++ [c]) x) n d.

Definition classList_remove (n : NodeId) (c : string) (d : Dom) : Dom :=
  updateNode
    (fun x =>
       withClassList (List.filter (fun c' => negb (String.eqb c c')) (classList x)) x)
    n d.

Definition getStyle (d : Dom) (n : NodeId) (prop : string) : option StyleValue :=
  assocGet prop (style (nodeAt d n)).

Definition setStyle (n : NodeId) (prop : string) (v : StyleValue) (d : Dom) : Dom :=
  updateNode (fun x => withStyle (assocSet prop v (style x)) x) n d.

(** [element.style.prop = ''] drops the declaration. *)
Definition clearStyle (n : NodeId) (prop : string) (d : Dom) : Dom :=
  updateNode (fun x => withStyle (assocDel prop (style x)) x) n d.

(** [element.style.cssText = ...] replaces the whole inline style. *)
Definition setCssText (n : NodeId) (st : list (string * StyleValue)) (d : Dom) : Dom :=
  updateNode (withStyle st) n d.

(** *** Tree mutation *)

(** [node.remove()] *)
Definition remove (n : NodeId) (d : Dom) : Dom :=
  match parentNodeOf d n with
  | None => d
  | Some p =>
      updateNode (withParent None) n
        (updateNode
           (fun x => withChildren (List.filter (fun c => negb (Nat.eqb c n)) (childNodes x)) x)
           p d)
  end.

(** Is [a] a host-including inclusive ancestor of [n]?  The walk is bounded
    by the size of the store, which a tree-shaped document never exhausts. *)
Fixpoint isAncestorLoop (fuel : nat) (d : Dom) (a n : NodeId) : bool :=
  match fuel with
  | O => false
  | S f =>
      if Nat.eqb n a then true
      else
        match parentNode (nodeAt d n) with
        | Some p => isAncestorLoop f d a p
        | None =>
            match kind (nodeAt d n) with
            | ShadowRoot h => isAncestorLoop f d a h
            | _ => false
            end
        end
  end.

Definition isInclusiveAncestor (d : Dom) (a n : NodeId) : bool :=
  isAncestorLoop (S (length (nodes d))) d a n.

Fixpoint insertAt (ref : option NodeId) (n : NodeId) (kids : list NodeId)
  : list NodeId :=
  match ref, kids with
  | None, _ => kids ++ [n]
  | Some r, [] => [n]
  | Some r, c :: rest => if Nat.eqb c r then n :: c :: rest else c :: insertAt ref n rest
  end.

Definition optEqb (a b : option NodeId) : bool :=
  match a, b with
  | Some x, Some y => Nat.eqb x y
  | None, None => true
  | _, _ => false
  end.

(** [parent.insertBefore(node, ref)]; [ref = None] appends. *)
Definition insertBefore (parent node : NodeId) (ref : option NodeId) (d : Dom)
  : outcome Dom :=
  if isInclusiveAncestor d node parent then Throw HierarchyRequestError
  else
    let misplaced :=
      match ref with
      | Some r => negb (optEqb (parentNodeOf d r) (Some parent))
      | None => false
      end in
    if misplaced then Throw NotFoundError
    else
      let ref' := if optEqb ref (Some node) then nextSibling d node else ref in
      let d1 := remove node d in
      let d2 := updateNode (fun x => withChildren (insertAt ref' node (childNodes x)) x) parent d1 in
      Ret (updateNode (withParent (Some parent)) node d2).

(** [node.cloneNode(true)]: a detached deep copy in fresh nodes.  Shadow
    roots are not cloned.  The recursion is bounded by the size of the store. *)
Fixpoint cloneTree (fuel : nat) (d : Dom) (src : NodeId) (newParent : option NodeId)
  : Dom * NodeId :=
  let x := nodeAt d src in
  let id := length (nodes d) in
  let d0 :=
    mkDom (nodes d ++ [mkNode (kind x) newParent [] (attributes x) (classList x) (style x)])
          (document d) (body d) in
  match fuel with
  | O => (d0, id)
  | S f =>
      let r :=
        fold_left
          (fun (acc : Dom * list NodeId) (c : NodeId) =>
             let r' := cloneTree f (fst acc) c (Some id) in
             (fst r', (snd acc ++ [snd r'])%list))
          (childNodes x) (d0, []) in
      (updateNode (withChildren (snd r)) id (fst r), id)
  end.

Definition cloneNode (d : Dom) (src : NodeId) : Dom * NodeId :=
  cloneTree (length (nodes d)) d src None.

End DOM.

Import DOM.

(** ** The engine's objects *)

Abbreviation InstId := nat (only parsing).
Abbreviation StateRef := nat (only parsing).

Record MouseEvent : Type := mkMouseEvent {
  button : Z;
  clientX : Q;
  clientY : Q;
  composedPath : list NodeId
}.

(** The object [handleMouseDown] stores in [this.dragState] and in
    [DataDrag.globalDragState]; both hold a reference to the same object. *)
Record DragState : Type := mkDragState {
  item : NodeId;
  parent : NodeId;
  options : list (string * JSON);
  offsetX : Q;
  offsetY : Q;
  startX : Q;
  startY : Q;
  mirror : option NodeId;
  copy : option NodeId;
  isDragging : bool;
  sourceInstance : InstId
}.

Record Instance : Type := mkInstance {
  root : NodeId;
  dragState : option StateRef
}.

Inductive Detail : Type :=
| StartDetail (it par : NodeId)
| MoveDetail (it : NodeId) (from : option NodeId) (to : NodeId) (reference : option NodeId)
| ClonedDetail (original cp : NodeId)
| AdoptedDetail (it par : NodeId) (adopted : JSON)
| DropDetail (it from to : NodeId) (isCopy : bool)
| CancelDetail (it par : NodeId).

(** A dispatched [datadrag:<eventName>] custom event. *)
Record Notification : Type := mkNotification {
  target : NodeId;
  eventName : string;
  detail : Detail
}.

Record World : Type := mkWorld {
  dom : Dom;
  instanceStore : list Instance;
  instances : list InstId;
  stateStore : list DragState;
  globalDragState : option StateRef;
  mousedownListeners : list InstId;
  mousemoveListeners : list InstId;
  mouseupListeners : list InstId;
  notifications : list Notification;
  frameRequests : list (NodeId * JSON)
}.

(** What one pointer-move mutates: the document, the drag state object, the
    dispatched events and the requested animation frames. *)
Record Tick : Type := mkTick {
  tdom : Dom;
  tstate : DragState;
  tnotes : list Notification;
  tframes : list (NodeId * JSON)
}.

Definition withDom (d : Dom) (t : Tick) : Tick :=
  mkTick d (tstate t) (tnotes t) (tframes t).

Definition withState (s : DragState) (t : Tick) : Tick :=
  mkTick (tdom t) s (tnotes t) (tframes t).

Definition setMirror (m : option NodeId) (s : DragState) : DragState :=
  mkDragState (item s) (parent s) (options s) (offsetX s) (offsetY s)
    (startX s) (startY s) m (copy s) (isDragging s) (sourceInstance s).

Definition setCopy (c : option NodeId) (s : DragState) : DragState :=
  mkDragState (item s) (parent s) (options s) (offsetX s) (offsetY s)
    (startX s) (startY s) (mirror s) c (isDragging s) (sourceInstance s).

Definition setIsDragging (b : bool) (s : DragState) : DragState :=
  mkDragState (item s) (parent s) (options s) (offsetX s) (offsetY s)
    (startX s) (startY s) (mirror s) (copy s) b (sourceInstance s).

Definition blankInstance : Instance := mkInstance 0 None.

Definition instanceAt (w : World) (i : InstId) : Instance :=
  match instanceStore w !! i with
  | Some x => x
  | None => blankInstance
  end.

Definition refEqb (a b : option StateRef) : bool := optEqb a b.

(** [Set.prototype.add] and [delete], and the listener lists of an event
    target, which hold each callback once. *)
Definition setAdd (i : nat) (l : list nat) : list nat :=
  if existsb (Nat.eqb i) l then l else (l ++ [i])%list.

Definition setDelete (i : nat) (l : list nat) : list nat :=
  List.filter (fun j => negb (Nat.eqb j i)) l.

Definition Qltb (a b : Q) : bool := negb (Qle_bool b a).

(** The item configuration defaults of [index.js]. *)
Definition defaults : list (string * JSON) :=
  [ ("direction", JStr "vertical");
    ("copy", JBool false);
    ("sort", JBool true);
    ("handle", JNull);
    ("animation", JNum (NInt 150)) ].

(** ** The engine

    The services of the host environment are parameters: the selector engine
    behind [element.matches] ([None] when it throws on an invalid selector),
    layout ([getBoundingClientRect], [elementFromPoint] of a document or
    shadow root) and [JSON.parse] ([None] when it throws). *)

Record Host : Type := mkHost {
  selectorEngine : Dom -> NodeId -> string -> option bool;
  layoutRect : Dom -> NodeId -> Rect;
  hitTest : Dom -> NodeId -> Q -> Q -> option NodeId;
  jsonParse : string -> option JSON
}.

Section Engine.

Variable browser : Host.

Local Abbreviation css := (selectorEngine browser).
Local Abbreviation getBoundingClientRect := (layoutRect browser).
Local Abbreviation elementFromPoint := (hitTest browser).
Local Abbreviation JSON_parse := (jsonParse browser).

(** [element.matches(selector)]: the two attribute selectors the engine uses
    are decided by the attribute, any other selector by the selector engine. *)
Definition elementMatches (d : Dom) (n : NodeId) (selector : string) : option bool :=
  if String.eqb selector "[data-drag]" then Some (hasAttribute d n "data-drag")
  else if String.eqb selector "[data-drag-parent]" then Some (hasAttribute d n "data-drag-parent")
  else css d n selector.

(** *** class Access *)

Record Access : Type := mkAccess {
  order : JSON;
  allow : JSON;
  deny : JSON
}.

(** [new Access(config)] *)
Definition newAccess (config : JSON) : Access :=
  mkAccess
    (orElse (getProp config "order") (JArr [JStr "allow"; JStr "deny"]))
    (orElse (getProp config "allow") (JArr [JStr "*"]))
    (orElse (getProp config "deny") (JArr [])).

(** [patterns.includes('*')] *)
Definition includesWildcard (patterns : JSON) : outcome bool :=
  match patterns with
  | JArr items => Ret (existsb (isStr "*") items)
  | JStr s => Ret (containsChar "*"%char s)
  | _ => Throw TypeError
  end.

(** The callback of [patterns.some]: a pattern the selector engine rejects
    is caught and counts as no match. *)
Definition matchesPattern (d : Dom) (element : NodeId) (pattern : JSON) : bool :=
  match elementMatches d element (toString pattern) with
  | Some b => b
  | None => false
  end.

Definition matches (d : Dom) (element : NodeId) (patterns : JSON) : outcome bool :=
  hasWildcard <-- includesWildcard patterns ;;
  if hasWildcard then Ret true
  else
    match patterns with
    | JArr items => Ret (existsb (matchesPattern d element) items)
    | _ => Throw TypeError
    end.

Definition canAccept (d : Dom) (this : Access) (it : NodeId) (sourceParent : option NodeId)
  : outcome bool :=
  match sourceParent with
  | None => Ret true
  | Some source =>
      sourceMatchesAllow <-- matches d source (allow this) ;;
      sourceMatchesDeny <-- matches d source (deny this) ;;
      let isDenyFirst := isStrOpt "deny" (index0 (order this)) in
      if isDenyFirst then
        if sourceMatchesDeny then Ret false
        else if sourceMatchesAllow then Ret true
        else Ret false
      else
        Ret (sourceMatchesAllow && negb sourceMatchesDeny)
  end.

(** *** class DataDrag: static methods *)

Definition parseOptions (d : Dom) (element : NodeId) : list (string * JSON) :=
  match getAttribute d element "data-drag" with
  | None => defaults
  | Some attr =>
      if String.eqb attr EmptyString || String.eqb attr "true" then defaults
      else
        match JSON_parse (replaceAll squote dquote attr) with
        | Some parsed => spread defaults parsed
        | None => defaults
        end
  end.

(** [None] is the [null] the method returns; a parsed [null] is [JNull]. *)
Definition parseParentOptions (d : Dom) (element : NodeId) : option JSON :=
  match getAttribute d element "data-drag-parent" with
  | None => None
  | Some attr =>
      if String.eqb attr EmptyString then None
      else JSON_parse (replaceAll squote dquote attr)
  end.

(** [parentConfig?.name] *)
Definition configProp (parentConfig : option JSON) (name : string) : option JSON :=
  match parentConfig with
  | Some c => getProp c name
  | None => None
  end.

Definition dispatchEvent (tgt : option NodeId) (name : string) (dt : Detail)
    (notes : list Notification) : list Notification :=
  match tgt with
  | None => notes
  | Some n => (notes ++ [mkNotification n name dt])%list
  end.

Fixpoint findInPathLoop (d : Dom) (path : list NodeId) (selector : string)
  : outcome (option NodeId) :=
  match path with
  | [] => Ret None
  | element :: rest =>
      if isElement d element then
        match elementMatches d element selector with
        | None => Throw (SyntaxError selector)
        | Some true => Ret (Some element)
        | Some false => findInPathLoop d rest selector
        end
      else findInPathLoop d rest selector
  end.

Definition findInPath (d : Dom) (event : MouseEvent) (selector : string)
  : outcome (option NodeId) :=
  findInPathLoop d (composedPath event) selector.

(** One turn of the [while] loop of [findParentInTree]: where [current] moves
    to, or [None] at the top. *)
Definition stepUp (d : Dom) (current : NodeId) : option NodeId :=
  match parentElement d current with
  | Some p => Some p
  | None =>
      match parentHost d current with
      | Some h => Some h
      | None =>
          match parentNodeOf d current with
          | Some p => if Nat.eqb p (document d) then None else Some p
          | None => None
          end
      end
  end.

(** [current.matches?.(selector)]: only elements have [matches]. *)
Definition matchesIfElement (d : Dom) (current : NodeId) (selector : string)
  : outcome bool :=
  if isElement d current then
    match elementMatches d current selector with
    | Some b => Ret b
    | None => Throw (SyntaxError selector)
    end
  else Ret false.

Fixpoint findParentLoop (fuel : nat) (d : Dom) (current : NodeId) (selector : string)
  : outcome (option NodeId) :=
  match fuel with
  | O => Ret None
  | S f =>
      matchesSelector <-- matchesIfElement d current selector ;;
      if matchesSelector then Ret (Some current)
      else
        match stepUp d current with
        | Some next => findParentLoop f d next selector
        | None => Ret None
        end
  end.

(** The walk visits each node of a chain once, so the size of the store
    bounds it in a tree-shaped document. *)
Definition findParentInTree (d : Dom) (element : option NodeId) (selector : string)
  : outcome (option NodeId) :=
  match element with
  | None => Ret None
  | Some e => findParentLoop (S (length (nodes d))) d e selector
  end.

Definition withinHost (hostRect : Rect) (x y : Q) : bool :=
  (Qle_bool (rleft hostRect) x && Qle_bool x (rright hostRect))
  && (Qle_bool (rtop hostRect) y && Qle_bool y (rbottom hostRect)).

(** The element one registered root resolves at [(x, y)]. *)
Definition resolveInRoot (d : Dom) (rt : NodeId) (x y : Q) : option NodeId :=
  if Nat.eqb rt (document d) then elementFromPoint d rt x y
  else
    match kind (nodeAt d rt) with
    | ShadowRoot host =>
        if withinHost (getBoundingClientRect d host) x y
        then elementFromPoint d rt x y
        else None
    | _ => None
    end.

Fixpoint findDropParentLoop (d : Dom) (roots : list NodeId) (x y : Q)
  : outcome (option NodeId) :=
  match roots with
  | [] => Ret None
  | rt :: rest =>
      match resolveInRoot d rt x y with
      | Some element =>
          found <-- findParentInTree d (Some element) "[data-drag-parent]" ;;
          match found with
          | Some p => Ret (Some p)
          | None => findDropParentLoop d rest x y
          end
      | None => findDropParentLoop d rest x y
      end
  end.

Definition instanceRoots (w : World) : list NodeId :=
  map (fun i => root (instanceAt w i)) (instances w).


Definition adoptAttribute (it : NodeId) (d : Dom) (entry : string * JSON) : Dom :=
  let value := snd entry in
  if typeofObject value then
    setAttribute it (fst entry) (replaceAll dquote squote (JSON_stringify value)) d
  else
    setAttribute it (fst entry) (toString value) d.

Definition applyAdoption (it par : NodeId) (t : Tick) : Tick :=
  let parentConfig := parseParentOptions (tdom t) par in
  match configProp parentConfig "adopted" with
  | None => t
  | Some adopted =>
      if truthy adopted then
        let d' := fold_left (adoptAttribute it) (ownProps adopted) (tdom t) in
        mkTick d' (tstate t)
          (dispatchEvent (Some par) "adopted" (AdoptedDetail it par adopted) (tnotes t))
          (tframes t)
      else t
  end.

(** *** class DataDrag: instance methods *)

Definition mirrorStyle (rect : Rect) : list (string * StyleValue) :=
  [ ("position", SText "fixed");
    ("pointer-events", SText "none");
    ("z-index", SText "9999");
    ("width", SPx (rwidth rect));
    ("height", SPx (rheight rect));
    ("left", SPx (rleft rect));
    ("top", SPx (rtop rect));
    ("opacity", SText "0.8");
    ("margin", SText "0") ].

Definition createMirror (d : Dom) (element : NodeId) : outcome (Dom * NodeId) :=
  let rect := getBoundingClientRect d element in
  let cloned := cloneNode d element in
  let m := snd cloned in
  let d1 := classList_add m "data-drag-mirror" (fst cloned) in
  let d2 := setCssText m (mirrorStyle rect) d1 in
  d3 <-- insertBefore (body d2) m None d2 ;;
  Ret (d3, m).

Definition isHorizontal (opts : list (string * JSON)) : bool :=
  isStrOpt "horizontal" (lookupProp "direction" opts).

(** The filter over [container.children]; [mirrorRef] is
    [DataDrag.globalDragState?.mirror]. *)
Definition isCandidate (d : Dom) (mirrorRef : option NodeId) (dragElement child : NodeId)
  : bool :=
  let isDragElement := Nat.eqb child dragElement in
  let isMirror := optEqb (Some child) mirrorRef in
  let isDataDrag := hasAttribute d child "data-drag" in
  negb isDragElement && negb isMirror && isDataDrag.

Definition midpoint (d : Dom) (horizontal : bool) (child : NodeId) : Q :=
  let rect := getBoundingClientRect d child in
  if horizontal then rleft rect + rwidth rect / 2 else rtop rect + rheight rect / 2.

Definition cursorBeforeMidpoint (d : Dom) (horizontal : bool) (x y : Q) (child : NodeId)
  : bool :=
  let coordinate := if horizontal then x else y in
  Qltb coordinate (midpoint d horizontal child).

Definition findInsertPosition (d : Dom) (mirrorRef : option NodeId) (container : NodeId)
    (opts : list (string * JSON)) (x y : Q) (dragElement : NodeId) : option NodeId :=
  let candidates := List.filter (isCandidate d mirrorRef dragElement) (children d container) in
  List.find (cursorBeforeMidpoint d (isHorizontal opts) x y) candidates.

Definition cleanupElement (element : option NodeId) (d : Dom) : Dom :=
  match element with
  | None => d
  | Some e =>
      clearStyle e "transform"
        (clearStyle e "transition"
           (clearStyle e "opacity"
              (classList_remove e "data-drag-dragging" d)))
  end.

Definition animateInsertion (element : NodeId) (fromRect toRect : Rect) (duration : JSON)
    (t : Tick) : Tick :=
  let deltaX := (rleft fromRect - rleft toRect)%Q in
  let deltaY := (rtop fromRect - rtop toRect)%Q in
  if Qeq_bool deltaX 0 && Qeq_bool deltaY 0 then t
  else
    let d1 := setStyle element "transform" (STranslate deltaX deltaY) (tdom t) in
    let d2 := setStyle element "transition" (SText "none") d1 in
    mkTick d2 (tstate t) (tnotes t) ((tframes t) ++ [(element, duration)])%list.

(** The callback [animateInsertion] hands to [requestAnimationFrame]. *)
Definition runFrame (request : NodeId * JSON) (d : Dom) : Dom :=
  setStyle (fst request) "transform" (STranslate 0 0)
    (setStyle (fst request) "transition" (STransition (snd request)) d).

(** [options.handle !== null] and, if so, whether the click was on the handle. *)
Definition clickedHandle (d : Dom) (event : MouseEvent) (opts : list (string * JSON))
  : outcome bool :=
  match lookupProp "handle" opts with
  | Some JNull => Ret true
  | Some h =>
      clicked <-- findInPath d event (toString h) ;;
      Ret (match clicked with Some _ => true | None => false end)
  | None =>
      clicked <-- findInPath d event "undefined" ;;
      Ret (match clicked with Some _ => true | None => false end)
  end.

Definition setInstanceState (i : InstId) (r : option StateRef) (store : list Instance)
  : list Instance :=
  alter (fun x => mkInstance (root x) r) i store.

Definition handleMouseDown (this : InstId) (event : MouseEvent) (w : World)
  : World * option Exn :=
  let isLeftClick := (button event =? 0)%Z in
  if negb isLeftClick then (w, None)
  else
    match globalDragState w with
    | Some _ => (w, None)
    | None =>
        match findInPath (dom w) event "[data-drag]" with
        | Throw e => (w, Some e)
        | Ret None => (w, None)
        | Ret (Some it) =>
            let opts := parseOptions (dom w) it in
            match clickedHandle (dom w) event opts with
            | Throw e => (w, Some e)
            | Ret false => (w, None)
            | Ret true =>
                match findInPath (dom w) event "[data-drag-parent]" with
                | Throw e => (w, Some e)
                | Ret None => (w, None)
                | Ret (Some par) =>
                    let rect := getBoundingClientRect (dom w) it in
                    let state :=
                      mkDragState it par opts
                        (clientX event - rleft rect) (clientY event - rtop rect)
                        (clientX event) (clientY event)
                        None None false this in
                    let ref := length (stateStore w) in
                    (mkWorld (dom w)
                       (setInstanceState this (Some ref) (instanceStore w))
                       (instances w)
                       (stateStore w ++ [state])
                       (Some ref)
                       (mousedownListeners w)
                       (setAdd this (mousemoveListeners w))
                       (setAdd this (mouseupListeners w))
                       (notifications w)
                       (frameRequests w),
                     None)
                end
            end
        end
    end.

Definition distanceSquared (event : MouseEvent) (state : DragState) : Q :=
  (clientX event - startX state) * (clientX event - startX state)
  + (clientY event - startY state) * (clientY event - startY state).

(** [Math.hypot(dx, dy) >= 5], compared on the squares. *)
Definition meetsThreshold (event : MouseEvent) (state : DragState) : bool :=
  Qle_bool 25 (distanceSquared event state).

(** The block run when the threshold is first met. *)
Definition startDrag (t : Tick) : Tick * option Exn :=
  let s1 := setIsDragging true (tstate t) in
  match createMirror (tdom t) (item s1) with
  | Throw e => (withState s1 t, Some e)
  | Ret created =>
      let s2 := setMirror (Some (snd created)) s1 in
      let d1 := classList_add (item s2) "data-drag-dragging" (fst created) in
      let d2 := setStyle (item s2) "opacity" (SText "0.4") d1 in
      (mkTick d2 s2
         (dispatchEvent (Some (parent s2)) "start" (StartDetail (item s2) (parent s2))
            (tnotes t))
         (tframes t),
       None)
  end.

(** The access rules of the drop parent, if it declares any. *)
Definition accessGranted (d : Dom) (parentConfig : option JSON) (state : DragState)
  : outcome bool :=
  match configProp parentConfig "access" with
  | Some rules =>
      if truthy rules
      then canAccept d (newAccess rules) (item state) (Some (parent state))
      else Ret true
  | None => Ret true
  end.

Definition isDifferentParent (dropParent : NodeId) (state : DragState) : bool :=
  negb (Nat.eqb dropParent (parent state)).

Definition shouldCreateCopy (dropParent : NodeId) (state : DragState) : bool :=
  truthyOpt (lookupProp "copy" (options state)) && isDifferentParent dropParent state.

Definition canSortInParent (dropParent : NodeId) (state : DragState) : bool :=
  truthyOpt (lookupProp "sort" (options state)) || isDifferentParent dropParent state.

(** Copy creation and removal for the current drop parent. *)
Definition reconcileCopy (dropParent : NodeId) (t : Tick) : Tick :=
  let state := tstate t in
  match shouldCreateCopy dropParent state, copy state with
  | true, None =>
      let cloned := cloneNode (tdom t) (item state) in
      mkTick (fst cloned) (setCopy (Some (snd cloned)) state)
        (dispatchEvent (Some (parent state)) "cloned"
           (ClonedDetail (item state) (snd cloned)) (tnotes t))
        (tframes t)
  | false, Some c =>
      mkTick (remove c (tdom t)) (setCopy None state) (tnotes t) (tframes t)
  | _, _ => t
  end.

Definition activeElementOf (state : DragState) : NodeId :=
  match copy state with
  | Some c => c
  | None => item state
  end.

(** Insertion of the active element at the position under the cursor. *)
Definition placeActive (dropParent : NodeId) (event : MouseEvent) (t : Tick)
  : Tick * option Exn :=
  let state := tstate t in
  let d := tdom t in
  let activeElement := activeElementOf state in
  let reference :=
    findInsertPosition d (mirror state) dropParent (options state)
      (clientX event) (clientY event) activeElement in
  let parentChanged := negb (optEqb (parentElement d activeElement) (Some dropParent)) in
  let positionChanged := negb (optEqb (nextElementSibling d activeElement) reference) in
  if parentChanged || positionChanged then
    let oldParent := parentElement d activeElement in
    let oldRect := getBoundingClientRect d activeElement in
    match insertBefore dropParent activeElement reference d with
    | Throw e => (t, Some e)
    | Ret d1 =>
        let t1 := withDom d1 t in
        let t2 :=
          match lookupProp "animation" (options state) with
          | Some duration =>
              if truthy duration
              then animateInsertion activeElement oldRect
                     (getBoundingClientRect d1 activeElement) duration t1
              else t1
          | None => t1
          end in
        (mkTick (tdom t2) (tstate t2)
           (dispatchEvent (Some dropParent) "move"
              (MoveDetail activeElement oldParent dropParent reference) (tnotes t2))
           (tframes t2),
         None)
    end
  else (t, None).

(** Tracking the pointer, the hit test with the mirror hidden and the access
    check: the drop parent this pointer-move may act on, if any. *)
Definition resolveTarget (roots : list NodeId) (event : MouseEvent) (t : Tick)
  : Tick * outcome (option NodeId) :=
  match mirror (tstate t) with
  | None => (t, Throw TypeError)
  | Some m =>
      let mirrorX := (clientX event - offsetX (tstate t))%Q in
      let mirrorY := (clientY event - offsetY (tstate t))%Q in
      let d1 := setStyle m "top" (SPx mirrorY) (setStyle m "left" (SPx mirrorX) (tdom t)) in
      let hidden := setStyle m "display" (SText "none") d1 in
      match findDropParentLoop hidden roots (clientX event) (clientY event) with
      | Throw e => (withDom hidden t, Throw e)
      | Ret found =>
          let t1 := withDom (clearStyle m "display" hidden) t in
          match found with
          | None => (t1, Ret None)
          | Some dropParent =>
              let parentConfig := parseParentOptions (tdom t1) dropParent in
              match accessGranted (tdom t1) parentConfig (tstate t1) with
              | Throw e => (t1, Throw e)
              | Ret false => (t1, Ret None)
              | Ret true => (t1, Ret (Some dropParent))
              end
          end
      end
  end.

(** The first half of a pointer-move, up to the drop parent it may act on:
    the threshold and the start of the drag, then [resolveTarget].  The
    handler returns at once where this yields none. *)
Definition approach (roots : list NodeId) (event : MouseEvent) (t : Tick)
  : Tick * outcome (option NodeId) :=
  if negb (isDragging (tstate t)) then
    if negb (meetsThreshold event (tstate t)) then (t, Ret None)
    else
      match startDrag t with
      | (t1, Some e) => (t1, Throw e)
      | (t1, None) => resolveTarget roots event t1
      end
  else resolveTarget roots event t.

(** The second half: copy reconciliation, then insertion if sorting applies. *)
Definition settle (dropParent : NodeId) (event : MouseEvent) (t : Tick)
  : Tick * option Exn :=
  let t2 := reconcileCopy dropParent t in
  if canSortInParent dropParent (tstate t)
  then placeActive dropParent event t2
  else (t2, None).

Definition moveBody (roots : list NodeId) (event : MouseEvent) (t : Tick)
  : Tick * option Exn :=
  match approach roots event t with
  | (t1, Throw e) => (t1, Some e)
  | (t1, Ret None) => (t1, None)
  | (t1, Ret (Some dropParent)) => settle dropParent event t1
  end.

Definition handleMouseMove (this : InstId) (event : MouseEvent) (w : World)
  : World * option Exn :=
  match globalDragState w with
  | None => (w, None)
  | Some ref =>
      match stateStore w !! ref with
      | None => (w, None)
      | Some state =>
          let r :=
            moveBody (instanceRoots w) event
              (mkTick (dom w) state (notifications w) (frameRequests w)) in
          (mkWorld (tdom (fst r))
             (instanceStore w)
             (instances w)
             (<[ref := tstate (fst r)]> (stateStore w))
             (globalDragState w)
             (mousedownListeners w)
             (mousemoveListeners w)
             (mouseupListeners w)
             (tnotes (fst r))
             (tframes (fst r)),
           snd r)
      end
  end.

(** What pointer-up does to the document and the event log once the drag
    was under way; [isValidDrop] is the result of the upward walk. *)
Definition finishDrag (state : DragState) (finalParent isValidDrop : option NodeId)
    (t : Tick) : Tick :=
  let activeElement := activeElementOf state in
  let d1 := match mirror state with Some m => remove m (tdom t) | None => tdom t end in
  let d2 := cleanupElement (Some (item state)) d1 in
  let d3 := cleanupElement (copy state) d2 in
  match isValidDrop, finalParent with
  | Some _, Some fp =>
      let t1 := applyAdoption activeElement fp (withDom d3 t) in
      mkTick (tdom t1) (tstate t1)
        (dispatchEvent (Some fp) "drop"
           (DropDetail activeElement (parent state) fp
              (match copy state with Some _ => true | None => false end))
           (tnotes t1))
        (tframes t1)
  | _, _ =>
      let d4 := match copy state with Some c => remove c d3 | None => d3 end in
      mkTick d4 (tstate t)
        (dispatchEvent (Some (parent state)) "cancel"
           (CancelDetail (item state) (parent state)) (tnotes t))
        (tframes t)
  end.

Definition handleMouseUp (this : InstId) (w : World) : World * option Exn :=
  match globalDragState w with
  | None => (w, None)
  | Some ref =>
      match stateStore w !! ref with
      | None => (w, None)
      | Some state =>
          let moveListeners := setDelete this (mousemoveListeners w) in
          let upListeners := setDelete this (mouseupListeners w) in
          if negb (isDragging state) then
            (mkWorld (dom w) (setInstanceState this None (instanceStore w)) (instances w)
               (stateStore w) None (mousedownListeners w) moveListeners upListeners
               (notifications w) (frameRequests w),
             None)
          else
            let finalParent := parentElement (dom w) (activeElementOf state) in
            match findParentInTree (dom w) finalParent "[data-drag-parent]" with
            | Throw e =>
                (mkWorld (dom w) (instanceStore w) (instances w) (stateStore w)
                   (globalDragState w) (mousedownListeners w) moveListeners upListeners
                   (notifications w) (frameRequests w),
                 Some e)
            | Ret isValidDrop =>
                let t :=
                  finishDrag state finalParent isValidDrop
                    (mkTick (dom w) state (notifications w) (frameRequests w)) in
                (mkWorld (tdom t) (setInstanceState this None (instanceStore w))
                   (instances w) (stateStore w) None (mousedownListeners w)
                   moveListeners upListeners (tnotes t) (tframes t),
                 None)
            end
      end
  end.

Definition destroy (this : InstId) (w : World) : World :=
  let downListeners := setDelete this (mousedownListeners w) in
  let registry := setDelete this (instances w) in
  let thisInstanceIsDragging :=
    refEqb (dragState (instanceAt w this)) (globalDragState w) in
  if thisInstanceIsDragging then
    mkWorld (dom w) (setInstanceState this None (instanceStore w)) registry
      (stateStore w) None downListeners
      (setDelete this (mousemoveListeners w)) (setDelete this (mouseupListeners w))
      (notifications w) (frameRequests w)
  else
    mkWorld (dom w) (setInstanceState this None (instanceStore w)) registry
      (stateStore w) (globalDragState w) downListeners
      (mousemoveListeners w) (mouseupListeners w)
      (notifications w) (frameRequests w).

(** [new DataDrag(root)] *)
Definition newDataDrag (rt : NodeId) (w : World) : World * InstId :=
  let this := length (instanceStore w) in
  (mkWorld (dom w) (instanceStore w ++ [mkInstance rt None]) (setAdd this (instances w))
     (stateStore w) (globalDragState w) (setAdd this (mousedownListeners w))
     (mousemoveListeners w) (mouseupListeners w)
     (notifications w) (frameRequests w),
   this).

(** ** Properties of the access evaluator *)

(** A policy's pattern set, as the array of strings the configuration holds. *)
Definition patterns (ps : list string) : JSON := JArr (map JStr ps).

(** In the words of the specification: the set contains the wildcard, or the
    source container matches some pattern of the set. *)
Definition matchesSet (d : Dom) (source : NodeId) (ps : list string) : Prop :=
  In "*" ps \/ exists p, In p ps /\ elementMatches d source p = Some true.

Lemma existsb_wildcard (ps : list string) :
  existsb (isStr "*") (map JStr ps) = true <-> In "*" ps.
Proof.
  induction ps as [|p ps IH]; cbn [existsb map isStr In].
  - split; [discriminate | tauto].
  - rewrite orb_true_iff, IH. split.
    + intros [H | H]; [left | right; exact H].
      apply String.eqb_eq in H. congruence.
    + intros [H | H]; [left | right; exact H].
      subst p. apply String.eqb_refl.
Qed.

Lemma existsb_matchesPattern (d : Dom) (source : NodeId) (ps : list string) :
  existsb (matchesPattern d source) (map JStr ps) = true
  <-> exists p, In p ps /\ elementMatches d source p = Some true.
Proof.
  induction ps as [|p ps IH]; cbn [existsb map In].
  - split; [discriminate | intros (p & [] & _)].
  - rewrite orb_true_iff, IH. unfold matchesPattern at 1. cbn [toString]. split.
    + intros [H | (q & Hq & Hm)].
      * exists p. split; [now left |].
        destruct (elementMatches d source p) as [[|]|]; congruence.
      * exists q. split; [now right | exact Hm].
    + intros (q & [-> | Hq] & Hm).
      * left. now rewrite Hm.
      * right. exists q. tauto.
Qed.

Lemma matches_patterns (d : Dom) (source : NodeId) (ps : list string) :
  exists b, matches d source (patterns ps) = Ret b /\ (b = true <-> matchesSet d source ps).
Proof.
  unfold matches, patterns, matchesSet. cbn [includesWildcard obind].
  destruct (existsb (isStr "*") (map JStr ps)) eqn:Hw.
  - exists true. split; [reflexivity |].
    split; [intros _; left; now apply existsb_wildcard | reflexivity].
  - exists (existsb (matchesPattern d source) (map JStr ps)). split; [reflexivity |].
    rewrite existsb_matchesPattern. split.
    + intros H. now right.
    + intros [H | H]; [| exact H].
      apply existsb_wildcard in H. congruence.
Qed.

(** C1. [canAccept] returns true whenever the source container is absent.
    With a source container, under order [['deny','allow']] it returns true
    exactly when the source does not match the deny set and matches the allow
    set; under order [['allow','deny']] exactly when it matches the allow set
    and does not match the deny set.  A set matches when it holds the
    wildcard ['*'] or one of its patterns matches the source. *)
Theorem canAccept_spec (d : Dom) (this : Access) (allowSet denySet : list string)
    (it source : NodeId) :
  canAccept d this it None = Ret true
  /\ (exists b,
        canAccept d (mkAccess (patterns ["deny"; "allow"]) (patterns allowSet) (patterns denySet))
          it (Some source) = Ret b
        /\ (b = true <-> ~ matchesSet d source denySet /\ matchesSet d source allowSet))
  /\ (exists b,
        canAccept d (mkAccess (patterns ["allow"; "deny"]) (patterns allowSet) (patterns denySet))
          it (Some source) = Ret b
        /\ (b = true <-> matchesSet d source allowSet /\ ~ matchesSet d source denySet)).
Proof.
  split; [reflexivity |].
  destruct (matches_patterns d source allowSet) as (a & Ha & Hai).
  destruct (matches_patterns d source denySet) as (dn & Hd & Hdi).
  split.
  - exists (negb dn && a). unfold canAccept. cbn [allow deny order].
    rewrite Ha, Hd. cbn.
    split; [destruct dn, a; reflexivity |].
    rewrite andb_true_iff, negb_true_iff, <- Hai, <- Hdi.
    destruct dn; intuition congruence.
  - exists (a && negb dn). unfold canAccept. cbn [allow deny order].
    rewrite Ha, Hd. cbn.
    split; [reflexivity |].
    rewrite andb_true_iff, negb_true_iff, <- Hai, <- Hdi.
    destruct dn; intuition congruence.
Qed.


(** ** The insertion position *)







Lemma optEqb_eq (a b : option NodeId) : optEqb a b = true <-> a = b.
Proof.
  destruct a, b; cbn [optEqb]; rewrite ?Nat.eqb_eq; split; congruence.
Qed.




(** ** The drop parent under a point *)

(** The node reached from [n] after [k] turns of the upward walk. *)
Fixpoint iterUp (d : Dom) (k : nat) (n : NodeId) : option NodeId :=
  match k with
  | O => Some n
  | S k' =>
      match stepUp d n with
      | Some m => iterUp d k' m
      | None => None
      end
  end.

(** No upward walk is longer than the number of nodes: the document is a
    forest joined at shadow hosts. *)
Definition treeShaped (d : Dom) : Prop :=
  forallb (fun n => match iterUp d (length (nodes d)) n with Some _ => false | None => true end)
    (seq 0 (length (nodes d))) = true.

(** A node flagged as a Container. *)
Definition isContainer (d : Dom) (n : NodeId) : Prop :=
  isElement d n = true /\ hasAttribute d n "data-drag-parent" = true.




Lemma matchesIfElement_container (d : Dom) (n : NodeId) :
  exists b, matchesIfElement d n "[data-drag-parent]" = Ret b /\ (b = true <-> isContainer d n).
Proof.
  unfold matchesIfElement, isContainer, elementMatches.
  replace (String.eqb "[data-drag-parent]" "[data-drag]") with false by reflexivity.
  replace (String.eqb "[data-drag-parent]" "[data-drag-parent]") with true by reflexivity.
  destruct (isElement d n).
  - eexists. split; [reflexivity |]. tauto.
  - exists false. split; [reflexivity |]. split; [discriminate | intros [H _]; discriminate].
Qed.









(** ** Runs of the engine

    The browser calls a handler only while it is registered; between two
    calls the host application may change the document. *)

Definition initialWorld (d : Dom) : World :=
  mkWorld d [] [] [] None [] [] [] [] [].

Definition setDocument (d : Dom) (w : World) : World :=
  mkWorld d (instanceStore w) (instances w) (stateStore w) (globalDragState w)
    (mousedownListeners w) (mousemoveListeners w) (mouseupListeners w)
    (notifications w) (frameRequests w).

Definition nextFrame (w : World) : World :=
  match frameRequests w with
  | [] => w
  | request :: rest =>
      mkWorld (runFrame request (dom w)) (instanceStore w) (instances w) (stateStore w)
        (globalDragState w) (mousedownListeners w) (mousemoveListeners w)
        (mouseupListeners w) (notifications w) rest
  end.

Inductive step : World -> World -> Prop :=
| step_construct (w : World) (rt : NodeId) :
    step w (fst (newDataDrag rt w))
| step_destroy (w : World) (this : InstId) :
    step w (destroy this w)
| step_mousedown (w : World) (this : InstId) (event : MouseEvent) :
    In this (mousedownListeners w) -> step w (fst (handleMouseDown this event w))
| step_mousemove (w : World) (this : InstId) (event : MouseEvent) :
    In this (mousemoveListeners w) -> step w (fst (handleMouseMove this event w))
| step_mouseup (w : World) (this : InstId) :
    In this (mouseupListeners w) -> step w (fst (handleMouseUp this w))
| step_frame (w : World) :
    step w (nextFrame w)
| step_document (w : World) (d : Dom) :
    step w (setDocument d w).

Inductive reachable (d : Dom) : World -> Prop :=
| reachable_initial : reachable d (initialWorld d)
| reachable_step (w w' : World) : reachable d w -> step w w' -> reachable d w'.

(** The drag state objects some orchestrator or the process-wide reference
    still points to. *)
Definition refsOf (r : option StateRef) : list StateRef :=
  match r with
  | Some x => [x]
  | None => []
  end.

Definition sessionRefs (w : World) : list StateRef :=
  (refsOf (globalDragState w)
   ++ flat_map (fun inst => refsOf (dragState inst)) (instanceStore w))%list.

Definition atMostOneSession (w : World) : Prop :=
  forall r1 r2, In r1 (sessionRefs w) -> In r2 (sessionRefs w) -> r1 = r2.

(** The owner of the session, if there is one, is the only orchestrator that
    refers to it and the only one listening on the document. *)
Definition ownedBy (w : World) (owner : option InstId) : Prop :=
  (owner = None <-> globalDragState w = None)
  /\ (forall o, owner = Some o -> (o < length (instanceStore w))%nat)
  /\ (forall i inst, instanceStore w !! i = Some inst ->
        dragState inst = if optEqb (Some i) owner then globalDragState w else None)
  /\ mousemoveListeners w = refsOf owner
  /\ mouseupListeners w = refsOf owner.

Definition sessionInvariant (w : World) : Prop :=
  (forall i, In i (mousedownListeners w) -> (i < length (instanceStore w))%nat)
  /\ exists owner, ownedBy w owner.

Lemma findParentLoop_total (d : Dom) (fuel : nat) :
  forall e, exists r, findParentLoop fuel d e "[data-drag-parent]" = Ret r.
Proof.
  induction fuel as [|f IH]; intros e; cbn [findParentLoop]; [now eexists |].
  destruct (matchesIfElement_container d e) as (b & -> & _). cbn [obind].
  destruct b; [now eexists |].
  destruct (stepUp d e) as [m|]; [apply IH | now eexists].
Qed.

Lemma findParentInTree_total (d : Dom) (e : option NodeId) :
  exists r, findParentInTree d e "[data-drag-parent]" = Ret r.
Proof.
  destruct e as [e|]; cbn [findParentInTree]; [apply findParentLoop_total | now eexists].
Qed.

Lemma setDelete_In (i j : nat) (l : list nat) :
  In j (setDelete i l) <-> In j l /\ j <> i.
Proof.
  unfold setDelete. rewrite filter_In, negb_true_iff, Nat.eqb_neq. tauto.
Qed.

Lemma setAdd_In (i j : nat) (l : list nat) :
  In j (setAdd i l) <-> In j l \/ j = i.
Proof.
  unfold setAdd. destruct (existsb (Nat.eqb i) l) eqn:E.
  - split; [tauto |]. intros [H | ->]; [exact H |].
    apply existsb_exists in E. destruct E as (x & Hx & Hi).
    apply Nat.eqb_eq in Hi. now subst.
  - rewrite in_app_iff. cbn [In]. intuition congruence.
Qed.

Lemma handleMouseMove_frame (this : InstId) (event : MouseEvent) (w : World) :
  let w' := fst (handleMouseMove this event w) in
  instanceStore w' = instanceStore w
  /\ instances w' = instances w
  /\ globalDragState w' = globalDragState w
  /\ mousedownListeners w' = mousedownListeners w
  /\ mousemoveListeners w' = mousemoveListeners w
  /\ mouseupListeners w' = mouseupListeners w.
Proof.
  unfold handleMouseMove.
  destruct (globalDragState w) as [ref|] eqn:G; [| cbn; rewrite G; tauto].
  destruct (stateStore w !! ref); cbn; rewrite ?G; tauto.
Qed.

(** What [handleMouseDown] leaves behind: nothing, or a new session owned by
    [this]. *)
Lemma handleMouseDown_cases (this : InstId) (event : MouseEvent) (w : World) :
  fst (handleMouseDown this event w) = w
  \/ (globalDragState w = None
      /\ exists state,
           fst (handleMouseDown this event w)
           = mkWorld (dom w)
               (setInstanceState this (Some (length (stateStore w))) (instanceStore w))
               (instances w) (stateStore w ++ [state]) (Some (length (stateStore w)))
               (mousedownListeners w) (setAdd this (mousemoveListeners w))
               (setAdd this (mouseupListeners w)) (notifications w) (frameRequests w)
           /\ isDragging state = false /\ mirror state = None /\ copy state = None
           /\ sourceInstance state = this).
Proof.
  unfold handleMouseDown.
  destruct (negb (button event =? 0)%Z); [now left |].
  destruct (globalDragState w) eqn:G; [now left |].
  destruct (findInPath (dom w) event "[data-drag]") as [[it|]|]; try now left.
  destruct (clickedHandle (dom w) event (parseOptions (dom w) it)) as [[|]|]; try now left.
  destruct (findInPath (dom w) event "[data-drag-parent]") as [[par|]|]; try now left.
  right. split; [reflexivity |]. eexists. split; [reflexivity |]. cbn. tauto.
Qed.

Lemma handleMouseUp_cases (this : InstId) (w : World) :
  fst (handleMouseUp this w) = w
  \/ exists d notes frames,
       fst (handleMouseUp this w)
       = mkWorld d (setInstanceState this None (instanceStore w)) (instances w)
           (stateStore w) None (mousedownListeners w)
           (setDelete this (mousemoveListeners w)) (setDelete this (mouseupListeners w))
           notes frames.
Proof.
  unfold handleMouseUp.
  destruct (globalDragState w) as [ref|]; [| now left].
  destruct (stateStore w !! ref) as [state|]; [| now left].
  destruct (negb (isDragging state)); [right; now do 3 eexists |].
  destruct (findParentInTree_total (dom w) (parentElement (dom w) (activeElementOf state)))
    as (r & ->).
  right. now do 3 eexists.
Qed.

Lemma setInstanceState_lookup (this i : InstId) (r : option StateRef)
    (store : list Instance) (inst : Instance) :
  setInstanceState this r store !! i = Some inst ->
  exists old,
    store !! i = Some old
    /\ dragState inst = if Nat.eqb i this then r else dragState old.
Proof.
  unfold setInstanceState. destruct (Nat.eqb_spec i this) as [-> | Hne].
  - rewrite list_lookup_alter_eq. destruct (store !! this) as [old|]; [| discriminate].
    cbn. intros [= <-]. now exists old.
  - rewrite list_lookup_alter_ne by congruence. intros H. now exists inst.
Qed.

Lemma setInstanceState_length (this : InstId) (r : option StateRef) (store : list Instance) :
  length (setInstanceState this r store) = length store.
Proof. unfold setInstanceState. apply length_alter. Qed.

Lemma refsOf_In_singleton (o : option nat) (i : nat) : In i (refsOf o) <-> o = Some i.
Proof. destruct o; cbn; intuition congruence. Qed.

Lemma setDelete_refsOf (this : nat) (o : option nat) :
  In this (refsOf o) -> setDelete this (refsOf o) = [].
Proof.
  intros H. apply refsOf_In_singleton in H. subst o. cbn.
  now rewrite Nat.eqb_refl.
Qed.

Lemma ownedBy_frame (w w' : World) (owner : option InstId) :
  instanceStore w' = instanceStore w ->
  globalDragState w' = globalDragState w ->
  mousemoveListeners w' = mousemoveListeners w ->
  mouseupListeners w' = mouseupListeners w ->
  ownedBy w owner -> ownedBy w' owner.
Proof. unfold ownedBy. intros -> -> -> ->. tauto. Qed.

(** Whether [this] holds the process-wide reference, as [destroy] tests it. *)
Lemma destroy_test (w : World) (owner : option InstId) (this : InstId) :
  ownedBy w owner ->
  refEqb (dragState (instanceAt w this)) (globalDragState w)
  = match owner with
    | Some o => Nat.eqb this o
    | None => true
    end.
Proof.
  intros (Hnone & Hrange & Hrefs & _). unfold refEqb, instanceAt.
  destruct (instanceStore w !! this) as [inst|] eqn:Hthis.
  - rewrite (Hrefs _ _ Hthis). destruct owner as [o|]; cbn [optEqb].
    + destruct (Nat.eqb this o); [now apply optEqb_eq |].
      destruct (globalDragState w); [reflexivity |].
      destruct Hnone as [_ Hn]. discriminate (Hn eq_refl).
    + destruct Hnone as [Hn _]. now rewrite Hn.
  - cbn [dragState blankInstance]. destruct owner as [o|].
    + destruct (Nat.eqb_spec this o) as [-> | Hne].
      * apply lookup_ge_None in Hthis. specialize (Hrange o eq_refl). lia.
      * destruct (globalDragState w); [reflexivity |].
        destruct Hnone as [_ Hn]. discriminate (Hn eq_refl).
    + destruct Hnone as [Hn _]. now rewrite Hn.
Qed.

Lemma ownedBy_cleared (w : World) (owner : option InstId) (this : InstId)
    (d : Dom) (registry downListeners : list InstId) (notes : list Notification)
    (frames : list (NodeId * JSON)) :
  ownedBy w owner ->
  (forall o, owner = Some o -> o = this) ->
  ownedBy
    (mkWorld d (setInstanceState this None (instanceStore w)) registry (stateStore w) None
       downListeners (setDelete this (mousemoveListeners w))
       (setDelete this (mouseupListeners w)) notes frames)
    None.
Proof.
  intros (Hnone & Hrange & Hrefs & Hmove & Hup) Hthis.
  assert (Hdel : setDelete this (refsOf owner) = []).
  { destruct owner as [o|]; [| reflexivity].
    rewrite (Hthis o eq_refl). cbn. now rewrite Nat.eqb_refl. }
  unfold ownedBy.
  cbn [globalDragState instanceStore mousemoveListeners mouseupListeners].
  split; [tauto |]. split; [discriminate |]. split.
  - intros i inst Hl. apply setInstanceState_lookup in Hl.
    destruct Hl as (old & Hold & ->). cbn [optEqb].
    destruct (Nat.eqb_spec i this) as [-> | Hne]; [reflexivity |].
    rewrite (Hrefs _ _ Hold).
    destruct (optEqb (Some i) owner) eqn:Ei; [| reflexivity].
    apply optEqb_eq in Ei. symmetry in Ei. apply Hthis in Ei. contradiction.
  - now rewrite Hmove, Hup, Hdel.
Qed.

Lemma sessionInvariant_step (w w' : World) :
  sessionInvariant w -> step w w' -> sessionInvariant w'.
Proof.
  intros (Hdown & owner & Howned) Hstep.
  pose proof Howned as (Hnone & Hrange & Hrefs & Hmove & Hup).
  destruct Hstep as [w rt | w this | w this event Hin | w this event Hin | w this Hin
                    | w | w d].
  - (* construction *)
    split; cbn [newDataDrag fst mousedownListeners instanceStore].
    + intros i Hi. rewrite length_app. cbn [length]. apply setAdd_In in Hi.
      destruct Hi as [Hi | ->]; [apply Hdown in Hi |]; lia.
    + exists owner. unfold ownedBy.
      cbn [globalDragState instanceStore mousemoveListeners mouseupListeners].
      split; [exact Hnone |]. split; [| split; [| tauto]].
      * intros o Ho. rewrite length_app. apply Hrange in Ho. lia.
      * intros i inst Hl. apply lookup_app_Some in Hl.
        destruct Hl as [Hl | [Hge Hl]]; [now apply Hrefs |].
        apply list_lookup_singleton_Some in Hl. destruct Hl as [_ <-]. cbn [dragState].
        destruct (optEqb (Some i) owner) eqn:E; [| reflexivity].
        apply optEqb_eq in E. symmetry in E. apply Hrange in E. lia.
  - (* teardown *)
    unfold destroy. rewrite (destroy_test w owner this Howned).
    assert (Hlen : forall i, In i (setDelete this (mousedownListeners w)) ->
                     (i < length (setInstanceState this None (instanceStore w)))%nat).
    { intros i Hi. rewrite setInstanceState_length. apply setDelete_In in Hi.
      now apply Hdown. }
    destruct owner as [o|].
    + destruct (Nat.eqb_spec this o) as [-> | Hne].
      * split; [exact Hlen |]. exists None. apply ownedBy_cleared with (owner := Some o).
        -- exact Howned.
        -- now intros o' [= <-].
      * split; [exact Hlen |]. exists (Some o). unfold ownedBy.
        cbn [globalDragState instanceStore mousemoveListeners mouseupListeners].
        split; [exact Hnone |]. split; [| split; [| tauto]].
        -- intros o' Ho. rewrite setInstanceState_length. now apply Hrange.
        -- intros i inst Hl. apply setInstanceState_lookup in Hl.
           destruct Hl as (old & Hold & ->).
           destruct (Nat.eqb_spec i this) as [-> | Hi]; [| now apply Hrefs].
           cbn [optEqb]. destruct (Nat.eqb_spec this o); [contradiction | reflexivity].
    + split; [exact Hlen |]. exists None. apply ownedBy_cleared with (owner := None).
      * exact Howned.
      * discriminate.
  - (* pointer-down *)
    destruct (handleMouseDown_cases this event w) as [-> | (G & state & -> & _)].
    + split; [exact Hdown | now exists owner].
    + assert (owner = None) by now apply Hnone. subst owner.
      split; cbn [mousedownListeners instanceStore].
      * intros i Hi. rewrite setInstanceState_length. now apply Hdown.
      * exists (Some this). unfold ownedBy.
        cbn [globalDragState instanceStore mousemoveListeners mouseupListeners].
        split; [split; discriminate |]. split; [| split].
        -- intros o [= <-]. rewrite setInstanceState_length. now apply Hdown.
        -- intros i inst Hl. apply setInstanceState_lookup in Hl.
           destruct Hl as (old & Hold & ->). cbn [optEqb].
           destruct (Nat.eqb_spec i this) as [-> | Hne]; [reflexivity |].
           now rewrite (Hrefs _ _ Hold).
        -- now rewrite Hmove, Hup.
  - (* pointer-move *)
    destruct (handleMouseMove_frame this event w) as (E1 & E2 & E3 & E4 & E5 & E6).
    split.
    + intros i Hi. rewrite E1. apply Hdown. now rewrite <- E4.
    + exists owner. now apply (ownedBy_frame w).
  - (* pointer-up *)
    destruct (handleMouseUp_cases this w) as [-> | (d & notes & frames & ->)].
    + split; [exact Hdown | now exists owner].
    + split; cbn [mousedownListeners instanceStore].
      * intros i Hi. rewrite setInstanceState_length. now apply Hdown.
      * exists None. apply ownedBy_cleared with (owner := owner); [exact Howned |].
        intros o ->. rewrite Hup in Hin. cbn in Hin. intuition congruence.
  - (* animation frame *)
    unfold nextFrame. destruct (frameRequests w).
    + split; [exact Hdown | now exists owner].
    + split; [exact Hdown | now exists owner].
  - (* document change *)
    split; [exact Hdown | now exists owner].
Qed.

Lemma sessionInvariant_reachable (d : Dom) (w : World) :
  reachable d w -> sessionInvariant w.
Proof.
  induction 1 as [|w w' _ IH Hstep].
  - split; [intros i [] |]. exists None. unfold ownedBy. cbn.
    split; [tauto |]. split; [discriminate |]. split; [| tauto].
    intros i inst Hl. now rewrite lookup_nil in Hl.
  - exact (sessionInvariant_step _ _ IH Hstep).
Qed.

Lemma sessionInvariant_atMostOne (w : World) :
  sessionInvariant w -> atMostOneSession w.
Proof.
  intros (_ & owner & _ & _ & Hrefs & _).
  assert (Hall : forall r, In r (sessionRefs w) -> globalDragState w = Some r).
  { intros r Hr. unfold sessionRefs in Hr. apply in_app_iff in Hr.
    destruct Hr as [Hr | Hr]; [now apply refsOf_In_singleton |].
    apply in_flat_map in Hr. destruct Hr as (inst & Hin & Hr).
    apply refsOf_In_singleton in Hr.
    apply list_elem_of_In, list_elem_of_lookup in Hin. destruct Hin as (i & Hi).
    rewrite (Hrefs _ _ Hi) in Hr.
    destruct (optEqb (Some i) owner); [exact Hr | discriminate]. }
  intros r1 r2 H1 H2. apply Hall in H1, H2. congruence.
Qed.

(** C3. In every world the engine reaches, at most one drag session exists
    across all orchestrators; and a pointer-down that arrives while the
    process-wide session reference is set creates no session, changes
    nothing and raises no error. *)
Theorem single_session (d : Dom) (w : World) :
  reachable d w ->
  atMostOneSession w
  /\ forall (this : InstId) (event : MouseEvent),
       globalDragState w <> None -> handleMouseDown this event w = (w, None).
Proof.
  intros Hreach. split.
  - apply sessionInvariant_atMostOne. exact (sessionInvariant_reachable d w Hreach).
  - intros this event Hactive. unfold handleMouseDown.
    destruct (negb (button event =? 0)%Z); [reflexivity |].
    destruct (globalDragState w); [reflexivity | contradiction].
Qed.

(** ** Facts about the document operations *)

Lemma nodeAt_updateNode_ne (f : Node -> Node) (n m : NodeId) (d : Dom) :
  m <> n -> nodeAt (updateNode f n d) m = nodeAt d m.
Proof.
  intros Hne. unfold nodeAt, updateNode. cbn [nodes].
  now rewrite list_lookup_alter_ne by congruence.
Qed.

Lemma nodeAt_updateNode_eq (f : Node -> Node) (n : NodeId) (d : Dom) :
  (n < length (nodes d))%nat -> nodeAt (updateNode f n d) n = f (nodeAt d n).
Proof.
  intros Hlt. unfold nodeAt, updateNode. cbn [nodes].
  rewrite list_lookup_alter_eq.
  destruct (lookup_lt_is_Some_2 (nodes d) n Hlt) as (x & ->). reflexivity.
Qed.

Lemma nodeAt_outside (d : Dom) (n : NodeId) :
  (length (nodes d) <= n)%nat -> nodeAt d n = blankNode.
Proof.
  intros H. unfold nodeAt. now rewrite (lookup_ge_None_2 (nodes d) n H).
Qed.

(** An update that leaves a field alone leaves it alone at every node. *)
Lemma nodeAt_updateNode_proj {A : Type} (proj : Node -> A) (f : Node -> Node)
    (n m : NodeId) (d : Dom) :
  (forall x, proj (f x) = proj x) ->
  proj (nodeAt (updateNode f n d) m) = proj (nodeAt d m).
Proof.
  intros Hf. destruct (Nat.eq_dec m n) as [-> | Hne].
  - destruct (Nat.lt_ge_cases n (length (nodes d))) as [Hlt | Hge].
    + now rewrite nodeAt_updateNode_eq.
    + rewrite !nodeAt_outside; [reflexivity | exact Hge |].
      unfold updateNode. cbn [nodes]. now rewrite length_alter.
  - now rewrite nodeAt_updateNode_ne.
Qed.

Lemma length_updateNode (f : Node -> Node) (n : NodeId) (d : Dom) :
  length (nodes (updateNode f n d)) = length (nodes d).
Proof. unfold updateNode. cbn [nodes]. apply length_alter. Qed.

(** The links of a node: what the tree shape is made of. *)
Definition links (x : Node) : NodeKind * option NodeId * list NodeId :=
  (kind x, parentNode x, childNodes x).

(** [d'] has the tree of [d], node for node. *)
Definition sameTree (d d' : Dom) : Prop :=
  length (nodes d') = length (nodes d)
  /\ body d' = body d /\ document d' = document d
  /\ forall n, links (nodeAt d' n) = links (nodeAt d n).

Lemma sameTree_refl (d : Dom) : sameTree d d.
Proof. unfold sameTree. tauto. Qed.

Lemma sameTree_trans (d1 d2 d3 : Dom) :
  sameTree d1 d2 -> sameTree d2 d3 -> sameTree d1 d3.
Proof.
  intros (L1 & B1 & D1 & N1) (L2 & B2 & D2 & N2). unfold sameTree.
  split; [congruence |]. split; [congruence |]. split; [congruence |].
  intros n. now rewrite N2.
Qed.

Lemma sameTree_updateNode (f : Node -> Node) (n : NodeId) (d : Dom) :
  (forall x, links (f x) = links x) -> sameTree d (updateNode f n d).
Proof.
  intros Hf. unfold sameTree. rewrite length_updateNode.
  repeat split. intros m. now apply (nodeAt_updateNode_proj links).
Qed.

Lemma sameTree_setStyle (n : NodeId) (p : string) (v : StyleValue) (d : Dom) :
  sameTree d (setStyle n p v d).
Proof. apply sameTree_updateNode. reflexivity. Qed.

Lemma sameTree_clearStyle (n : NodeId) (p : string) (d : Dom) :
  sameTree d (clearStyle n p d).
Proof. apply sameTree_updateNode. reflexivity. Qed.

Lemma sameTree_setCssText (n : NodeId) (st : list (string * StyleValue)) (d : Dom) :
  sameTree d (setCssText n st d).
Proof. apply sameTree_updateNode. reflexivity. Qed.


Lemma sameTree_classList_add (n : NodeId) (c : string) (d : Dom) :
  sameTree d (classList_add n c d).
Proof.
  apply sameTree_updateNode. intros x.
  destruct (existsb (String.eqb c) (classList x)); reflexivity.
Qed.



Lemma sameTree_parent (d d' : Dom) (n : NodeId) :
  sameTree d d' -> parentNodeOf d' n = parentNodeOf d n.
Proof.
  intros (_ & _ & _ & H). specialize (H n). unfold links in H. unfold parentNodeOf.
  congruence.
Qed.

Lemma sameTree_children (d d' : Dom) (n : NodeId) :
  sameTree d d' -> childNodes (nodeAt d' n) = childNodes (nodeAt d n).
Proof.
  intros (_ & _ & _ & H). specialize (H n). unfold links in H. congruence.
Qed.

Lemma sameTree_kind (d d' : Dom) (n : NodeId) :
  sameTree d d' -> kind (nodeAt d' n) = kind (nodeAt d n).
Proof.
  intros (_ & _ & _ & H). specialize (H n). unfold links in H. congruence.
Qed.

(** *** Removal *)

Lemma parent_inStore (d : Dom) (n p : NodeId) :
  parentNodeOf d n = Some p -> (n < length (nodes d))%nat.
Proof.
  intros H. destruct (Nat.lt_ge_cases n (length (nodes d))) as [Hlt | Hge]; [exact Hlt |].
  unfold parentNodeOf in H. rewrite nodeAt_outside in H by exact Hge. discriminate.
Qed.

Lemma remove_parent (n m : NodeId) (d : Dom) :
  parentNodeOf (remove n d) m = if Nat.eqb m n then None else parentNodeOf d m.
Proof.
  unfold remove. destruct (parentNodeOf d n) as [p|] eqn:Hp.
  - destruct (Nat.eqb_spec m n) as [-> | Hne].
    + unfold parentNodeOf. rewrite nodeAt_updateNode_eq; [reflexivity |].
      rewrite length_updateNode. exact (parent_inStore _ _ _ Hp).
    + unfold parentNodeOf. rewrite nodeAt_updateNode_ne by exact Hne.
      now apply (nodeAt_updateNode_proj parentNode).
  - destruct (Nat.eqb_spec m n) as [-> | Hne]; [exact Hp | reflexivity].
Qed.

Lemma remove_children_subset (n q c : NodeId) (d : Dom) :
  In c (childNodes (nodeAt (remove n d) q)) ->
  In c (childNodes (nodeAt d q)) /\ (parentNodeOf d n = Some q -> c <> n).
Proof.
  unfold remove. destruct (parentNodeOf d n) as [p|] eqn:Hp; [| intros H; split; [exact H | discriminate]].
  rewrite (nodeAt_updateNode_proj childNodes) by reflexivity.
  destruct (Nat.eq_dec q p) as [-> | Hne].
  - destruct (Nat.lt_ge_cases p (length (nodes d))) as [Hlt | Hge].
    + rewrite nodeAt_updateNode_eq by exact Hlt. cbn [childNodes withChildren].
      rewrite filter_In, negb_true_iff, Nat.eqb_neq. intros [Hin Hc]. now split.
    + rewrite nodeAt_outside; [intros [] |].
      now rewrite length_updateNode.
  - rewrite nodeAt_updateNode_ne by exact Hne. intros H. split; [exact H |]. congruence.
Qed.

Lemma remove_kind (n m : NodeId) (d : Dom) :
  kind (nodeAt (remove n d) m) = kind (nodeAt d m).
Proof.
  unfold remove. destruct (parentNodeOf d n) as [p|]; [| reflexivity].
  rewrite (nodeAt_updateNode_proj kind) by reflexivity.
  now apply (nodeAt_updateNode_proj kind).
Qed.

Lemma remove_length (n : NodeId) (d : Dom) :
  length (nodes (remove n d)) = length (nodes d).
Proof.
  unfold remove. destruct (parentNodeOf d n); [| reflexivity].
  now rewrite !length_updateNode.
Qed.

Lemma remove_body (n : NodeId) (d : Dom) :
  body (remove n d) = body d /\ document (remove n d) = document d.
Proof. unfold remove. now destruct (parentNodeOf d n). Qed.

(** The visible state of a node: what styling and attributes are made of. *)
Definition looks (x : Node) : list (string * string) * list string * list (string * StyleValue) :=
  (attributes x, classList x, style x).

Lemma remove_looks (n m : NodeId) (d : Dom) :
  looks (nodeAt (remove n d) m) = looks (nodeAt d m).
Proof.
  unfold remove. destruct (parentNodeOf d n) as [p|]; [| reflexivity].
  rewrite (nodeAt_updateNode_proj looks) by reflexivity.
  now apply (nodeAt_updateNode_proj looks).
Qed.

(** Every child names its parent. *)
Definition linked (d : Dom) : Prop :=
  forallb
    (fun n => forallb (fun c => optEqb (parentNodeOf d c) (Some n)) (childNodes (nodeAt d n)))
    (seq 0 (length (nodes d))) = true.

Lemma linked_parent (d : Dom) (n c : NodeId) :
  linked d -> In c (childNodes (nodeAt d n)) -> parentNodeOf d c = Some n.
Proof.
  intros Hl Hin. destruct (Nat.lt_ge_cases n (length (nodes d))) as [Hlt | Hge].
  - unfold linked in Hl. rewrite forallb_forall in Hl.
    assert (Hn : In n (seq 0 (length (nodes d)))) by (apply in_seq; lia).
    specialize (Hl n Hn). rewrite forallb_forall in Hl.
    now apply optEqb_eq, Hl.
  - rewrite nodeAt_outside in Hin by exact Hge. destruct Hin.
Qed.

(** [n] hangs nowhere in the tree. *)
Definition detached (d : Dom) (n : NodeId) : Prop :=
  parentNodeOf d n = None /\ forall q, ~ In n (childNodes (nodeAt d q)).

Lemma remove_detached (n : NodeId) (d : Dom) : linked d -> detached (remove n d) n.
Proof.
  intros Hl. split.
  - rewrite remove_parent. now rewrite Nat.eqb_refl.
  - intros q Hin. apply remove_children_subset in Hin. destruct Hin as [Hin Hne].
    apply Hne; [| reflexivity]. exact (linked_parent d q n Hl Hin).
Qed.



(** *** In-flight marks *)


Lemma assocGet_assocDel {V : Type} (k k' : string) (l : list (string * V)) :
  assocGet k' (assocDel k l) = if String.eqb k k' then None else assocGet k' l.
Proof.
  induction l as [|[k0 v] l IH]; cbn [assocDel List.filter assocGet fst].
  - now destruct (String.eqb k k').
  - destruct (String.eqb_spec k k0) as [<- | Hne]; cbn [negb].
    + fold (assocDel k l). rewrite IH. rewrite (String.eqb_sym k' k).
      now destruct (String.eqb k k').
    + cbn [assocGet]. fold (assocDel k l). rewrite IH.
      destruct (String.eqb_spec k k') as [<- | Hne'].
      * destruct (String.eqb_spec k k0); [contradiction | reflexivity].
      * reflexivity.
Qed.

Lemma assocGet_assocSet {V : Type} (k k' : string) (v : V) (l : list (string * V)) :
  assocGet k' (assocSet k v l) = if String.eqb k k' then Some v else assocGet k' l.
Proof.
  induction l as [|[k0 v0] l IH]; cbn [assocSet assocGet].
  - rewrite (String.eqb_sym k' k). now destruct (String.eqb k k').
  - destruct (String.eqb_spec k k0) as [<- | Hne]; cbn [assocGet].
    + rewrite (String.eqb_sym k' k). now destruct (String.eqb k k').
    + rewrite IH. destruct (String.eqb_spec k k') as [<- | Hne'].
      * destruct (String.eqb_spec k k0); [contradiction | reflexivity].
      * reflexivity.
Qed.

Lemma getStyle_clearStyle (n m : NodeId) (p q : string) (d : Dom) :
  getStyle (clearStyle n p d) m q
  = if Nat.eqb m n && String.eqb p q then None else getStyle d m q.
Proof.
  unfold getStyle, clearStyle. destruct (Nat.eqb_spec m n) as [-> | Hne]; cbn [andb].
  - destruct (Nat.lt_ge_cases n (length (nodes d))) as [Hlt | Hge].
    + rewrite nodeAt_updateNode_eq by exact Hlt. cbn [style withStyle].
      apply assocGet_assocDel.
    + rewrite !nodeAt_outside; [now destruct (String.eqb p q) | exact Hge |].
      now rewrite length_updateNode.
  - now rewrite nodeAt_updateNode_ne.
Qed.

Lemma getStyle_setStyle (n m : NodeId) (p q : string) (v : StyleValue) (d : Dom) :
  (n < length (nodes d))%nat ->
  getStyle (setStyle n p v d) m q
  = if Nat.eqb m n && String.eqb p q then Some v else getStyle d m q.
Proof.
  intros Hlt. unfold getStyle, setStyle.
  destruct (Nat.eqb_spec m n) as [-> | Hne]; cbn [andb].
  - rewrite nodeAt_updateNode_eq by exact Hlt. cbn [style withStyle].
    apply assocGet_assocSet.
  - now rewrite nodeAt_updateNode_ne.
Qed.

Lemma getStyle_setStyle_other (n m : NodeId) (p q : string) (v : StyleValue) (d : Dom) :
  p <> q -> getStyle (setStyle n p v d) m q = getStyle d m q.
Proof.
  intros Hpq. unfold getStyle, setStyle.
  destruct (Nat.eq_dec m n) as [-> | Hne].
  - destruct (Nat.lt_ge_cases n (length (nodes d))) as [Hlt | Hge].
    + rewrite nodeAt_updateNode_eq by exact Hlt. cbn [style withStyle].
      rewrite assocGet_assocSet. destruct (String.eqb_spec p q); [contradiction | reflexivity].
    + rewrite !nodeAt_outside; [reflexivity | exact Hge |].
      now rewrite length_updateNode.
  - now rewrite nodeAt_updateNode_ne.
Qed.











(** ** Pointer-up *)




















Lemma setInstanceState_cleared (this : InstId) (store : list Instance) :
  dragState
    (match setInstanceState this None store !! this with
     | Some x => x
     | None => blankInstance
     end) = None.
Proof.
  destruct (setInstanceState this None store !! this) as [inst|] eqn:E; [| reflexivity].
  apply setInstanceState_lookup in E. destruct E as (old & _ & ->).
  now rewrite Nat.eqb_refl.
Qed.

Lemma setDelete_notin (i : nat) (l : list nat) : ~ In i (setDelete i l).
Proof. intros H. apply setDelete_In in H. now destruct H. Qed.


(** *** Cloning and insertion *)

Lemma fold_left_invariant {A B : Type} (P : A -> Prop) (f : A -> B -> A) (l : list B) :
  (forall a b, P a -> P (f a b)) -> forall a, P a -> P (fold_left f l a).
Proof.
  intros Hf. induction l as [|b l IH]; intros a Ha; cbn [fold_left]; [exact Ha |].
  apply IH, Hf, Ha.
Qed.

(** A clone lands in fresh nodes: the store only grows, and the root of the
    clone is the first new node, with the looks of the source. *)
Definition clonedFrom (d : Dom) (src : NodeId) (p : option NodeId) (r : Dom * NodeId)
  : Prop :=
  snd r = length (nodes d)
  /\ (length (nodes d) < length (nodes (fst r)))%nat
  /\ (forall n, (n < length (nodes d))%nat -> nodes (fst r) !! n = nodes d !! n)
  /\ body (fst r) = body d
  /\ document (fst r) = document d
  /\ looks (nodeAt (fst r) (length (nodes d))) = looks (nodeAt d src)
  /\ parentNode (nodeAt (fst r) (length (nodes d))) = p
  /\ kind (nodeAt (fst r) (length (nodes d))) = kind (nodeAt d src).

Lemma cloneTree_clonedFrom (fuel : nat) :
  forall d src p, clonedFrom d src p (cloneTree fuel d src p).
Proof.
  induction fuel as [|f IH]; intros d src p.
  - unfold clonedFrom. cbn [cloneTree fst snd nodes body document].
    rewrite length_app. cbn [length].
    split; [reflexivity |]. split; [lia |].
    split; [intros n Hn; now apply lookup_app_l |].
    split; [reflexivity |]. split; [reflexivity |].
    unfold nodeAt. cbn [nodes].
    rewrite lookup_app_r, Nat.sub_diag by lia. cbn. tauto.
  - cbn [cloneTree].
    set (x := nodeAt d src).
    set (N := length (nodes d)).
    set (d0 := mkDom (nodes d ++ [mkNode (kind x) p [] (attributes x) (classList x) (style x)])
                 (document d) (body d)).
    set (stepf := fun (acc : Dom * list nat) (c : nat) =>
                    (fst (cloneTree f (fst acc) c (Some N)),
                     (snd acc ++ [snd (cloneTree f (fst acc) c (Some N))])%list)).
    set (P := fun acc : Dom * list nat =>
                (S N <= length (nodes (fst acc)))%nat
                /\ (forall n, (n < S N)%nat -> nodes (fst acc) !! n = nodes d0 !! n)
                /\ body (fst acc) = body d /\ document (fst acc) = document d).
    assert (HP : P (fold_left stepf (childNodes x) (d0, []))).
    { apply fold_left_invariant.
      - intros acc c (Hlen & Hpre & Hb & Hd).
        destruct (IH (fst acc) c (Some N)) as (_ & Hgrow & Hkeep & Hb' & Hd' & _).
        unfold P, stepf. cbn [fst].
        split; [lia |]. split; [| split; congruence].
        intros n Hn. rewrite Hkeep by lia. now apply Hpre.
      - unfold P, d0. cbn [fst nodes body document]. rewrite length_app. cbn [length].
        fold N. split; [lia |]. tauto. }
    destruct HP as (Hlen & Hpre & Hb & Hd).
    unfold clonedFrom. cbn [fst snd]. fold N.
    split; [reflexivity |].
    split; [rewrite length_updateNode; lia |].
    split.
    { intros n Hn. unfold updateNode. cbn [nodes].
      rewrite list_lookup_alter_ne by lia. rewrite Hpre by lia.
      unfold d0. cbn [nodes]. now apply lookup_app_l. }
    split; [exact Hb |]. split; [exact Hd |].
    rewrite nodeAt_updateNode_eq by lia.
    assert (E : nodeAt (fold_left stepf (childNodes x) (d0, [])).1 N
                = mkNode (kind x) p [] (attributes x) (classList x) (style x)).
    { unfold nodeAt. rewrite Hpre by lia. unfold d0. cbn [nodes].
      rewrite lookup_app_r by (fold N; lia). fold N. now rewrite Nat.sub_diag. }
    rewrite E. cbn. tauto.
Qed.

Lemma cloneNode_clonedFrom (d : Dom) (src : NodeId) :
  clonedFrom d src None (cloneNode d src).
Proof. apply cloneTree_clonedFrom. Qed.

Lemma clonedFrom_nodeAt (d : Dom) (src : NodeId) (p : option NodeId) (r : Dom * NodeId)
    (n : NodeId) :
  clonedFrom d src p r -> (n < length (nodes d))%nat -> nodeAt (fst r) n = nodeAt d n.
Proof.
  intros (_ & _ & Hkeep & _) Hn. unfold nodeAt. now rewrite Hkeep.
Qed.

(** What an insertion leaves alone. *)
Lemma insertBefore_frame (par node : NodeId) (ref : option NodeId) (d d' : Dom) :
  insertBefore par node ref d = Ret d' ->
  length (nodes d') = length (nodes d)
  /\ body d' = body d /\ document d' = document d
  /\ (forall m, looks (nodeAt d' m) = looks (nodeAt d m))
  /\ (forall m, kind (nodeAt d' m) = kind (nodeAt d m))
  /\ (forall m, m <> node -> parentNodeOf d' m = parentNodeOf d m).
Proof.
  unfold insertBefore.
  destruct (isInclusiveAncestor d node par); [discriminate |].
  match goal with |- context [if ?b then Throw NotFoundError else _] => destruct b end;
    [discriminate |].
  intros [= <-].
  split; [now rewrite !length_updateNode, remove_length |].
  split; [apply remove_body |]. split; [apply remove_body |].
  split; [| split].
  - intros m. rewrite (nodeAt_updateNode_proj looks) by reflexivity.
    rewrite (nodeAt_updateNode_proj looks) by reflexivity. apply remove_looks.
  - intros m. rewrite (nodeAt_updateNode_proj kind) by reflexivity.
    rewrite (nodeAt_updateNode_proj kind) by reflexivity. apply remove_kind.
  - intros m Hne. unfold parentNodeOf at 1. rewrite nodeAt_updateNode_ne by exact Hne.
    rewrite (nodeAt_updateNode_proj parentNode) by reflexivity.
    fold (parentNodeOf (remove node d) m). rewrite remove_parent.
    destruct (Nat.eqb_spec m node); [contradiction | reflexivity].
Qed.

Lemma insertBefore_parent (par node : NodeId) (ref : option NodeId) (d d' : Dom) :
  insertBefore par node ref d = Ret d' ->
  (node < length (nodes d))%nat ->
  parentNodeOf d' node = Some par.
Proof.
  unfold insertBefore.
  destruct (isInclusiveAncestor d node par); [discriminate |].
  match goal with |- context [if ?b then Throw NotFoundError else _] => destruct b end;
    [discriminate |].
  intros [= <-] Hlt. unfold parentNodeOf.
  rewrite nodeAt_updateNode_eq; [reflexivity |].
  now rewrite length_updateNode, remove_length.
Qed.

(** Every link of the store points into the store. *)
Definition refsInStore (d : Dom) : Prop :=
  forallb
    (fun x =>
       match parentNode x with Some p => Nat.ltb p (length (nodes d)) | None => true end
       && match kind x with ShadowRoot h => Nat.ltb h (length (nodes d)) | _ => true end)
    (nodes d)
  && Nat.ltb (body d) (length (nodes d)) = true.

Definition closedBelow (N : nat) (d : Dom) : Prop :=
  forall n, (n < N)%nat ->
    (forall p, parentNode (nodeAt d n) = Some p -> (p < N)%nat)
    /\ (forall h, kind (nodeAt d n) = ShadowRoot h -> (h < N)%nat).

Lemma refsInStore_closedBelow (d : Dom) :
  refsInStore d ->
  closedBelow (length (nodes d)) d /\ (body d < length (nodes d))%nat.
Proof.
  unfold refsInStore. rewrite andb_true_iff, forallb_forall, Nat.ltb_lt.
  intros [Hall Hbody]. split; [| exact Hbody].
  intros n Hn. unfold nodeAt.
  destruct (lookup_lt_is_Some_2 (nodes d) n Hn) as (x & Hx). rewrite Hx.
  assert (Hin : In x (nodes d)).
  { apply list_elem_of_In, list_elem_of_lookup. now exists n. }
  specialize (Hall x Hin). apply andb_true_iff in Hall. destruct Hall as [Hp Hk].
  split.
  - intros p Ep. rewrite Ep in Hp. now apply Nat.ltb_lt.
  - intros h Eh. rewrite Eh in Hk. now apply Nat.ltb_lt.
Qed.

Lemma isAncestorLoop_fresh (N : nat) (d : Dom) (a : NodeId) (fuel : nat) :
  closedBelow N d -> (N <= a)%nat ->
  forall n, (n < N)%nat -> isAncestorLoop fuel d a n = false.
Proof.
  intros Hc Ha. induction fuel as [|f IH]; intros n Hn; cbn [isAncestorLoop]; [reflexivity |].
  destruct (Nat.eqb_spec n a); [lia |].
  destruct (Hc n Hn) as [Hp Hk].
  destruct (parentNode (nodeAt d n)) as [p|]; [apply IH, Hp; reflexivity |].
  destruct (kind (nodeAt d n)) as [| |h| |]; try reflexivity.
  apply IH, Hk. reflexivity.
Qed.

(** ** What a pointer-move keeps *)

(** The store only grows, and the nodes already there keep their kind, their
    attributes, their class list and their opacity. *)
Definition keepsMarks (d d' : Dom) : Prop :=
  (length (nodes d) <= length (nodes d'))%nat
  /\ body d' = body d
  /\ forall n, (n < length (nodes d))%nat ->
       kind (nodeAt d' n) = kind (nodeAt d n)
       /\ attributes (nodeAt d' n) = attributes (nodeAt d n)
       /\ classList (nodeAt d' n) = classList (nodeAt d n)
       /\ getStyle d' n "opacity" = getStyle d n "opacity".

Lemma keepsMarks_refl (d : Dom) : keepsMarks d d.
Proof. unfold keepsMarks. split; [lia |]. split; [reflexivity |]. tauto. Qed.

Lemma keepsMarks_trans (d1 d2 d3 : Dom) :
  keepsMarks d1 d2 -> keepsMarks d2 d3 -> keepsMarks d1 d3.
Proof.
  intros (L1 & B1 & N1) (L2 & B2 & N2). unfold keepsMarks.
  split; [lia |]. split; [congruence |].
  intros n Hn. destruct (N1 n Hn) as (K1 & A1 & C1 & O1).
  destruct (N2 n ltac:(lia)) as (K2 & A2 & C2 & O2).
  repeat split; congruence.
Qed.

Lemma keepsMarks_setStyle (n : NodeId) (p : string) (v : StyleValue) (d : Dom) :
  p <> "opacity" -> keepsMarks d (setStyle n p v d).
Proof.
  intros Hp. unfold keepsMarks. split; [unfold setStyle; rewrite length_updateNode; lia |].
  split; [reflexivity |]. intros m _.
  rewrite getStyle_setStyle_other by exact Hp. unfold setStyle.
  rewrite (nodeAt_updateNode_proj kind), (nodeAt_updateNode_proj attributes),
    (nodeAt_updateNode_proj classList) by reflexivity.
  tauto.
Qed.

Lemma keepsMarks_clearStyle (n : NodeId) (p : string) (d : Dom) :
  p <> "opacity" -> keepsMarks d (clearStyle n p d).
Proof.
  intros Hp. unfold keepsMarks. split; [unfold clearStyle; rewrite length_updateNode; lia |].
  split; [reflexivity |]. intros m _.
  rewrite getStyle_clearStyle.
  destruct (String.eqb_spec p "opacity"); [contradiction |]. rewrite andb_false_r.
  unfold clearStyle.
  rewrite (nodeAt_updateNode_proj kind), (nodeAt_updateNode_proj attributes),
    (nodeAt_updateNode_proj classList) by reflexivity.
  tauto.
Qed.

Lemma keepsMarks_clonedFrom (d : Dom) (src : NodeId) (p : option NodeId) (r : Dom * NodeId) :
  clonedFrom d src p r -> keepsMarks d (fst r).
Proof.
  intros Hc. pose proof Hc as (_ & Hgrow & _ & Hb & _).
  unfold keepsMarks. split; [lia |]. split; [exact Hb |].
  intros n Hn. unfold getStyle. rewrite (clonedFrom_nodeAt d src p r n Hc Hn). tauto.
Qed.

Lemma keepsMarks_looks (d d' : Dom) :
  length (nodes d') = length (nodes d) ->
  body d' = body d ->
  (forall m, looks (nodeAt d' m) = looks (nodeAt d m)) ->
  (forall m, kind (nodeAt d' m) = kind (nodeAt d m)) ->
  keepsMarks d d'.
Proof.
  intros Hlen Hb Hl Hk. unfold keepsMarks. split; [lia |]. split; [exact Hb |].
  intros n _. specialize (Hl n). unfold looks in Hl. injection Hl as Ha Hc Hs.
  unfold getStyle. rewrite Hk, Ha, Hc, Hs. tauto.
Qed.

Lemma keepsMarks_remove (n : NodeId) (d : Dom) : keepsMarks d (remove n d).
Proof.
  apply keepsMarks_looks.
  - apply remove_length.
  - apply remove_body.
  - intros m. apply remove_looks.
  - intros m. apply remove_kind.
Qed.

Lemma keepsMarks_insertBefore (par node : NodeId) (ref : option NodeId) (d d' : Dom) :
  insertBefore par node ref d = Ret d' -> keepsMarks d d'.
Proof.
  intros H. apply insertBefore_frame in H. destruct H as (Hlen & Hb & _ & Hl & Hk & _).
  now apply keepsMarks_looks.
Qed.

Lemma animateInsertion_frame (element : NodeId) (fromRect toRect : Rect) (duration : JSON)
    (t : Tick) :
  let t' := animateInsertion element fromRect toRect duration t in
  tstate t' = tstate t /\ tnotes t' = tnotes t
  /\ sameTree (tdom t) (tdom t') /\ keepsMarks (tdom t) (tdom t').
Proof.
  unfold animateInsertion.
  destruct (Qeq_bool (rleft fromRect - rleft toRect) 0
            && Qeq_bool (rtop fromRect - rtop toRect) 0).
  - cbn zeta. split; [reflexivity |]. split; [reflexivity |].
    split; [apply sameTree_refl | apply keepsMarks_refl].
  - cbn [tstate tnotes tdom]. split; [reflexivity |]. split; [reflexivity |]. split.
    + eapply sameTree_trans; apply sameTree_setStyle.
    + eapply keepsMarks_trans; [| apply keepsMarks_setStyle; discriminate].
      apply keepsMarks_setStyle; discriminate.
Qed.

Lemma resolveTarget_frame (roots : list NodeId) (event : MouseEvent) (t : Tick) :
  let r := resolveTarget roots event t in
  tstate (fst r) = tstate t /\ tnotes (fst r) = tnotes t
  /\ sameTree (tdom t) (tdom (fst r)) /\ keepsMarks (tdom t) (tdom (fst r)).
Proof.
  unfold resolveTarget. destruct (mirror (tstate t)) as [m|].
  2: { cbn. split; [reflexivity |]. split; [reflexivity |].
       split; [apply sameTree_refl | apply keepsMarks_refl]. }
  set (d1 := setStyle m "top" _ (setStyle m "left" _ (tdom t))).
  set (hidden := setStyle m "display" (SText "none") d1).
  assert (Hs : sameTree (tdom t) hidden).
  { unfold hidden, d1.
    eapply sameTree_trans; [| apply sameTree_setStyle].
    eapply sameTree_trans; apply sameTree_setStyle. }
  assert (Hk : keepsMarks (tdom t) hidden).
  { unfold hidden, d1.
    eapply keepsMarks_trans; [| apply keepsMarks_setStyle; discriminate].
    eapply keepsMarks_trans; [| apply keepsMarks_setStyle; discriminate].
    apply keepsMarks_setStyle; discriminate. }
  assert (Hs' : sameTree (tdom t) (clearStyle m "display" hidden)).
  { eapply sameTree_trans; [exact Hs | apply sameTree_clearStyle]. }
  assert (Hk' : keepsMarks (tdom t) (clearStyle m "display" hidden)).
  { eapply keepsMarks_trans; [exact Hk | apply keepsMarks_clearStyle; discriminate]. }
  destruct (findDropParentLoop hidden roots (clientX event) (clientY event)) as [found|e].
  2: { cbn. tauto. }
  destruct found as [dropParent|]; [| cbn; tauto].
  cbn [tdom withDom tstate].
  destruct (accessGranted _ _ _) as [[|]|e]; cbn; tauto.
Qed.

Lemma resolveTarget_frames (roots : list NodeId) (event : MouseEvent) (t : Tick) :
  tframes (fst (resolveTarget roots event t)) = tframes t.
Proof.
  unfold resolveTarget. destruct (mirror (tstate t)) as [m|]; [| reflexivity].
  destruct (findDropParentLoop _ roots (clientX event) (clientY event)) as [found|e];
    [| reflexivity].
  destruct found as [dropParent|]; [| reflexivity].
  cbn [tdom withDom tstate].
  destruct (accessGranted _ _ _) as [[|]|e]; reflexivity.
Qed.

Definition clonedNotification (state : DragState) (c : NodeId) : Notification :=
  mkNotification (parent state) "cloned" (ClonedDetail (item state) c).

(** Copy reconciliation, case by case. *)
Lemma reconcileCopy_cases (dropParent : NodeId) (t : Tick) :
  let t' := reconcileCopy dropParent t in
  match shouldCreateCopy dropParent (tstate t), copy (tstate t) with
  | true, None =>
      tstate t' = setCopy (Some (length (nodes (tdom t)))) (tstate t)
      /\ tnotes t' = (tnotes t ++ [clonedNotification (tstate t) (length (nodes (tdom t)))])%list
      /\ clonedFrom (tdom t) (item (tstate t)) None
           (tdom t', length (nodes (tdom t)))
  | false, Some c =>
      tstate t' = setCopy None (tstate t)
      /\ tnotes t' = tnotes t
      /\ tdom t' = remove c (tdom t)
  | _, _ => t' = t
  end.
Proof.
  unfold reconcileCopy.
  destruct (shouldCreateCopy dropParent (tstate t)), (copy (tstate t)) as [c|];
    cbn [tstate tnotes tdom dispatchEvent]; try reflexivity; try tauto.
  pose proof (cloneNode_clonedFrom (tdom t) (item (tstate t))) as Hc.
  pose proof Hc as (Hsnd & _). rewrite Hsnd.
  split; [reflexivity |]. split; [reflexivity |].
  rewrite <- Hsnd. now destruct (cloneNode (tdom t) (item (tstate t))).
Qed.

Lemma reconcileCopy_frame (dropParent : NodeId) (t : Tick) :
  let t' := reconcileCopy dropParent t in
  tstate t' = setCopy (copy (tstate t')) (tstate t)
  /\ tframes t' = tframes t
  /\ keepsMarks (tdom t) (tdom t')
  /\ (forall n, (n < length (nodes (tdom t)))%nat -> copy (tstate t) <> Some n ->
        parentNodeOf (tdom t') n = parentNodeOf (tdom t) n).
Proof.
  pose proof (reconcileCopy_cases dropParent t) as H. cbn zeta in *.
  assert (Hid : tstate t = setCopy (copy (tstate t)) (tstate t)) by now destruct (tstate t).
  assert (Hfr : tframes (reconcileCopy dropParent t) = tframes t).
  { unfold reconcileCopy.
    now destruct (shouldCreateCopy dropParent (tstate t)), (copy (tstate t)). }
  split; [| split; [exact Hfr |]].
  - destruct (shouldCreateCopy dropParent (tstate t)), (copy (tstate t)) as [c|] eqn:Hc;
      try (rewrite H; rewrite Hc; exact Hid).
    + destruct H as (-> & _). reflexivity.
    + destruct H as (-> & _). reflexivity.
  - destruct (shouldCreateCopy dropParent (tstate t)), (copy (tstate t)) as [c|] eqn:Hc;
      try (rewrite H; split; [apply keepsMarks_refl | reflexivity]).
    + destruct H as (_ & _ & Hcl). split.
      * exact (keepsMarks_clonedFrom _ _ _ _ Hcl).
      * intros n Hn _. unfold parentNodeOf.
        pose proof (clonedFrom_nodeAt _ _ _ _ n Hcl Hn) as E. cbn [fst] in E.
        now rewrite E.
    + destruct H as (_ & _ & ->). split; [apply keepsMarks_remove |].
      intros n _ Hne. rewrite remove_parent.
      destruct (Nat.eqb_spec n c); [congruence | reflexivity].
Qed.

Lemma placeActive_frame (dropParent : NodeId) (event : MouseEvent) (t : Tick) :
  let r := placeActive dropParent event t in
  tstate (fst r) = tstate t
  /\ keepsMarks (tdom t) (tdom (fst r))
  /\ (forall n, n <> activeElementOf (tstate t) ->
        parentNodeOf (tdom (fst r)) n = parentNodeOf (tdom t) n)
  /\ (tnotes (fst r) = tnotes t
      \/ exists e, tnotes (fst r) = (tnotes t ++ [e])%list /\ eventName e = "move").
Proof.
  unfold placeActive.
  set (active := activeElementOf (tstate t)).
  set (reference := findInsertPosition (tdom t) (mirror (tstate t)) dropParent
                      (options (tstate t)) (clientX event) (clientY event) active).
  assert (Hsame : tstate t = tstate t /\ keepsMarks (tdom t) (tdom t)
                  /\ (forall n, n <> active -> parentNodeOf (tdom t) n = parentNodeOf (tdom t) n)
                  /\ (tnotes t = tnotes t
                      \/ exists e, tnotes t = (tnotes t ++ [e])%list /\ eventName e = "move")).
  { split; [reflexivity |]. split; [apply keepsMarks_refl |]. split; [reflexivity | now left]. }
  match goal with |- context [if ?b then _ else _] => destruct b end; [| exact Hsame].
  destruct (insertBefore dropParent active reference (tdom t)) as [d1|e] eqn:Hins;
    [| exact Hsame].
  pose proof (keepsMarks_insertBefore _ _ _ _ _ Hins) as Hk.
  pose proof (insertBefore_frame _ _ _ _ _ Hins) as (_ & _ & _ & _ & _ & Hpar).
  cbn [fst tstate tdom tnotes dispatchEvent].
  destruct (lookupProp "animation" (options (tstate t))) as [duration|].
  - destruct (truthy duration).
    + pose proof (animateInsertion_frame active
                    (getBoundingClientRect (tdom t) active)
                    (getBoundingClientRect d1 active) duration (withDom d1 t))
        as (Hst & Hno & Hsa & Hkm).
      cbn zeta in *. rewrite Hst, Hno. cbn [withDom tstate tnotes tdom] in *.
      split; [reflexivity |]. split; [eapply keepsMarks_trans; eassumption |].
      split.
      * intros n Hn. rewrite (sameTree_parent _ _ n Hsa). now apply Hpar.
      * right. eexists. split; reflexivity.
    + cbn [withDom tstate tnotes tdom].
      split; [reflexivity |]. split; [exact Hk |]. split; [exact Hpar |].
      right. eexists. split; reflexivity.
  - cbn [withDom tstate tnotes tdom].
    split; [reflexivity |]. split; [exact Hk |]. split; [exact Hpar |].
    right. eexists. split; reflexivity.
Qed.

(** ** Crossing the threshold *)




Lemma hasClass_classList_add (n : NodeId) (c : string) (d : Dom) :
  (n < length (nodes d))%nat -> hasClass (classList_add n c d) n c = true.
Proof.
  intros Hlt. unfold hasClass, classList_add. rewrite nodeAt_updateNode_eq by exact Hlt.
  destruct (existsb (String.eqb c) (classList (nodeAt d n))) eqn:E; [exact E |].
  cbn [classList withClassList]. rewrite existsb_app. cbn. now rewrite String.eqb_refl, orb_true_r.
Qed.

Lemma hasClass_classList_add_mono (n m : NodeId) (c c' : string) (d : Dom) :
  hasClass d m c' = true -> hasClass (classList_add n c d) m c' = true.
Proof.
  unfold hasClass, classList_add. intros H.
  destruct (Nat.eq_dec m n) as [-> | Hne].
  - destruct (Nat.lt_ge_cases n (length (nodes d))) as [Hlt | Hge].
    + rewrite nodeAt_updateNode_eq by exact Hlt.
      destruct (existsb (String.eqb c) (classList (nodeAt d n))); [exact H |].
      cbn [classList withClassList]. rewrite existsb_app. now rewrite H.
    + rewrite nodeAt_outside in H by exact Hge. discriminate.
  - now rewrite nodeAt_updateNode_ne.
Qed.




Lemma setCopy_idem (c c' : option NodeId) (s : DragState) :
  setCopy c (setCopy c' s) = setCopy c s.
Proof. reflexivity. Qed.

Lemma settle_frame (dropParent : NodeId) (event : MouseEvent) (t : Tick) :
  let r := settle dropParent event t in
  tstate (fst r) = setCopy (copy (tstate (fst r))) (tstate t)
  /\ keepsMarks (tdom t) (tdom (fst r))
  /\ (forall n, (n < length (nodes (tdom t)))%nat ->
        n <> item (tstate t) -> copy (tstate t) <> Some n ->
        parentNodeOf (tdom (fst r)) n = parentNodeOf (tdom t) n)
  /\ exists l, tnotes (fst r) = (tnotes (reconcileCopy dropParent t) ++ l)%list
               /\ Forall (fun e => eventName e = "move") l.
Proof.
  unfold settle.
  pose proof (reconcileCopy_frame dropParent t) as (Hst & _ & Hk & Hpar).
  pose proof (reconcileCopy_cases dropParent t) as Hcases.
  cbn zeta in *. set (t2 := reconcileCopy dropParent t) in *.
  destruct (canSortInParent dropParent (tstate t)).
  - pose proof (placeActive_frame dropParent event t2) as (Hst' & Hk' & Hpar' & Hno).
    cbn zeta in *. set (r := placeActive dropParent event t2) in *.
    split; [rewrite Hst'; exact Hst |].
    split; [eapply keepsMarks_trans; eassumption |].
    split.
    + intros n Hn Hitem Hcopy. rewrite Hpar'; [now apply Hpar |].
      unfold activeElementOf. rewrite Hst. cbn [copy setCopy item].
      destruct (copy (tstate t2)) as [c|] eqn:Hc; [| exact Hitem].
      intros ->.
      destruct (shouldCreateCopy dropParent (tstate t)), (copy (tstate t)) as [c0|] eqn:Hc0.
      * rewrite Hcases in Hc. congruence.
      * destruct Hcases as (E & _). rewrite E in Hc. cbn in Hc. injection Hc as <-. lia.
      * destruct Hcases as (E & _). rewrite E in Hc. discriminate.
      * rewrite Hcases in Hc. congruence.
    + destruct Hno as [-> | (e & -> & He)].
      * exists []. split; [now rewrite app_nil_r | constructor].
      * exists [e]. split; [reflexivity | now constructor].
  - cbn [fst]. split; [exact Hst |]. split; [exact Hk |]. split.
    + intros n Hn _ Hcopy. now apply Hpar.
    + exists []. split; [now rewrite app_nil_r | constructor].
Qed.




(** ** Runs of pointer-moves *)

Fixpoint runMoves (this : InstId) (events : list MouseEvent) (w : World) : World :=
  match events with
  | [] => w
  | event :: rest => runMoves this rest (fst (handleMouseMove this event w))
  end.










(** ** Copy reconciliation *)

Definition clonedEvents (l : list Notification) : list Notification :=
  List.filter (fun e => String.eqb (eventName e) "cloned") l.

(** The copies the [cloned] events of a log announce. *)
Definition copiesOf (l : list Notification) : list NodeId :=
  flat_map (fun e => match detail e with ClonedDetail _ c => [c] | _ => [] end)
    (clonedEvents l).

Lemma clonedEvents_app (l1 l2 : list Notification) :
  clonedEvents (l1 ++ l2) = (clonedEvents l1 ++ clonedEvents l2)%list.
Proof. unfold clonedEvents. apply List.filter_app. Qed.

Lemma copiesOf_app (l1 l2 : list Notification) :
  copiesOf (l1 ++ l2) = (copiesOf l1 ++ copiesOf l2)%list.
Proof. unfold copiesOf. now rewrite clonedEvents_app, flat_map_app. Qed.

Lemma clonedEvents_moves (l : list Notification) :
  Forall (fun e => eventName e = "move") l -> clonedEvents l = [].
Proof.
  induction 1 as [|e l He _ IH]; [reflexivity |].
  unfold clonedEvents in *. cbn [List.filter]. now rewrite He.
Qed.

(** The store only grows and the nodes already there keep their parent. *)
Definition keepsParents (d d' : Dom) : Prop :=
  (length (nodes d) <= length (nodes d'))%nat
  /\ forall n, (n < length (nodes d))%nat -> parentNodeOf d' n = parentNodeOf d n.

Lemma keepsParents_refl (d : Dom) : keepsParents d d.
Proof. split; [lia | reflexivity]. Qed.

Lemma keepsParents_trans (d1 d2 d3 : Dom) :
  keepsParents d1 d2 -> keepsParents d2 d3 -> keepsParents d1 d3.
Proof.
  intros (L1 & P1) (L2 & P2). split; [lia |].
  intros n Hn. rewrite P2 by lia. now apply P1.
Qed.

Lemma keepsParents_sameTree (d d' : Dom) : sameTree d d' -> keepsParents d d'.
Proof.
  intros Hs. pose proof Hs as (Hlen & _). split; [lia |].
  intros n _. now apply sameTree_parent.
Qed.

(** The session keeps its source item, source container, options and copy. *)
Definition sameConfig (s s' : DragState) : Prop :=
  item s' = item s /\ parent s' = parent s /\ options s' = options s /\ copy s' = copy s.

Lemma startDrag_frame (t : Tick) :
  let r := startDrag t in
  sameConfig (tstate t) (tstate (fst r))
  /\ keepsParents (tdom t) (tdom (fst r))
  /\ exists l, tnotes (fst r) = (tnotes t ++ l)%list /\ clonedEvents l = [].
Proof.
  unfold startDrag, createMirror. cbn [item setIsDragging].
  pose proof (cloneNode_clonedFrom (tdom t) (item (tstate t))) as Hc.
  pose proof Hc as (Hsnd & Hgrow & _).
  set (cloned := cloneNode (tdom t) (item (tstate t))) in *.
  set (d2 := setCssText (snd cloned) _ (classList_add (snd cloned) _ (fst cloned))).
  assert (Hs2 : sameTree (fst cloned) d2).
  { eapply sameTree_trans; [apply sameTree_classList_add | apply sameTree_setCssText]. }
  assert (Hk2 : keepsParents (tdom t) d2).
  { eapply keepsParents_trans; [| apply keepsParents_sameTree, Hs2].
    split; [lia |]. intros n Hn. unfold parentNodeOf.
    now rewrite (clonedFrom_nodeAt _ _ _ _ n Hc Hn). }
  destruct (insertBefore (body d2) (snd cloned) None d2) as [d3|e] eqn:Hins;
    cbn [obind fst snd tstate tdom tnotes withState dispatchEvent].
  - split; [unfold sameConfig; cbn; tauto |]. split.
    + pose proof (insertBefore_frame _ _ _ _ _ Hins) as (Hlen & _ & _ & _ & _ & Hpar).
      destruct Hk2 as (Hle2 & Hp2).
      assert (Hk3 : keepsParents (tdom t) d3).
      { split; [lia |]. intros n Hn. rewrite Hpar by lia. now apply Hp2. }
      eapply keepsParents_trans; [exact Hk3 |].
      apply keepsParents_sameTree.
      eapply sameTree_trans; [apply sameTree_classList_add | apply sameTree_setStyle].
    + eexists. split; [reflexivity | reflexivity].
  - split; [unfold sameConfig; cbn; tauto |]. split; [apply keepsParents_refl |].
    exists []. split; [now rewrite app_nil_r | reflexivity].
Qed.

Lemma sameConfig_refl (s : DragState) : sameConfig s s.
Proof. unfold sameConfig. tauto. Qed.

Lemma sameConfig_trans (s1 s2 s3 : DragState) :
  sameConfig s1 s2 -> sameConfig s2 s3 -> sameConfig s1 s3.
Proof. unfold sameConfig. intuition congruence. Qed.

Lemma approach_frame (roots : list NodeId) (event : MouseEvent) (t : Tick) :
  let a := approach roots event t in
  sameConfig (tstate t) (tstate (fst a))
  /\ keepsParents (tdom t) (tdom (fst a))
  /\ exists l, tnotes (fst a) = (tnotes t ++ l)%list /\ clonedEvents l = [].
Proof.
  assert (Hres : forall t0,
    sameConfig (tstate t0) (tstate (fst (resolveTarget roots event t0)))
    /\ keepsParents (tdom t0) (tdom (fst (resolveTarget roots event t0)))
    /\ exists l, tnotes (fst (resolveTarget roots event t0)) = (tnotes t0 ++ l)%list
                 /\ clonedEvents l = []).
  { intros t0. pose proof (resolveTarget_frame roots event t0) as (Hst & Hno & Hs & _).
    cbn zeta in *. rewrite Hst, Hno. split; [apply sameConfig_refl |].
    split; [now apply keepsParents_sameTree |].
    exists []. split; [now rewrite app_nil_r | reflexivity]. }
  unfold approach. destruct (negb (isDragging (tstate t))); [| apply Hres].
  destruct (negb (meetsThreshold event (tstate t))).
  - cbn [fst]. split; [apply sameConfig_refl |]. split; [apply keepsParents_refl |].
    exists []. split; [now rewrite app_nil_r | reflexivity].
  - pose proof (startDrag_frame t) as (Hc1 & Hk1 & l1 & Hn1 & Hl1). cbn zeta in *.
    destruct (startDrag t) as [t1 [e|]]; cbn [fst] in *.
    + split; [exact Hc1 |]. split; [exact Hk1 |]. now exists l1.
    + destruct (Hres t1) as (Hc2 & Hk2 & l2 & Hn2 & Hl2).
      split; [eapply sameConfig_trans; eassumption |].
      split; [eapply keepsParents_trans; eassumption |].
      exists (l1 ++ l2)%list. rewrite Hn2, Hn1, <- app_assoc. split; [reflexivity |].
      now rewrite clonedEvents_app, Hl1, Hl2.
Qed.

Lemma settle_state (dropParent : NodeId) (event : MouseEvent) (t : Tick) :
  tstate (fst (settle dropParent event t)) = tstate (reconcileCopy dropParent t).
Proof.
  unfold settle. destruct (canSortInParent dropParent (tstate t)); [| reflexivity].
  apply placeActive_frame.
Qed.

(** What [settle] does to the copy reference and to the log. *)
Lemma settle_copy (dropParent : NodeId) (event : MouseEvent) (t : Tick) :
  let r := settle dropParent event t in
  exists moves,
    Forall (fun e => eventName e = "move") moves
    /\ match shouldCreateCopy dropParent (tstate t), copy (tstate t) with
       | true, None =>
           copy (tstate (fst r)) = Some (length (nodes (tdom t)))
           /\ tnotes (fst r)
              = (tnotes t ++ clonedNotification (tstate t) (length (nodes (tdom t))) :: moves)%list
           /\ (length (nodes (tdom t)) < length (nodes (tdom (fst r))))%nat
       | false, Some c =>
           copy (tstate (fst r)) = None
           /\ tnotes (fst r) = (tnotes t ++ moves)%list
           /\ (c <> item (tstate t) -> parentNodeOf (tdom (fst r)) c = None)
       | _, _ =>
           copy (tstate (fst r)) = copy (tstate t)
           /\ tnotes (fst r) = (tnotes t ++ moves)%list
       end.
Proof.
  cbn zeta. rewrite settle_state.
  pose proof (settle_frame dropParent event t) as (_ & _ & _ & moves & Hno & Hmoves).
  pose proof (reconcileCopy_cases dropParent t) as Hcases.
  cbn zeta in *. exists moves. split; [exact Hmoves |]. rewrite Hno.
  destruct (shouldCreateCopy dropParent (tstate t)) eqn:Hshould,
           (copy (tstate t)) as [c|] eqn:Hc.
  - rewrite Hcases. now rewrite Hc.
  - destruct Hcases as (Est & Eno & Hcl). rewrite Est, Eno. cbn [copy setCopy].
    split; [reflexivity |]. split; [now rewrite <- app_assoc |].
    destruct Hcl as (_ & Hgrow & _). cbn [fst] in Hgrow.
    unfold settle.
    destruct (canSortInParent dropParent (tstate t)); cbn [fst].
    + pose proof (placeActive_frame dropParent event (reconcileCopy dropParent t))
        as (_ & (Hle & _) & _). cbn zeta in Hle. lia.
    + lia.
  - destruct Hcases as (Est & Eno & Edom). rewrite Est, Eno. cbn [copy setCopy].
    split; [reflexivity |]. split; [reflexivity |].
    intros Hne. unfold settle.
    destruct (canSortInParent dropParent (tstate t)); cbn [fst].
    + pose proof (placeActive_frame dropParent event (reconcileCopy dropParent t))
        as (_ & _ & Hpar & _). cbn zeta in Hpar. rewrite Hpar.
      * rewrite Edom, remove_parent. now rewrite Nat.eqb_refl.
      * unfold activeElementOf. rewrite Est. cbn [copy setCopy item]. exact Hne.
    + rewrite Edom, remove_parent. now rewrite Nat.eqb_refl.
  - rewrite Hcases. now rewrite Hc.
Qed.

(** The copies made so far, [cs], are accounted for: each is a node of the
    store other than the source item, and is the session's current copy or
    has left the tree. *)
Definition settledIn (cs : list NodeId) (t : Tick) : Prop :=
  (item (tstate t) < length (nodes (tdom t)))%nat
  /\ (forall c, copy (tstate t) = Some c -> In c cs)
  /\ forall c, In c cs ->
       (c < length (nodes (tdom t)))%nat
       /\ c <> item (tstate t)
       /\ (copy (tstate t) = Some c \/ parentNodeOf (tdom t) c = None).

Lemma copiesOf_moves (l : list Notification) :
  Forall (fun e => eventName e = "move") l -> copiesOf l = [].
Proof. intros H. unfold copiesOf. now rewrite clonedEvents_moves. Qed.

Lemma copiesOf_quiet (l : list Notification) : clonedEvents l = [] -> copiesOf l = [].
Proof. intros H. unfold copiesOf. now rewrite H. Qed.

Lemma settledIn_approach (roots : list NodeId) (event : MouseEvent) (t : Tick)
    (cs : list NodeId) :
  settledIn cs t -> settledIn cs (fst (approach roots event t)).
Proof.
  intros (Hitem & Hcur & Hall).
  pose proof (approach_frame roots event t) as ((Ei & _ & _ & Ec) & (Hle & Hpar) & _).
  cbn zeta in *. unfold settledIn. rewrite Ei, Ec.
  split; [lia |]. split; [exact Hcur |].
  intros c Hc. destruct (Hall c Hc) as (Hlt & Hne & Hor).
  split; [lia |]. split; [exact Hne |].
  destruct Hor as [H | H]; [now left | right]. now rewrite Hpar.
Qed.

Lemma settledIn_settle (dropParent : NodeId) (event : MouseEvent) (t : Tick)
    (cs : list NodeId) :
  settledIn cs t ->
  exists added,
    tnotes (fst (settle dropParent event t)) = (tnotes t ++ added)%list
    /\ settledIn (cs ++ copiesOf added) (fst (settle dropParent event t)).
Proof.
  intros (Hitem & Hcur & Hall).
  pose proof (settle_frame dropParent event t) as (Hst & (Hle & _) & Hpar & _).
  pose proof (settle_copy dropParent event t) as (moves & Hmoves & Hcopy).
  cbn zeta in *. set (r := settle dropParent event t) in *.
  assert (Eitem : item (tstate (fst r)) = item (tstate t)) by now rewrite Hst.
  pose proof (copiesOf_moves moves Hmoves) as Emoves.
  assert (Hold : forall c, In c cs -> copy (tstate t) <> Some c ->
                   parentNodeOf (tdom (fst r)) c = None).
  { intros c Hc Hne. destruct (Hall c Hc) as (Hlt & Hni & [H | H]); [contradiction |].
    rewrite Hpar; [exact H | exact Hlt | exact Hni | exact Hne]. }
  destruct (shouldCreateCopy dropParent (tstate t)), (copy (tstate t)) as [c0|] eqn:Hc0.
  - destruct Hcopy as (Ecopy & Eno). exists moves. split; [exact Eno |].
    rewrite Emoves, app_nil_r. unfold settledIn. rewrite Eitem, Ecopy.
    split; [lia |]. split; [exact Hcur |].
    intros c Hc. destruct (Hall c Hc) as (Hlt & Hni & _).
    split; [lia |]. split; [exact Hni |].
    destruct (Nat.eq_dec c c0) as [-> | Hne]; [now left | right].
    apply Hold; [exact Hc | congruence].
  - destruct Hcopy as (Ecopy & Eno & Hgrow). eexists. split; [exact Eno |].
    unfold copiesOf at 1. cbn [clonedEvents List.filter clonedNotification eventName].
    replace (String.eqb "cloned" "cloned") with true by reflexivity.
    cbn [flat_map detail]. fold (clonedEvents moves). fold (copiesOf moves).
    rewrite Emoves. cbn [app].
    unfold settledIn. rewrite Eitem, Ecopy.
    split; [lia |]. split; [intros c [= <-]; apply in_app_iff; right; now left |].
    intros c Hc. apply in_app_iff in Hc. destruct Hc as [Hc | [<- | []]].
    + destruct (Hall c Hc) as (Hlt & Hni & _).
      split; [lia |]. split; [exact Hni |]. right. apply Hold; [exact Hc | discriminate].
    + split; [lia |]. split; [lia |]. now left.
  - destruct Hcopy as (Ecopy & Eno & Hgone). exists moves. split; [exact Eno |].
    rewrite Emoves, app_nil_r. unfold settledIn. rewrite Eitem, Ecopy.
    split; [lia |]. split; [discriminate |].
    intros c Hc. destruct (Hall c Hc) as (Hlt & Hni & _).
    split; [lia |]. split; [exact Hni |]. right.
    destruct (Nat.eq_dec c c0) as [-> | Hne]; [now apply Hgone |].
    apply Hold; [exact Hc | congruence].
  - destruct Hcopy as (Ecopy & Eno). exists moves. split; [exact Eno |].
    rewrite Emoves, app_nil_r. unfold settledIn. rewrite Eitem, Ecopy.
    split; [lia |]. split; [discriminate |].
    intros c Hc. destruct (Hall c Hc) as (Hlt & Hni & _).
    split; [lia |]. split; [exact Hni |]. right. apply Hold; [exact Hc | discriminate].
Qed.

Lemma settledIn_moveBody (roots : list NodeId) (event : MouseEvent) (t : Tick)
    (cs : list NodeId) :
  settledIn cs t ->
  exists added,
    tnotes (fst (moveBody roots event t)) = (tnotes t ++ added)%list
    /\ settledIn (cs ++ copiesOf added) (fst (moveBody roots event t)).
Proof.
  intros Hs. pose proof (settledIn_approach roots event t cs Hs) as Ha.
  pose proof (approach_frame roots event t) as (_ & _ & l0 & Hn0 & Hq0).
  cbn zeta in *. unfold moveBody.
  destruct (approach roots event t) as [t1 target]. cbn [fst] in *.
  assert (Hquiet : exists added,
            tnotes t1 = (tnotes t ++ added)%list /\ settledIn (cs ++ copiesOf added) t1).
  { exists l0. split; [exact Hn0 |]. now rewrite (copiesOf_quiet l0 Hq0), app_nil_r. }
  destruct target as [[dropParent|]|e]; [| exact Hquiet | exact Hquiet].
  destruct (settledIn_settle dropParent event t1 cs Ha) as (added & Hn1 & Hs1).
  exists (l0 ++ added)%list. rewrite Hn1, Hn0, <- app_assoc. split; [reflexivity |].
  now rewrite copiesOf_app, (copiesOf_quiet l0 Hq0).
Qed.

Definition tickOf (w : World) (state : DragState) : Tick :=
  mkTick (dom w) state (notifications w) (frameRequests w).









(** ** Teardown *)

(** C8, as the code runs: [destroy] never touches the document or the event
    log, whoever owns the session; a mirror or a copy in the document stays
    there. *)
Theorem destroy_keeps_document (this : InstId) (w : World) :
  dom (destroy this w) = dom w
  /\ notifications (destroy this w) = notifications w
  /\ ~ In this (mousedownListeners (destroy this w))
  /\ ~ In this (instances (destroy this w)).
Proof.
  unfold destroy.
  destruct (refEqb (dragState (instanceAt w this)) (globalDragState w));
    cbn [dom notifications mousedownListeners instances];
    repeat split; try reflexivity; apply setDelete_notin.
Qed.

(** ** Adoption and the item options *)























(** * Further properties of the engine

    ** Configuration *)

Lemma lookupProp_setProp (k k' : string) (v : JSON) (props : list (string * JSON)) :
  lookupProp k' (setProp k v props)
  = if String.eqb k k' then Some v else lookupProp k' props.
Proof.
  induction props as [|[k0 v0] props IH]; cbn [setProp lookupProp].
  - rewrite (String.eqb_sym k' k). reflexivity.
  - destruct (String.eqb k k0) eqn:E0; cbn [lookupProp].
    + apply String.eqb_eq in E0. subst k0.
      rewrite (String.eqb_sym k' k). destruct (String.eqb k k'); reflexivity.
    + destruct (String.eqb k' k0) eqn:E1.
      * apply String.eqb_eq in E1. subst k0. now rewrite E0.
      * exact IH.
Qed.

Lemma lookupProp_app (k : string) (l1 l2 : list (string * JSON)) :
  lookupProp k (l1 ++ l2)
  = match lookupProp k l1 with
    | Some v => Some v
    | None => lookupProp k l2
    end.
Proof.
  induction l1 as [|[k0 v0] l1 IH]; [reflexivity |].
  cbn [app lookupProp]. destruct (String.eqb k k0); [reflexivity | exact IH].
Qed.

Lemma lookupProp_In (k : string) (v : JSON) (l : list (string * JSON)) :
  lookupProp k l = Some v -> In (k, v) l.
Proof.
  induction l as [|[k0 v0] l IH]; [discriminate |].
  cbn [lookupProp]. destruct (String.eqb k k0) eqn:E.
  - apply String.eqb_eq in E. subst k0. intros [= ->]. now left.
  - intros H. right. now apply IH.
Qed.

(** A later property of the spread value overrides an earlier one and the
    base; a key the spread value lacks keeps the base's value. *)
Lemma spread_lookup (over : JSON) (k : string) (base : list (string * JSON)) :
  lookupProp k (spread base over)
  = match lookupProp k (rev (ownProps over)) with
    | Some v => Some v
    | None => lookupProp k base
    end.
Proof.
  unfold spread. revert base.
  induction (ownProps over) as [|[k0 v0] entries IH]; intros base; [reflexivity |].
  cbn [fold_left fst snd rev]. rewrite IH, lookupProp_app, lookupProp_setProp.
  destruct (lookupProp k (rev entries)); [reflexivity |].
  cbn [lookupProp]. rewrite (String.eqb_sym k k0).
  destruct (String.eqb k0 k); reflexivity.
Qed.

(** X1. Whatever the [data-drag] attribute holds, the configuration
    [parseOptions] returns defines each of the five options; and an option
    differs from its default only when the attribute is present, is neither
    empty nor [true], is accepted by [JSON.parse] and the parsed value has
    that key, whose value is then the option's. *)
Theorem parseOptions_keeps_defaults (d : Dom) (element : NodeId) (k : string) :
  (lookupProp k defaults <> None -> lookupProp k (parseOptions d element) <> None)
  /\ (lookupProp k (parseOptions d element) <> lookupProp k defaults ->
      exists attr parsed v,
        getAttribute d element "data-drag" = Some attr
        /\ attr <> EmptyString /\ attr <> "true"
        /\ JSON_parse (replaceAll squote dquote attr) = Some parsed
        /\ In (k, v) (ownProps parsed)
        /\ lookupProp k (parseOptions d element) = Some v).
Proof.
  unfold parseOptions.
  destruct (getAttribute d element "data-drag") as [attr|]; [| split; [tauto | congruence]].
  destruct (String.eqb attr EmptyString) eqn:E1; [split; [tauto | cbn; congruence] |].
  destruct (String.eqb attr "true") eqn:E2; [split; [tauto | cbn; congruence] |].
  cbn [orb].
  destruct (JSON_parse (replaceAll squote dquote attr)) as [parsed|] eqn:P;
    [| split; [tauto | congruence]].
  rewrite spread_lookup.
  destruct (lookupProp k (rev (ownProps parsed))) as [v|] eqn:L.
  - split; [discriminate |]. intros _.
    exists attr, parsed, v. split; [reflexivity |].
    split; [now apply String.eqb_neq |]. split; [now apply String.eqb_neq |].
    split; [exact P |]. split; [| reflexivity].
    apply lookupProp_In in L. now apply in_rev.
  - split; [tauto | congruence].
Qed.

(** ** The access evaluator *)

Lemma orElse_absent (a : option JSON) (b : JSON) : truthyOpt a = false -> orElse a b = b.
Proof. destruct a as [x|]; cbn; [intros -> |]; reflexivity. Qed.

(** X2. Access rules that state neither an allow nor a deny set admit every
    item from every source, whatever their order. *)
Theorem newAccess_admits_all (d : Dom) (config : JSON) (it : NodeId)
    (sourceParent : option NodeId) :
  truthyOpt (getProp config "allow") = false ->
  truthyOpt (getProp config "deny") = false ->
  canAccept d (newAccess config) it sourceParent = Ret true.
Proof.
  intros Ha Hd. unfold newAccess. rewrite (orElse_absent _ _ Ha), (orElse_absent _ _ Hd).
  destruct sourceParent as [source|]; [| reflexivity].
  unfold canAccept. cbn [allow deny order matches includesWildcard existsb isStr obind].
  replace (String.eqb "*" "*") with true by reflexivity. cbn [orb].
  destruct (isStrOpt "deny" _); reflexivity.
Qed.

(** X3. An allow set that is present but empty admits no item that has a
    source container: the wildcard default applies only to an absent set. *)
Theorem newAccess_empty_allow (d : Dom) (config : JSON) (it source : NodeId) :
  getProp config "allow" = Some (JArr []) ->
  canAccept d (newAccess config) it (Some source) <> Ret true.
Proof.
  intros Ha. unfold newAccess. rewrite Ha. cbn [orElse truthy].
  unfold canAccept. cbn [allow deny order].
  replace (matches d source (JArr [])) with (@Ret bool false) by reflexivity.
  cbn [obind].
  destruct (matches d source _) as [dn|e]; cbn [obind]; [| discriminate].
  destruct (isStrOpt "deny" _), dn; discriminate.
Qed.

(** X4. A pattern the selector engine rejects is skipped: the set matches
    as it does without that pattern. *)
Theorem matches_skips_invalid (d : Dom) (element : NodeId) (ps1 ps2 : list string)
    (bad : string) :
  elementMatches d element bad = None ->
  bad <> "*" ->
  matches d element (patterns (ps1 ++ bad :: ps2)) = matches d element (patterns (ps1 ++ ps2)).
Proof.
  intros Hbad Hstar. unfold matches, patterns, includesWildcard. cbn [obind].
  rewrite !map_app. cbn [map]. rewrite !existsb_app. cbn [existsb isStr].
  assert (E : String.eqb "*" bad = false).
  { apply String.eqb_neq. congruence. }
  rewrite E. cbn [orb].
  unfold matchesPattern at 2. cbn [toString]. rewrite Hbad. reflexivity.
Qed.


(** ** Pointer-down *)

(** The node is skipped by [findInPath]: it is no element, or it is one the
    selector does not match. *)
Definition passedOver (d : Dom) (selector : string) (n : NodeId) : Prop :=
  isElement d n = false \/ elementMatches d n selector = Some false.

(** X5. [findInPath] returns the first element of the composed path the
    selector matches, having passed over nodes that are no elements; it
    returns none when the path holds no such element, and the selector
    engine's error surfaces only at an element reached before any match. *)
Theorem findInPath_first (d : Dom) (event : MouseEvent) (selector : string) :
  match findInPath d event selector with
  | Ret (Some e) =>
      exists before rest,
        composedPath event = (before ++ e :: rest)%list
        /\ isElement d e = true /\ elementMatches d e selector = Some true
        /\ Forall (passedOver d selector) before
  | Ret None => Forall (passedOver d selector) (composedPath event)
  | Throw err =>
      err = SyntaxError selector
      /\ exists before e rest,
           composedPath event = (before ++ e :: rest)%list
           /\ isElement d e = true /\ elementMatches d e selector = None
           /\ Forall (passedOver d selector) before
  end.
Proof.
  unfold findInPath. induction (composedPath event) as [|n path IH]; cbn [findInPathLoop].
  - constructor.
  - destruct (isElement d n) eqn:En.
    + destruct (elementMatches d n selector) as [[|]|] eqn:Em.
      * exists [], path. repeat split; [exact En | exact Em | constructor].
      * assert (Hn : passedOver d selector n) by now right.
        destruct (findInPathLoop d path selector) as [[e|]|err].
        -- destruct IH as (before & rest & -> & He & Hm & Hb).
           exists (n :: before), rest. repeat split; [exact He | exact Hm | now constructor].
        -- now constructor.
        -- destruct IH as (-> & before & e & rest & -> & He & Hm & Hb).
           split; [reflexivity |].
           exists (n :: before), e, rest. repeat split; [exact He | exact Hm | now constructor].
      * split; [reflexivity |].
        exists [], n, path. repeat split; [exact En | exact Em | constructor].
    + assert (Hn : passedOver d selector n) by now left.
      destruct (findInPathLoop d path selector) as [[e|]|err].
      * destruct IH as (before & rest & -> & He & Hm & Hb).
        exists (n :: before), rest. repeat split; [exact He | exact Hm | now constructor].
      * now constructor.
      * destruct IH as (-> & before & e & rest & -> & He & Hm & Hb).
        split; [reflexivity |].
        exists (n :: before), e, rest. repeat split; [exact He | exact Hm | now constructor].
Qed.

(** The drag state object a pointer-down creates. *)
Definition pressedState (this : InstId) (event : MouseEvent) (d : Dom) (it par : NodeId)
  : DragState :=
  mkDragState it par (parseOptions d it)
    (clientX event - rleft (getBoundingClientRect d it))
    (clientY event - rtop (getBoundingClientRect d it))
    (clientX event) (clientY event) None None false this.

(** The world a pointer-down leaves when it starts a session. *)
Definition pressedWorld (this : InstId) (w : World) (state : DragState) : World :=
  mkWorld (dom w)
    (setInstanceState this (Some (length (stateStore w))) (instanceStore w))
    (instances w) (stateStore w ++ [state]) (Some (length (stateStore w)))
    (mousedownListeners w) (setAdd this (mousemoveListeners w))
    (setAdd this (mouseupListeners w)) (notifications w) (frameRequests w).

Lemma handleMouseDown_inversion (this : InstId) (event : MouseEvent) (w : World) :
  fst (handleMouseDown this event w) = w
  \/ exists it par,
       button event = 0%Z
       /\ globalDragState w = None
       /\ findInPath (dom w) event "[data-drag]" = Ret (Some it)
       /\ clickedHandle (dom w) event (parseOptions (dom w) it) = Ret true
       /\ findInPath (dom w) event "[data-drag-parent]" = Ret (Some par)
       /\ handleMouseDown this event w
          = (pressedWorld this w (pressedState this event (dom w) it par), None).
Proof.
  unfold handleMouseDown.
  destruct (button event =? 0)%Z eqn:B; cbn [negb]; [| now left].
  destruct (globalDragState w) eqn:G; [now left |].
  destruct (findInPath (dom w) event "[data-drag]") as [[it|]|e] eqn:Fi; try (now left).
  destruct (clickedHandle (dom w) event (parseOptions (dom w) it)) as [[|]|e] eqn:Ch;
    try (now left).
  destruct (findInPath (dom w) event "[data-drag-parent]") as [[par|]|e] eqn:Fp;
    try (now left).
  right. exists it, par. apply Z.eqb_eq in B. repeat split; try assumption; reflexivity.
Qed.

(** X6. A session starts only from a press of the primary button while no
    session exists, on a path that holds a draggable item and a container;
    if the item's options name a handle, some element of the path matches
    it.  The session records the first such item and container, the item's
    options, the press position and its offset from the item's corner. *)
Theorem handleMouseDown_requires (this : InstId) (event : MouseEvent) (w : World) :
  globalDragState (fst (handleMouseDown this event w)) <> globalDragState w ->
  exists it par,
    button event = 0%Z
    /\ globalDragState w = None
    /\ findInPath (dom w) event "[data-drag]" = Ret (Some it)
    /\ findInPath (dom w) event "[data-drag-parent]" = Ret (Some par)
    /\ (forall h, lookupProp "handle" (parseOptions (dom w) it) = Some h -> h <> JNull ->
          exists e, findInPath (dom w) event (toString h) = Ret (Some e))
    /\ handleMouseDown this event w
       = (pressedWorld this w (pressedState this event (dom w) it par), None).
Proof.
  intros Hne.
  destruct (handleMouseDown_inversion this event w)
    as [E | (it & par & B & G & Fi & Ch & Fp & E)]; [now rewrite E in Hne |].
  exists it, par. repeat split; try assumption.
  intros h Hh Hnull. unfold clickedHandle in Ch. rewrite Hh in Ch.
  destruct h; [now elim Hnull | ..].
  all: destruct (findInPath (dom w) event (toString _)) as [[e|]|err] eqn:F;
    cbn [obind] in Ch; [now exists e | discriminate | discriminate].
Qed.

Lemma setDelete_setAdd (i : nat) (l : list nat) : ~ In i l -> setDelete i (setAdd i l) = l.
Proof.
  intros Hn. unfold setAdd, setDelete.
  assert (Hfilter : forall l', ~ In i l' -> List.filter (fun j => negb (Nat.eqb j i)) l' = l').
  { induction l' as [|a l' IH]; [reflexivity |]. cbn [List.filter In]. intros H.
    destruct (Nat.eqb a i) eqn:E.
    - apply Nat.eqb_eq in E. subst a. exfalso. apply H. now left.
    - cbn [negb]. f_equal. apply IH. tauto. }
  destruct (existsb (Nat.eqb i) l) eqn:E.
  - apply existsb_exists in E. destruct E as (j & Hin & Hj).
    apply Nat.eqb_eq in Hj. subst j. contradiction.
  - rewrite List.filter_app, (Hfilter l Hn). cbn [List.filter].
    rewrite Nat.eqb_refl. cbn [negb]. apply app_nil_r.
Qed.







(** ** The registry, the listeners and the event log *)


Lemma setDelete_idem (i : nat) (l : list nat) : setDelete i (setDelete i l) = setDelete i l.
Proof.
  unfold setDelete. induction l as [|a l IH]; [reflexivity |].
  cbn [List.filter]. destruct (negb (Nat.eqb a i)) eqn:E; [| exact IH].
  cbn [List.filter]. rewrite E. now f_equal.
Qed.

Lemma setDelete_absent (i : nat) (l : list nat) : ~ In i l -> setDelete i l = l.
Proof.
  unfold setDelete. induction l as [|a l IH]; [reflexivity |].
  cbn [List.filter In]. intros H. destruct (Nat.eqb_spec a i) as [-> | Hne].
  - exfalso. apply H. now left.
  - cbn [negb]. f_equal. apply IH. tauto.
Qed.

Lemma setInstanceState_idem (this : InstId) (r : option StateRef) (store : list Instance) :
  setInstanceState this r (setInstanceState this r store) = setInstanceState this r store.
Proof.
  unfold setInstanceState. apply list_eq. intros i.
  destruct (Nat.eq_dec i this) as [-> | Hne].
  - rewrite !list_lookup_alter_eq. now destruct (store !! this).
  - rewrite !list_lookup_alter_ne by congruence. reflexivity.
Qed.

(** X9. Teardown is idempotent: destroying an orchestrator a second time
    changes nothing. *)
Theorem destroy_idempotent (d : Dom) (w : World) (this : InstId) :
  reachable d w -> destroy this (destroy this w) = destroy this w.
Proof.
  intros Hr. apply sessionInvariant_reachable in Hr. destruct Hr as (_ & owner & Howned).
  pose proof (destroy_test w owner this Howned) as Htest.
  assert (Hcleared : forall store, dragState
            (match setInstanceState this None store !! this with
             | Some x => x
             | None => blankInstance
             end) = None) by apply setInstanceState_cleared.
  pose proof (eq_refl (destroy this w)) as Hin. unfold destroy at 2 in Hin.
  rewrite Htest in Hin.
  assert (Hsession : forall o, owner = Some o -> exists ref, globalDragState w = Some ref).
  { intros o ->. destruct Howned as (Hnone & _).
    destruct (globalDragState w) as [ref|]; [now exists ref |].
    destruct Hnone as [_ Hn]. discriminate (Hn eq_refl). }
  assert (Hgo : forall b : bool,
            (b = false -> exists ref, globalDragState w = Some ref) ->
            destroy this w
            = (if b then
                 mkWorld (dom w) (setInstanceState this None (instanceStore w))
                   (setDelete this (instances w)) (stateStore w) None
                   (setDelete this (mousedownListeners w))
                   (setDelete this (mousemoveListeners w))
                   (setDelete this (mouseupListeners w))
                   (notifications w) (frameRequests w)
               else
                 mkWorld (dom w) (setInstanceState this None (instanceStore w))
                   (setDelete this (instances w)) (stateStore w) (globalDragState w)
                   (setDelete this (mousedownListeners w))
                   (mousemoveListeners w) (mouseupListeners w)
                   (notifications w) (frameRequests w)) ->
            destroy this (destroy this w) = destroy this w).
  { intros b Hb E. rewrite E. destruct b.
    - unfold destroy, instanceAt.
      cbn [instanceStore globalDragState dom instances stateStore mousedownListeners
           mousemoveListeners mouseupListeners notifications frameRequests].
      rewrite Hcleared. cbn [refEqb optEqb].
      now rewrite setInstanceState_idem, !setDelete_idem.
    - destruct (Hb eq_refl) as (ref & G). unfold destroy, instanceAt.
      cbn [instanceStore globalDragState dom instances stateStore mousedownListeners
           mousemoveListeners mouseupListeners notifications frameRequests].
      rewrite Hcleared, G. cbn [refEqb optEqb].
      now rewrite setInstanceState_idem, !setDelete_idem. }
  destruct owner as [o|].
  - apply (Hgo (Nat.eqb this o)); [intros _; now apply (Hsession o) | exact Hin].
  - apply (Hgo true); [discriminate | exact Hin].
Qed.

(** Every registered orchestrator is one that was constructed. *)
Lemma registry_inStore (d : Dom) (w : World) :
  reachable d w -> forall i, In i (instances w) -> (i < length (instanceStore w))%nat.
Proof.
  induction 1 as [|w w' Hr IH Hstep]; [intros i [] |].
  destruct Hstep as [w rt | w this | w this event Hin | w this event Hin | w this Hin
                    | w | w d'].
  - cbn [newDataDrag fst instances instanceStore]. intros i Hi.
    rewrite length_app. cbn [length]. apply setAdd_In in Hi.
    destruct Hi as [Hi | ->]; [apply IH in Hi |]; lia.
  - intros i Hi.
    assert (E : instances (destroy this w) = setDelete this (instances w)
                /\ instanceStore (destroy this w)
                   = setInstanceState this None (instanceStore w)).
    { unfold destroy. destruct (refEqb _ _); split; reflexivity. }
    destruct E as (E1 & E2). rewrite E1 in Hi. rewrite E2, setInstanceState_length.
    apply setDelete_In in Hi. now apply IH.
  - destruct (handleMouseDown_cases this event w) as [-> | (_ & state & -> & _)];
      [exact IH |].
    cbn [instances instanceStore]. intros i Hi. rewrite setInstanceState_length.
    now apply IH.
  - destruct (handleMouseMove_frame this event w) as (E1 & E2 & _).
    intros i Hi. rewrite E1. apply IH. now rewrite <- E2.
  - destruct (handleMouseUp_cases this w) as [-> | (d0 & notes & frames & ->)];
      [exact IH |].
    cbn [instances instanceStore]. intros i Hi. rewrite setInstanceState_length.
    now apply IH.
  - unfold nextFrame. destruct (frameRequests w); exact IH.
  - exact IH.
Qed.

(** X10. Constructing an orchestrator and destroying it again gives back
    the registry, every listener list and the session reference as they
    were, and touches neither the document nor the event log: a session
    another orchestrator owns goes on. *)
Theorem construct_destroy (d : Dom) (w : World) (rt : NodeId) :
  reachable d w ->
  let w' := destroy (snd (newDataDrag rt w)) (fst (newDataDrag rt w)) in
  instances w' = instances w
  /\ mousedownListeners w' = mousedownListeners w
  /\ mousemoveListeners w' = mousemoveListeners w
  /\ mouseupListeners w' = mouseupListeners w
  /\ globalDragState w' = globalDragState w
  /\ stateStore w' = stateStore w
  /\ dom w' = dom w /\ notifications w' = notifications w.
Proof.
  intros Hr. pose proof (registry_inStore d w Hr) as Hreg.
  apply sessionInvariant_reachable in Hr.
  destruct Hr as (Hdown & owner & _ & Hrange & _ & Hmove & Hup).
  set (this := length (instanceStore w)).
  assert (Hfresh : forall l, (forall i, In i l -> (i < this)%nat) -> ~ In this l).
  { intros l Hl Hin. apply Hl in Hin. lia. }
  assert (Howner : forall l, l = refsOf owner -> ~ In this l).
  { intros l ->. apply Hfresh. intros i Hi. apply refsOf_In_singleton in Hi.
    now apply Hrange. }
  cbn zeta. cbn [newDataDrag fst snd]. fold this. unfold destroy, instanceAt.
  cbn [instanceStore globalDragState dom instances stateStore mousedownListeners
       mousemoveListeners mouseupListeners notifications frameRequests].
  rewrite lookup_app_r by (unfold this; lia).
  replace (this - length (instanceStore w))%nat with 0%nat by (unfold this; lia).
  cbn [lookup list_lookup dragState].
  destruct (globalDragState w) as [ref|]; cbn [refEqb optEqb];
    cbn [instanceStore globalDragState dom instances stateStore mousedownListeners
         mousemoveListeners mouseupListeners notifications frameRequests];
    rewrite !setDelete_setAdd by (apply Hfresh; assumption);
    rewrite ?(setDelete_absent this (mousemoveListeners w)) by (now apply Howner);
    rewrite ?(setDelete_absent this (mouseupListeners w)) by (now apply Howner);
    repeat split; reflexivity.
Qed.





(** ** The mirror *)

Lemma insertAt_None (n : NodeId) (kids : list NodeId) :
  insertAt None n kids = (kids ++ [n])%list.
Proof. now destruct kids. Qed.

(** X12. [createMirror] never fails on a document whose links stay inside
    it.  The mirror is a fresh node, appended as the last child of the body;
    it has the attributes of the element, its classes and the mirror class,
    and as its whole inline style the fixed box of the element's bounding
    rectangle.  No node of the document other than the body changes, and the
    body only gains the child. *)
Theorem createMirror_spec (d : Dom) (element : NodeId) :
  refsInStore d ->
  exists d',
    createMirror d element = Ret (d', length (nodes d))
    /\ parentNodeOf d' (length (nodes d)) = Some (body d)
    /\ childNodes (nodeAt d' (body d))
       = (childNodes (nodeAt d (body d)) ++ [length (nodes d)])%list
    /\ looks (nodeAt d' (body d)) = looks (nodeAt d (body d))
    /\ style (nodeAt d' (length (nodes d))) = mirrorStyle (getBoundingClientRect d element)
    /\ attributes (nodeAt d' (length (nodes d))) = attributes (nodeAt d element)
    /\ hasClass d' (length (nodes d)) "data-drag-mirror" = true
    /\ (forall c, hasClass d element c = true -> hasClass d' (length (nodes d)) c = true)
    /\ forall n, (n < length (nodes d))%nat -> n <> body d -> nodeAt d' n = nodeAt d n.
Proof.
  intros Hrefs. destruct (refsInStore_closedBelow _ Hrefs) as [Hclosed Hbody].
  set (N := length (nodes d)) in *.
  pose proof (cloneNode_clonedFrom d element) as Hc.
  pose proof Hc as (Hsnd & Hgrow & Hkeep & Hb & Hdoc & Hlooks & Hpar & Hkind).
  set (cloned := cloneNode d element) in *. fold N in Hsnd, Hgrow, Hkeep, Hlooks, Hpar.
  set (d1 := classList_add N "data-drag-mirror" (fst cloned)).
  set (d2 := setCssText N (mirrorStyle (getBoundingClientRect d element)) d1).
  assert (Hlen1 : length (nodes d1) = length (nodes (fst cloned))).
  { unfold d1, classList_add. now rewrite length_updateNode. }
  assert (Hs2 : sameTree (fst cloned) d2).
  { eapply sameTree_trans; [apply sameTree_classList_add | apply sameTree_setCssText]. }
  assert (Hbody2 : body d2 = body d) by (destruct Hs2 as (_ & -> & _); exact Hb).
  assert (Hold : forall n, (n < N)%nat -> nodeAt d2 n = nodeAt d n).
  { intros n Hn. unfold d2, d1, setCssText, classList_add.
    rewrite !nodeAt_updateNode_ne by lia. exact (clonedFrom_nodeAt _ _ _ _ n Hc Hn). }
  assert (Hclosed2 : closedBelow N d2).
  { intros n Hn. rewrite (Hold n Hn). now apply Hclosed. }
  assert (Hanc : isInclusiveAncestor d2 N (body d2) = false).
  { unfold isInclusiveAncestor. apply (isAncestorLoop_fresh N); [exact Hclosed2 | lia |].
    now rewrite Hbody2. }
  assert (Hpar2 : parentNodeOf d2 N = None).
  { rewrite (sameTree_parent _ _ N Hs2). exact Hpar. }
  assert (Hmirror : nodeAt d2 N
            = withStyle (mirrorStyle (getBoundingClientRect d element)) (nodeAt d1 N)).
  { unfold d2, setCssText. apply nodeAt_updateNode_eq. lia. }
  unfold createMirror. fold cloned. rewrite Hsnd. fold d1. fold d2.
  unfold insertBefore. rewrite Hanc. cbn [optEqb negb obind]. unfold remove. rewrite Hpar2.
  rewrite Hbody2.
  set (d3 := updateNode (fun x => withChildren (insertAt None N (childNodes x)) x) (body d) d2).
  assert (Hlen2 : length (nodes d2) = length (nodes (fst cloned))).
  { unfold d2, setCssText. now rewrite length_updateNode. }
  assert (HN3 : nodeAt d3 N = nodeAt d2 N).
  { unfold d3. apply nodeAt_updateNode_ne. lia. }
  eexists. split; [reflexivity |].
  split. { unfold parentNodeOf. rewrite nodeAt_updateNode_eq; [reflexivity |].
           unfold d3. rewrite length_updateNode. lia. }
  split. { rewrite nodeAt_updateNode_ne by lia. unfold d3.
           rewrite nodeAt_updateNode_eq by lia. cbn [withChildren childNodes].
           now rewrite insertAt_None, (Hold _ Hbody). }
  split. { rewrite (nodeAt_updateNode_proj looks) by reflexivity. unfold d3.
           rewrite (nodeAt_updateNode_proj looks) by reflexivity.
           now rewrite (Hold _ Hbody). }
  assert (Hlooks1 : attributes (nodeAt d1 N) = attributes (nodeAt d element)
                    /\ hasClass d1 N "data-drag-mirror" = true
                    /\ forall c, hasClass d element c = true -> hasClass d1 N c = true).
  { unfold looks in Hlooks. injection Hlooks as Ha Hcl _.
    split. { unfold d1, classList_add.
             rewrite (nodeAt_updateNode_proj attributes); [exact Ha |].
             intros x. now destruct (existsb _ _). }
    split. { apply hasClass_classList_add. lia. }
    intros c Hcls. apply hasClass_classList_add_mono. unfold hasClass. now rewrite Hcl. }
  destruct Hlooks1 as (Ha1 & Hm1 & Hc1).
  split. { rewrite (nodeAt_updateNode_proj style) by reflexivity. now rewrite HN3, Hmirror. }
  split. { rewrite (nodeAt_updateNode_proj attributes) by reflexivity.
           now rewrite HN3, Hmirror. }
  split. { unfold hasClass. rewrite (nodeAt_updateNode_proj classList) by reflexivity.
           rewrite HN3, Hmirror. exact Hm1. }
  split. { intros c Hcls. unfold hasClass.
           rewrite (nodeAt_updateNode_proj classList) by reflexivity.
           rewrite HN3, Hmirror. now apply Hc1. }
  intros n Hn Hne. rewrite nodeAt_updateNode_ne by lia. unfold d3.
  rewrite nodeAt_updateNode_ne by exact Hne. now apply Hold.
Qed.


(** ** Animation *)


(** ** Marking and cleaning *)

Lemma updateNode_updateNode (f g : Node -> Node) (n : NodeId) (d : Dom) :
  updateNode f n (updateNode g n d) = updateNode (fun x => f (g x)) n d.
Proof.
  unfold updateNode. cbn [nodes document body]. f_equal. apply list_eq. intros i.
  destruct (Nat.eq_dec i n) as [-> | Hne].
  - rewrite !list_lookup_alter_eq. now destruct (nodes d !! n).
  - rewrite !list_lookup_alter_ne by congruence. reflexivity.
Qed.

Lemma updateNode_fixed (f : Node -> Node) (n : NodeId) (d : Dom) :
  f (nodeAt d n) = nodeAt d n -> updateNode f n d = d.
Proof.
  intros Hf. unfold updateNode. destruct d as [ns doc bd]. cbn [nodes document body].
  f_equal. apply list_eq. intros i.
  destruct (Nat.eq_dec i n) as [-> | Hne].
  - rewrite list_lookup_alter_eq. unfold nodeAt in Hf. cbn [nodes] in Hf.
    destruct (ns !! n) as [x|]; [cbn; now rewrite Hf | reflexivity].
  - rewrite list_lookup_alter_ne by congruence. reflexivity.
Qed.

Lemma assocDel_absent {V : Type} (k : string) (l : list (string * V)) :
  assocGet k l = None -> assocDel k l = l.
Proof.
  unfold assocDel. induction l as [|[k0 v0] l IH]; [reflexivity |].
  cbn [assocGet List.filter fst]. destruct (String.eqb k k0); [discriminate |].
  intros H. cbn [negb]. f_equal. now apply IH.
Qed.

Lemma assocDel_assocSet {V : Type} (k : string) (v : V) (l : list (string * V)) :
  assocGet k l = None -> assocDel k (assocSet k v l) = l.
Proof.
  unfold assocDel. induction l as [|[k0 v0] l IH]; cbn [assocGet assocSet].
  - intros _. cbn [List.filter fst]. now rewrite String.eqb_refl.
  - destruct (String.eqb k k0) eqn:E; [discriminate |].
    intros H. cbn [List.filter fst]. rewrite E. cbn [negb]. f_equal. now apply IH.
Qed.

Lemma filter_out_appended (c : string) (l : list string) :
  existsb (String.eqb c) l = false ->
  List.filter (fun c' => negb (String.eqb c c')) (l ++ [c]) = l.
Proof.
  induction l as [|a l IH]; cbn [existsb app List.filter].
  - intros _. now rewrite String.eqb_refl.
  - intros H. apply orb_false_iff in H. destruct H as [Ha Hl].
    rewrite Ha. cbn [negb]. f_equal. now apply IH.
Qed.

(** X14. Marking and cleaning cancel out.  On an element that carries
    neither the in-flight class nor an inline opacity, transition or
    transform, the marks the start of a drag puts on it followed by
    [cleanupElement] give back the document as it was. *)
Theorem cleanup_undoes_marks (it : NodeId) (d : Dom) :
  hasClass d it "data-drag-dragging" = false ->
  getStyle d it "opacity" = None ->
  getStyle d it "transition" = None ->
  getStyle d it "transform" = None ->
  cleanupElement (Some it)
    (setStyle it "opacity" (SText "0.4") (classList_add it "data-drag-dragging" d))
  = d.
Proof.
  unfold hasClass, getStyle. intros Hc Ho Ht Hf.
  unfold cleanupElement, clearStyle, classList_remove, setStyle, classList_add.
  rewrite !updateNode_updateNode. apply updateNode_fixed.
  rewrite Hc. destruct (nodeAt d it) as [k p kids attrs cls st].
  cbn [withStyle withClassList kind parentNode childNodes attributes classList style] in *.
  rewrite (filter_out_appended _ _ Hc), (assocDel_assocSet _ _ _ Ho).
  now rewrite (assocDel_absent _ _ Ht), (assocDel_absent _ _ Hf).
Qed.

(** ** Adoption *)





(** ** The pointer-move of a drag under way *)

(** What [resolveTarget] does to the document is to the mirror's inline
    style only: it sits at the pointer less the grab offset and is shown. *)
Lemma resolveTarget_mirror (roots : list NodeId) (event : MouseEvent) (t : Tick) (m : NodeId) :
  mirror (tstate t) = Some m ->
  (m < length (nodes (tdom t)))%nat ->
  let r := resolveTarget roots event t in
  (forall n, n <> m -> nodeAt (tdom (fst r)) n = nodeAt (tdom t) n)
  /\ attributes (nodeAt (tdom (fst r)) m) = attributes (nodeAt (tdom t) m)
  /\ classList (nodeAt (tdom (fst r)) m) = classList (nodeAt (tdom t) m)
  /\ length (nodes (tdom (fst r))) = length (nodes (tdom t))
  /\ ((exists e, snd r = Throw e)
      \/ (getStyle (tdom (fst r)) m "left" = Some (SPx (clientX event - offsetX (tstate t)))
          /\ getStyle (tdom (fst r)) m "top" = Some (SPx (clientY event - offsetY (tstate t)))
          /\ getStyle (tdom (fst r)) m "display" = None)).
Proof.
  intros Hm Hin. cbn zeta. unfold resolveTarget. rewrite Hm.
  set (d1 := setStyle m "top" _ (setStyle m "left" _ (tdom t))).
  set (hidden := setStyle m "display" (SText "none") d1).
  set (shown := clearStyle m "display" hidden).
  assert (Hothers : forall d0 n, n <> m ->
            (d0 = hidden \/ d0 = shown) -> nodeAt d0 n = nodeAt (tdom t) n).
  { intros d0 n Hne [-> | ->]; unfold shown, hidden, d1, clearStyle, setStyle;
      now rewrite !nodeAt_updateNode_ne by exact Hne. }
  assert (Hattrs : forall d0, (d0 = hidden \/ d0 = shown) ->
            attributes (nodeAt d0 m) = attributes (nodeAt (tdom t) m)
            /\ classList (nodeAt d0 m) = classList (nodeAt (tdom t) m)
            /\ length (nodes d0) = length (nodes (tdom t))).
  { intros d0 [-> | ->]; unfold shown, hidden, d1, clearStyle, setStyle;
      rewrite !(nodeAt_updateNode_proj attributes), !(nodeAt_updateNode_proj classList),
        !length_updateNode by reflexivity; tauto. }
  assert (Hlen1 : (m < length (nodes (setStyle m "left"
                    (SPx (clientX event - offsetX (tstate t))) (tdom t))))%nat).
  { unfold setStyle. now rewrite length_updateNode. }
  assert (Hbox : getStyle shown m "left" = Some (SPx (clientX event - offsetX (tstate t)))
                 /\ getStyle shown m "top" = Some (SPx (clientY event - offsetY (tstate t)))
                 /\ getStyle shown m "display" = None).
  { unfold shown, hidden, d1. rewrite !getStyle_clearStyle, Nat.eqb_refl.
    cbn [andb]. replace (String.eqb "display" "left") with false by reflexivity.
    replace (String.eqb "display" "top") with false by reflexivity.
    replace (String.eqb "display" "display") with true by reflexivity.
    rewrite !(getStyle_setStyle_other m m "display") by discriminate.
    rewrite (getStyle_setStyle_other m m "top" "left") by discriminate.
    rewrite !getStyle_setStyle by assumption.
    rewrite Nat.eqb_refl. split; [reflexivity |]. split; reflexivity. }
  destruct (findDropParentLoop hidden roots (clientX event) (clientY event)) as [found|e].
  2: { cbn [fst snd withDom tdom].
       split; [intros n Hne; apply Hothers; tauto |].
       split; [apply Hattrs; tauto |]. split; [apply Hattrs; tauto |].
       split; [apply Hattrs; tauto |]. left. now exists e. }
  fold shown.
  assert (Hshown : forall target : outcome (option NodeId),
    (forall n, n <> m -> nodeAt (tdom (fst (withDom shown t, target))) n = nodeAt (tdom t) n)
    /\ attributes (nodeAt (tdom (fst (withDom shown t, target))) m)
       = attributes (nodeAt (tdom t) m)
    /\ classList (nodeAt (tdom (fst (withDom shown t, target))) m)
       = classList (nodeAt (tdom t) m)
    /\ length (nodes (tdom (fst (withDom shown t, target)))) = length (nodes (tdom t))
    /\ ((exists e, snd (withDom shown t, target) = Throw e)
        \/ (getStyle (tdom (fst (withDom shown t, target))) m "left"
            = Some (SPx (clientX event - offsetX (tstate t)))
            /\ getStyle (tdom (fst (withDom shown t, target))) m "top"
               = Some (SPx (clientY event - offsetY (tstate t)))
            /\ getStyle (tdom (fst (withDom shown t, target))) m "display" = None))).
  { intros target. cbn [fst snd withDom tdom].
    split; [intros n Hne; apply Hothers; tauto |].
    split; [apply Hattrs; tauto |]. split; [apply Hattrs; tauto |].
    split; [apply Hattrs; tauto |]. right. exact Hbox. }
  destruct found as [dropParent|]; [| apply Hshown].
  destruct (accessGranted _ _ _) as [[|]|e]; apply Hshown.
Qed.

(** The inline style of the nodes at hand, the two properties of the
    animation apart, is kept. *)
Definition keepsBox (d d' : Dom) : Prop :=
  (length (nodes d) <= length (nodes d'))%nat
  /\ forall n p, (n < length (nodes d))%nat -> p <> "transform" -> p <> "transition" ->
       getStyle d' n p = getStyle d n p.

Lemma keepsBox_refl (d : Dom) : keepsBox d d.
Proof. split; [lia | reflexivity]. Qed.

Lemma keepsBox_trans (d1 d2 d3 : Dom) : keepsBox d1 d2 -> keepsBox d2 d3 -> keepsBox d1 d3.
Proof.
  intros (L1 & H1) (L2 & H2). split; [lia |].
  intros n p Hn Hp Hq. rewrite H2 by (try lia; assumption). now apply H1.
Qed.

Lemma keepsBox_looks (d d' : Dom) :
  (length (nodes d) <= length (nodes d'))%nat ->
  (forall n, (n < length (nodes d))%nat -> looks (nodeAt d' n) = looks (nodeAt d n)) ->
  keepsBox d d'.
Proof.
  intros L H. split; [exact L |]. intros n p Hn _ _. unfold getStyle.
  specialize (H n Hn). unfold looks in H. now injection H as _ _ ->.
Qed.

Lemma settle_keepsBox (dropParent : NodeId) (event : MouseEvent) (t : Tick) :
  keepsBox (tdom t) (tdom (fst (settle dropParent event t))).
Proof.
  assert (Hrec : keepsBox (tdom t) (tdom (reconcileCopy dropParent t))).
  { pose proof (reconcileCopy_cases dropParent t) as H. cbn zeta in H.
    destruct (shouldCreateCopy dropParent (tstate t)), (copy (tstate t)) as [c|];
      try (rewrite H; apply keepsBox_refl).
    - destruct H as (_ & _ & Hcl). pose proof Hcl as (_ & Hgrow & _).
      cbn [fst] in Hgrow. apply keepsBox_looks; [lia |]. intros n Hn.
      pose proof (clonedFrom_nodeAt _ _ _ _ n Hcl Hn) as E. cbn [fst] in E. now rewrite E.
    - destruct H as (_ & _ & ->). apply keepsBox_looks; [now rewrite remove_length |].
      intros n _. apply remove_looks. }
  assert (Hplace : forall t2, keepsBox (tdom t2) (tdom (fst (placeActive dropParent event t2)))).
  { intros t2. unfold placeActive.
    match goal with |- context [if ?b then _ else _] => destruct b end;
      [| apply keepsBox_refl].
    destruct (insertBefore dropParent _ _ (tdom t2)) as [d1|e] eqn:Hins;
      [| apply keepsBox_refl].
    pose proof (insertBefore_frame _ _ _ _ _ Hins) as (Hlen & _ & _ & Hlooks & _).
    assert (H1 : keepsBox (tdom t2) d1).
    { apply keepsBox_looks; [lia |]. intros n _. apply Hlooks. }
    cbn [fst tdom].
    destruct (lookupProp "animation" (options (tstate t2))) as [duration|]; [| exact H1].
    destruct (truthy duration); [| exact H1].
    eapply keepsBox_trans; [exact H1 |]. unfold animateInsertion.
    match goal with |- context [if ?b then _ else _] => destruct b end;
      [apply keepsBox_refl |].
    cbn [tdom withDom]. split; [unfold setStyle; rewrite !length_updateNode; lia |].
    intros n p _ Hp Hq. rewrite !getStyle_setStyle_other by congruence. reflexivity. }
  unfold settle. destruct (canSortInParent dropParent (tstate t)); [| exact Hrec].
  eapply keepsBox_trans; [exact Hrec | apply Hplace].
Qed.

(** X16. The mirror follows the pointer.  After every pointer-move of a
    drag under way that raises no error, the mirror's [left] and [top] are
    the pointer's coordinates less the offset at which the item was grabbed,
    and the mirror, hidden for the hit test, is shown again. *)
Theorem mirror_follows_pointer (this : InstId) (event : MouseEvent) (w : World)
    (ref : StateRef) (state : DragState) (m : NodeId) :
  globalDragState w = Some ref ->
  stateStore w !! ref = Some state ->
  isDragging state = true ->
  mirror state = Some m ->
  (m < length (nodes (dom w)))%nat ->
  snd (handleMouseMove this event w) = None ->
  let d' := dom (fst (handleMouseMove this event w)) in
  getStyle d' m "left" = Some (SPx (clientX event - offsetX state))
  /\ getStyle d' m "top" = Some (SPx (clientY event - offsetY state))
  /\ getStyle d' m "display" = None.
Proof.
  intros G Hs Hd Hm Hin. unfold handleMouseMove. rewrite G, Hs. cbn [fst snd dom].
  unfold moveBody, approach. cbn [tstate]. rewrite Hd. cbn [negb].
  pose proof (resolveTarget_mirror (instanceRoots w) event
                (mkTick (dom w) state (notifications w) (frameRequests w)) m Hm Hin)
    as (_ & _ & _ & Hlen & Hbox).
  cbn zeta in Hlen, Hbox. cbn [tstate tdom] in Hlen, Hbox.
  destruct (resolveTarget _ _ _) as [t1 [[dropParent|]|e]]; cbn [fst snd] in *.
  - intros Hok. destruct Hbox as [(e & He) | (Hl & Ht & Hdisp)]; [discriminate |].
    destruct (settle_keepsBox dropParent event t1) as (_ & Hkeep).
    rewrite !Hkeep by (try discriminate; lia). tauto.
  - intros _. destruct Hbox as [(e & He) | Hbox]; [discriminate | exact Hbox].
  - discriminate.
Qed.

(** All a pointer-move did was to move the mirror: nothing was dispatched,
    the drag state, the tree and every node but the mirror are as they were,
    and so are the mirror's attributes and classes. *)
Definition onlyMirrorMoved (w w' : World) (m : NodeId) : Prop :=
  notifications w' = notifications w
  /\ stateStore w' = stateStore w
  /\ frameRequests w' = frameRequests w
  /\ sameTree (dom w) (dom w')
  /\ (forall n, n <> m -> nodeAt (dom w') n = nodeAt (dom w) n)
  /\ attributes (nodeAt (dom w') m) = attributes (nodeAt (dom w) m)
  /\ classList (nodeAt (dom w') m) = classList (nodeAt (dom w) m).

Lemma resolveTarget_onlyMirror (event : MouseEvent) (w : World) (ref : StateRef)
    (state : DragState) (m : NodeId) (t1 : Tick) (target : outcome (option NodeId)) :
  stateStore w !! ref = Some state ->
  mirror state = Some m ->
  (m < length (nodes (dom w)))%nat ->
  resolveTarget (instanceRoots w) event (tickOf w state) = (t1, target) ->
  tstate t1 = state
  /\ onlyMirrorMoved w
       (mkWorld (tdom t1) (instanceStore w) (instances w) (<[ref := tstate t1]> (stateStore w))
          (globalDragState w) (mousedownListeners w) (mousemoveListeners w)
          (mouseupListeners w) (tnotes t1) (tframes t1))
       m.
Proof.
  intros Hs Hm Hin E.
  pose proof (resolveTarget_frame (instanceRoots w) event (tickOf w state))
    as (Hst & Hno & Hsame & _).
  pose proof (resolveTarget_frames (instanceRoots w) event (tickOf w state)) as Hfr.
  pose proof (resolveTarget_mirror (instanceRoots w) event (tickOf w state) m Hm Hin)
    as (Hothers & Hattrs & Hcls & _).
  cbn zeta in *. rewrite E in *. cbn [fst tickOf tstate tnotes tdom tframes] in *.
  split; [exact Hst |]. unfold onlyMirrorMoved.
  cbn [notifications stateStore frameRequests dom].
  split; [exact Hno |]. split; [rewrite Hst; now apply list_insert_id |].
  split; [exact Hfr |]. split; [exact Hsame |]. split; [exact Hothers |].
  split; [exact Hattrs | exact Hcls].
Qed.

(** X17. A pointer-move of a drag under way that resolves no drop parent,
    or one whose access rules reject the source container, only moves the
    mirror. *)
Theorem unresolved_move_is_quiet (this : InstId) (event : MouseEvent) (w : World)
    (ref : StateRef) (state : DragState) (m : NodeId) :
  globalDragState w = Some ref ->
  stateStore w !! ref = Some state ->
  isDragging state = true ->
  mirror state = Some m ->
  (m < length (nodes (dom w)))%nat ->
  snd (resolveTarget (instanceRoots w) event (tickOf w state)) = Ret None ->
  handleMouseMove this event w
  = (fst (handleMouseMove this event w), None)
  /\ onlyMirrorMoved w (fst (handleMouseMove this event w)) m.
Proof.
  intros G Hs Hd Hm Hin Htarget. unfold handleMouseMove. rewrite G, Hs.
  fold (tickOf w state). unfold moveBody, approach. cbn [tickOf tstate]. rewrite Hd.
  cbn [negb]. fold (tickOf w state).
  destruct (resolveTarget (instanceRoots w) event (tickOf w state)) as [t1 target] eqn:E.
  cbn [snd] in Htarget. subst target. cbn [fst snd].
  split; [reflexivity |].
  exact (proj2 (resolveTarget_onlyMirror event w ref state m t1 _ Hs Hm Hin E)).
Qed.

(** X18. With sorting disabled, a pointer-move over the item's own
    container only moves the mirror: the item keeps its place and no [move]
    is dispatched. *)
Theorem unsortable_item_stays (this : InstId) (event : MouseEvent) (w : World)
    (ref : StateRef) (state : DragState) (m : NodeId) :
  globalDragState w = Some ref ->
  stateStore w !! ref = Some state ->
  isDragging state = true ->
  mirror state = Some m ->
  (m < length (nodes (dom w)))%nat ->
  copy state = None ->
  truthyOpt (lookupProp "sort" (options state)) = false ->
  snd (resolveTarget (instanceRoots w) event (tickOf w state)) = Ret (Some (parent state)) ->
  handleMouseMove this event w
  = (fst (handleMouseMove this event w), None)
  /\ onlyMirrorMoved w (fst (handleMouseMove this event w)) m.
Proof.
  intros G Hs Hd Hm Hin Hcopy Hsort Htarget. unfold handleMouseMove. rewrite G, Hs.
  fold (tickOf w state). unfold moveBody, approach. cbn [tickOf tstate]. rewrite Hd.
  cbn [negb]. fold (tickOf w state).
  destruct (resolveTarget (instanceRoots w) event (tickOf w state)) as [t1 target] eqn:E.
  cbn [snd] in Htarget. subst target.
  destruct (resolveTarget_onlyMirror event w ref state m t1 _ Hs Hm Hin E) as (Hst & Hquiet).
  assert (Hsettle : settle (parent state) event t1 = (t1, None)).
  { unfold settle, reconcileCopy, canSortInParent, shouldCreateCopy, isDifferentParent.
    rewrite Hst, Hcopy, Hsort, Nat.eqb_refl. cbn [negb orb].
    now rewrite andb_false_r. }
  rewrite Hsettle. cbn [fst snd]. split; [reflexivity | exact Hquiet].
Qed.


(** ** Insertion *)

Lemma insertAt_before (r n : NodeId) (kids : list NodeId) :
  In r kids ->
  exists before rest,
    kids = (before ++ r :: rest)%list
    /\ insertAt (Some r) n kids = (before ++ n :: r :: rest)%list.
Proof.
  induction kids as [|c kids IH]; [intros [] |].
  intros Hin. cbn [insertAt]. destruct (Nat.eqb_spec c r) as [-> | Hne].
  - exists [], kids. split; reflexivity.
  - destruct Hin as [-> | Hin]; [contradiction |].
    destruct (IH Hin) as (before & rest & -> & E).
    exists (c :: before), rest. split; [reflexivity |]. cbn [app]. now rewrite E.
Qed.

Lemma remove_children (n q : NodeId) (d : Dom) :
  childNodes (nodeAt (remove n d) q)
  = if optEqb (parentNodeOf d n) (Some q)
    then List.filter (fun c => negb (Nat.eqb c n)) (childNodes (nodeAt d q))
    else childNodes (nodeAt d q).
Proof.
  unfold remove. destruct (parentNodeOf d n) as [p|] eqn:Hp; cbn [optEqb]; [| reflexivity].
  rewrite (nodeAt_updateNode_proj childNodes) by reflexivity.
  destruct (Nat.eqb_spec p q) as [-> | Hne].
  - destruct (Nat.lt_ge_cases q (length (nodes d))) as [Hin | Hout].
    + now rewrite nodeAt_updateNode_eq.
    + rewrite !nodeAt_outside; [reflexivity | exact Hout |].
      now rewrite length_updateNode.
  - rewrite nodeAt_updateNode_ne by congruence. reflexivity.
Qed.

Lemma isInclusiveAncestor_refl (d : Dom) (n : NodeId) : isInclusiveAncestor d n n = true.
Proof. unfold isInclusiveAncestor. cbn [isAncestorLoop]. now rewrite Nat.eqb_refl. Qed.

Lemma findInsertPosition_child (d : Dom) (mirrorRef : option NodeId) (container : NodeId)
    (opts : list (string * JSON)) (x y : Q) (dragElement r : NodeId) :
  findInsertPosition d mirrorRef container opts x y dragElement = Some r ->
  In r (childNodes (nodeAt d container)) /\ r <> dragElement.
Proof.
  unfold findInsertPosition, children. intros H. apply find_some in H. destruct H as [H _].
  apply filter_In in H. destruct H as [H Hc]. apply filter_In in H. destruct H as [H _].
  split; [exact H |]. unfold isCandidate in Hc.
  destruct (Nat.eqb_spec r dragElement); [discriminate | assumption].
Qed.

Lemma insertBefore_position (par node : NodeId) (ref : option NodeId) (d d1 : Dom) :
  (par < length (nodes d))%nat ->
  (node < length (nodes d))%nat ->
  insertBefore par node ref d = Ret d1 ->
  ref <> Some node ->
  (forall r, ref = Some r -> In r (childNodes (nodeAt d par))) ->
  parentNodeOf d1 node = Some par
  /\ exists before rest,
       childNodes (nodeAt d1 par) = (before ++ node :: rest)%list
       /\ match ref with
          | Some r => exists rest', rest = r :: rest'
          | None => rest = []
          end.
Proof.
  intros Hpar Hnode Hins Href Hchild.
  split; [exact (insertBefore_parent _ _ _ _ _ Hins Hnode) |].
  unfold insertBefore in Hins.
  destruct (isInclusiveAncestor d node par) eqn:Hanc; [discriminate |].
  assert (Hne : par <> node).
  { intros ->. now rewrite isInclusiveAncestor_refl in Hanc. }
  match type of Hins with (if ?b then _ else _) = _ => destruct b end; [discriminate |].
  assert (Eref : optEqb ref (Some node) = false).
  { destruct (optEqb ref (Some node)) eqn:E; [| reflexivity].
    apply optEqb_eq in E. contradiction. }
  rewrite Eref in Hins. injection Hins as <-.
  rewrite nodeAt_updateNode_ne by exact Hne.
  rewrite nodeAt_updateNode_eq by (now rewrite remove_length).
  cbn [withChildren childNodes].
  destruct ref as [r|].
  - assert (Hin : In r (childNodes (nodeAt (remove node d) par))).
    { rewrite remove_children. specialize (Hchild r eq_refl).
      destruct (optEqb (parentNodeOf d node) (Some par)); [| exact Hchild].
      apply filter_In. split; [exact Hchild |].
      apply negb_true_iff, Nat.eqb_neq. congruence. }
    destruct (insertAt_before r node _ Hin) as (before & rest & _ & E).
    exists before, (r :: rest). split; [exact E | now exists rest].
  - rewrite insertAt_None. eexists _, []. split; reflexivity.
Qed.

(** The [move] event of an insertion. *)
Definition moveNotification (d : Dom) (active dropParent : NodeId) (reference : option NodeId)
  : Notification :=
  mkNotification dropParent "move"
    (MoveDetail active (parentElement d active) dropParent reference).

(** X19. Insert-before semantics.  When the active element is already a
    child of the drop parent with the reference as its next element
    sibling, [placeActive] does nothing and dispatches nothing.  Otherwise,
    unless the insertion throws, the active element becomes a child of the
    drop parent, immediately before the reference or last when there is
    none, and one [move] is dispatched on the drop parent with the element,
    its previous parent element, the drop parent and the reference. *)
Theorem placeActive_position (dropParent : NodeId) (event : MouseEvent) (t t' : Tick) :
  (dropParent < length (nodes (tdom t)))%nat ->
  (activeElementOf (tstate t) < length (nodes (tdom t)))%nat ->
  placeActive dropParent event t = (t', None) ->
  let d := tdom t in
  let active := activeElementOf (tstate t) in
  let reference :=
    findInsertPosition d (mirror (tstate t)) dropParent (options (tstate t))
      (clientX event) (clientY event) active in
  (parentElement d active = Some dropParent
   /\ nextElementSibling d active = reference
   /\ t' = t)
  \/ ((parentElement d active <> Some dropParent \/ nextElementSibling d active <> reference)
      /\ parentNodeOf (tdom t') active = Some dropParent
      /\ (exists before rest,
            childNodes (nodeAt (tdom t') dropParent) = (before ++ active :: rest)%list
            /\ match reference with
               | Some r => exists rest', rest = r :: rest'
               | None => rest = []
               end)
      /\ tnotes t' = (tnotes t ++ [moveNotification d active dropParent reference])%list
      /\ tstate t' = tstate t).
Proof.
  intros Hdrop Hact. cbn zeta. unfold placeActive.
  set (d := tdom t). set (active := activeElementOf (tstate t)) in *.
  set (reference := findInsertPosition d (mirror (tstate t)) dropParent
                      (options (tstate t)) (clientX event) (clientY event) active).
  destruct (negb (optEqb (parentElement d active) (Some dropParent))
            || negb (optEqb (nextElementSibling d active) reference)) eqn:Eb.
  2: { intros [= <-]. left. apply orb_false_iff in Eb. destruct Eb as [Ep En].
       apply negb_false_iff, optEqb_eq in Ep, En. tauto. }
  assert (Hchanged : parentElement d active <> Some dropParent
                     \/ nextElementSibling d active <> reference).
  { apply orb_true_iff in Eb. destruct Eb as [E | E]; apply negb_true_iff in E;
      [left | right]; intros Hq; apply optEqb_eq in Hq; congruence. }
  destruct (insertBefore dropParent active reference d) as [d1|e] eqn:Hins;
    [| discriminate].
  assert (Hplaced :
    parentNodeOf d1 active = Some dropParent
    /\ exists before rest,
         childNodes (nodeAt d1 dropParent) = (before ++ active :: rest)%list
         /\ match reference with
            | Some r => exists rest', rest = r :: rest'
            | None => rest = []
            end).
  { apply (insertBefore_position _ _ _ d); try assumption.
    - intros Hq. apply findInsertPosition_child in Hq. tauto.
    - intros r Hq. apply findInsertPosition_child in Hq. tauto. }
  destruct Hplaced as (Hpar & Hkids).
  assert (Hanim : forall duration,
    let t2 := animateInsertion active (getBoundingClientRect d active)
                (getBoundingClientRect d1 active) duration (withDom d1 t) in
    parentNodeOf (tdom t2) active = Some dropParent
    /\ childNodes (nodeAt (tdom t2) dropParent) = childNodes (nodeAt d1 dropParent)
    /\ tnotes t2 = tnotes t /\ tstate t2 = tstate t).
  { intros duration.
    pose proof (animateInsertion_frame active (getBoundingClientRect d active)
                  (getBoundingClientRect d1 active) duration (withDom d1 t))
      as (Hst & Hno & Hsa & _).
    cbn zeta in *. cbn [withDom tdom tstate tnotes] in *.
    split; [rewrite (sameTree_parent _ _ active Hsa); exact Hpar |].
    split; [apply (sameTree_children _ _ dropParent Hsa) |].
    split; [exact Hno | exact Hst]. }
  intros Ht'. right. split; [exact Hchanged |].
  destruct (lookupProp "animation" (options (tstate t))) as [duration|];
    [destruct (truthy duration) |].
  all: injection Ht' as <-; cbn [tdom tnotes tstate withDom dispatchEvent].
  1: { destruct (Hanim duration) as (H1 & H2 & H3 & H4). cbn zeta in *.
       rewrite H1, H2, H3, H4. split; [reflexivity |]. split; [exact Hkids |].
       split; reflexivity. }
  all: split; [exact Hpar |]; split; [exact Hkids |]; split; reflexivity.
Qed.

(** X20. Dragging an item over a container of its own subtree: when the
    drop parent is the active element or lies below it, the insertion throws
    a [HierarchyRequestError], which [placeActive] lets through, leaving
    the document as it was and dispatching nothing. *)
Theorem placeActive_own_subtree (dropParent : NodeId) (event : MouseEvent) (t : Tick) :
  isInclusiveAncestor (tdom t) (activeElementOf (tstate t)) dropParent = true ->
  parentElement (tdom t) (activeElementOf (tstate t)) <> Some dropParent ->
  placeActive dropParent event t = (t, Some HierarchyRequestError).
Proof.
  intros Hanc Hpar. unfold placeActive.
  destruct (optEqb (parentElement (tdom t) (activeElementOf (tstate t))) (Some dropParent))
    eqn:E; [apply optEqb_eq in E; contradiction |].
  cbn [negb orb]. unfold insertBefore. now rewrite Hanc.
Qed.


(** ** What a pointer-move leaves alone *)

Lemma startDrag_keeps (t : Tick) (n : NodeId) :
  (n < length (nodes (tdom t)))%nat ->
  let d' := tdom (fst (startDrag t)) in
  kind (nodeAt d' n) = kind (nodeAt (tdom t) n)
  /\ attributes (nodeAt d' n) = attributes (nodeAt (tdom t) n)
  /\ (n <> item (tstate t) -> classList (nodeAt d' n) = classList (nodeAt (tdom t) n)).
Proof.
  intros Hn. cbn zeta. unfold startDrag, createMirror. cbn [item setIsDragging].
  pose proof (cloneNode_clonedFrom (tdom t) (item (tstate t))) as Hc.
  pose proof Hc as (Hsnd & _).
  pose proof (clonedFrom_nodeAt _ _ _ _ n Hc Hn) as Hold.
  set (cloned := cloneNode (tdom t) (item (tstate t))) in *.
  set (d2 := setCssText (snd cloned) _ (classList_add (snd cloned) _ (fst cloned))).
  assert (H2 : nodeAt d2 n = nodeAt (tdom t) n).
  { unfold d2, setCssText, classList_add. rewrite !nodeAt_updateNode_ne by lia. exact Hold. }
  destruct (insertBefore (body d2) (snd cloned) None d2) as [d3|e] eqn:Hins;
    cbn [obind fst snd tdom withState item setMirror].
  2: { split; [reflexivity |]. split; reflexivity. }
  pose proof (insertBefore_frame _ _ _ _ _ Hins) as (_ & _ & _ & Hlooks & Hkind & _).
  specialize (Hlooks n). specialize (Hkind n). unfold looks in Hlooks.
  injection Hlooks as Ha Hcl _. rewrite H2 in Ha, Hcl, Hkind.
  unfold setStyle.
  rewrite (nodeAt_updateNode_proj kind), (nodeAt_updateNode_proj attributes) by reflexivity.
  unfold classList_add at 1 2.
  rewrite (nodeAt_updateNode_proj kind), (nodeAt_updateNode_proj attributes)
    by (intros x; now destruct (existsb _ _)).
  split; [exact Hkind |]. split; [exact Ha |].
  intros Hne. rewrite (nodeAt_updateNode_proj classList) by reflexivity.
  unfold classList_add. rewrite nodeAt_updateNode_ne by exact Hne. exact Hcl.
Qed.

(** X21. A pointer-move changes no attribute and no kind of any node of
    the document, and it moves and re-classes nothing but the item and its
    copy: every other node keeps its parent and its classes. *)
Theorem move_keeps_others (this : InstId) (event : MouseEvent) (w : World)
    (ref : StateRef) (state : DragState) (n : NodeId) :
  globalDragState w = Some ref ->
  stateStore w !! ref = Some state ->
  (n < length (nodes (dom w)))%nat ->
  let d' := dom (fst (handleMouseMove this event w)) in
  kind (nodeAt d' n) = kind (nodeAt (dom w) n)
  /\ attributes (nodeAt d' n) = attributes (nodeAt (dom w) n)
  /\ (n <> item state -> copy state <> Some n ->
      parentNodeOf d' n = parentNodeOf (dom w) n
      /\ classList (nodeAt d' n) = classList (nodeAt (dom w) n)).
Proof.
  intros G Hs Hn. cbn zeta. unfold handleMouseMove. rewrite G, Hs. cbn [fst dom].
  fold (tickOf w state). set (t := tickOf w state).
  assert (Ht : tdom t = dom w /\ tstate t = state) by (split; reflexivity).
  destruct Ht as (Ed & Es). rewrite <- Ed in *. rewrite <- Es. clearbody t.
  assert (Happroach :
    let t1 := fst (approach (instanceRoots w) event t) in
    kind (nodeAt (tdom t1) n) = kind (nodeAt (tdom t) n)
    /\ attributes (nodeAt (tdom t1) n) = attributes (nodeAt (tdom t) n)
    /\ (n <> item (tstate t) -> classList (nodeAt (tdom t1) n) = classList (nodeAt (tdom t) n))).
  { assert (Hres : forall t0, (n < length (nodes (tdom t0)))%nat ->
      kind (nodeAt (tdom (fst (resolveTarget (instanceRoots w) event t0))) n)
      = kind (nodeAt (tdom t0) n)
      /\ attributes (nodeAt (tdom (fst (resolveTarget (instanceRoots w) event t0))) n)
         = attributes (nodeAt (tdom t0) n)
      /\ classList (nodeAt (tdom (fst (resolveTarget (instanceRoots w) event t0))) n)
         = classList (nodeAt (tdom t0) n)).
    { intros t0 H0.
      pose proof (resolveTarget_frame (instanceRoots w) event t0) as (_ & _ & _ & Hk).
      destruct Hk as (_ & _ & Hk). destruct (Hk n H0) as (K1 & K2 & K3 & _). tauto. }
    cbn zeta. unfold approach. destruct (negb (isDragging (tstate t))).
    - destruct (negb (meetsThreshold event (tstate t))); [cbn [fst]; tauto |].
      pose proof (startDrag_keeps t n Hn) as (S1 & S2 & S3).
      pose proof (startDrag_frame t) as (_ & (Hle & _) & _). cbn zeta in *.
      destruct (startDrag t) as [t1 [e|]]; cbn [fst] in *; [tauto |].
      destruct (Hres t1 ltac:(lia)) as (R1 & R2 & R3).
      rewrite R1, R2, R3. tauto.
    - destruct (Hres t Hn) as (R1 & R2 & R3). tauto. }
  pose proof (approach_frame (instanceRoots w) event t) as ((Ei & _ & _ & Ec) & (Hle & Hp) & _).
  cbn zeta in *. unfold moveBody.
  destruct (approach (instanceRoots w) event t) as [t1 [[dropParent|]|e]]; cbn [fst] in *.
  2, 3: (destruct Happroach as (A1 & A2 & A3); split; [exact A1 |]; split; [exact A2 |];
         intros Hi Hc; split; [now apply Hp | now apply A3]).
  destruct Happroach as (A1 & A2 & A3).
  pose proof (settle_frame dropParent event t1) as (_ & (_ & _ & Hk) & Hpar & _).
  cbn zeta in *. destruct (Hk n ltac:(lia)) as (K1 & K2 & K3 & _).
  split; [now rewrite K1 |]. split; [now rewrite K2 |].
  intros Hi Hc. split.
  - rewrite Hpar; [now apply Hp | lia | now rewrite Ei | now rewrite Ec].
  - rewrite K3. now apply A3.
Qed.


(** ** Copy mode *)

Lemma placeActive_parent (dropParent : NodeId) (event : MouseEvent) (t : Tick) :
  (activeElementOf (tstate t) < length (nodes (tdom t)))%nat ->
  let d' := tdom (fst (placeActive dropParent event t)) in
  parentNodeOf d' (activeElementOf (tstate t)) = parentNodeOf (tdom t) (activeElementOf (tstate t))
  \/ parentNodeOf d' (activeElementOf (tstate t)) = Some dropParent.
Proof.
  intros Hact. cbn zeta. unfold placeActive.
  match goal with |- context [if ?b then _ else _] => destruct b end; [| now left].
  destruct (insertBefore dropParent _ _ (tdom t)) as [d1|e] eqn:Hins; [| now left].
  pose proof (insertBefore_parent _ _ _ _ _ Hins Hact) as Hpar.
  right. cbn [fst tdom].
  destruct (lookupProp "animation" (options (tstate t))) as [duration|]; [| exact Hpar].
  destruct (truthy duration); [| exact Hpar].
  match goal with
  | |- context [animateInsertion ?a ?b ?c ?e ?f] =>
      pose proof (animateInsertion_frame a b c e f) as (_ & _ & Hsa & _)
  end.
  cbn zeta in Hsa. rewrite (sameTree_parent _ _ _ Hsa). exact Hpar.
Qed.

(** The source item is where it was at the press, or in its source
    container. *)
Definition sourceKept (p0 : option NodeId) (t : Tick) : Prop :=
  parentNodeOf (tdom t) (item (tstate t)) = p0
  \/ parentNodeOf (tdom t) (item (tstate t)) = Some (parent (tstate t)).

Lemma moveBody_source (roots : list NodeId) (event : MouseEvent) (t : Tick)
    (cs : list NodeId) (p0 : option NodeId) :
  settledIn cs t ->
  truthyOpt (lookupProp "copy" (options (tstate t))) = true ->
  sourceKept p0 t ->
  let t' := fst (moveBody roots event t) in
  sourceKept p0 t'
  /\ item (tstate t') = item (tstate t)
  /\ parent (tstate t') = parent (tstate t)
  /\ options (tstate t') = options (tstate t).
Proof.
  intros Hset Hcopy Hkept. cbn zeta.
  pose proof (settledIn_approach roots event t cs Hset) as Hset1.
  pose proof (approach_frame roots event t) as ((Ei & Ep & Eo & Ec) & (Hle & Hpar) & _).
  cbn zeta in *. unfold moveBody.
  destruct Hset as (Hitem & _).
  assert (Hkept1 : sourceKept p0 (fst (approach roots event t))).
  { unfold sourceKept in *. rewrite Ei, Ep, Hpar by exact Hitem. exact Hkept. }
  destruct (approach roots event t) as [t1 [[dropParent|]|e]]; cbn [fst] in *.
  2, 3: tauto.
  rewrite <- Ei, <- Ep, <- Eo. rewrite <- Eo in Hcopy.
  clear Ei Ep Eo Ec Hle Hpar Hkept Hitem t.
  destruct Hset1 as (Hitem & Hcur & Hall).
  assert (Hfresh : forall c, copy (tstate t1) = Some c -> c <> item (tstate t1)).
  { intros c Hc. apply (Hall c (Hcur c Hc)). }
  unfold settle.
  pose proof (reconcileCopy_frame dropParent t1) as (Hst & _ & (Hle2 & _) & Hpar2).
  pose proof (reconcileCopy_cases dropParent t1) as Hcases. cbn zeta in *.
  set (t2 := reconcileCopy dropParent t1) in *.
  assert (Econf : item (tstate t2) = item (tstate t1)
                  /\ parent (tstate t2) = parent (tstate t1)
                  /\ options (tstate t2) = options (tstate t1)).
  { rewrite Hst. cbn [setCopy item parent options]. tauto. }
  destruct Econf as (Ei2 & Ep2 & Eo2).
  assert (Hkept2 : sourceKept p0 t2).
  { unfold sourceKept in *. rewrite Ei2, Ep2, Hpar2; [exact Hkept1 | exact Hitem |].
    intros Hc. now apply (Hfresh _ Hc). }
  destruct (canSortInParent dropParent (tstate t1)); [| cbn [fst]; tauto].
  pose proof (placeActive_frame dropParent event t2) as (Hst3 & _ & Hpar3 & _).
  cbn zeta in *. rewrite Hst3.
  split; [| tauto].
  unfold sourceKept. rewrite Hst3.
  destruct (copy (tstate t2)) as [c|] eqn:Hc2.
  - assert (Hne : item (tstate t2) <> activeElementOf (tstate t2)).
    { unfold activeElementOf. rewrite Hc2, Ei2.
      destruct (shouldCreateCopy dropParent (tstate t1)), (copy (tstate t1)) as [c0|] eqn:Hc0.
      + rewrite Hcases in Hc2. intros E. refine (Hfresh c _ _); congruence.
      + destruct Hcases as (E & _). rewrite E in Hc2. cbn [copy setCopy] in Hc2.
        injection Hc2 as <-. lia.
      + destruct Hcases as (E & _). rewrite E in Hc2. discriminate.
      + rewrite Hcases in Hc2. congruence. }
    rewrite Hpar3 by exact Hne. exact Hkept2.
  - assert (Hdrop : dropParent = parent (tstate t2)).
    { rewrite Ep2.
      destruct (shouldCreateCopy dropParent (tstate t1)) eqn:Hshould,
               (copy (tstate t1)) as [c0|] eqn:Hc0.
      + rewrite Hcases in Hc2. congruence.
      + destruct Hcases as (E & _). rewrite E in Hc2. discriminate.
      + unfold shouldCreateCopy, isDifferentParent in Hshould. rewrite Hcopy in Hshould.
        cbn [andb] in Hshould. apply negb_false_iff, Nat.eqb_eq in Hshould. exact Hshould.
      + unfold shouldCreateCopy, isDifferentParent in Hshould. rewrite Hcopy in Hshould.
        cbn [andb] in Hshould. apply negb_false_iff, Nat.eqb_eq in Hshould. exact Hshould. }
    assert (Hact : activeElementOf (tstate t2) = item (tstate t2)).
    { unfold activeElementOf. now rewrite Hc2. }
    pose proof (placeActive_parent dropParent event t2) as Hplace. cbn zeta in Hplace.
    rewrite Hact in Hplace.
    destruct (Hplace ltac:(rewrite Ei2; lia)) as [E | E]; rewrite E.
    + exact Hkept2.
    + right. now rewrite Hdrop.
Qed.

(** X22. Copy mode keeps the source in place.  In a session on an item
    with [copy] enabled, whatever pointer-moves follow, the source item is
    still where it was when the session began or directly in its source
    container: it is never moved into another container. *)
Theorem copied_item_stays (this : InstId) (w0 : World) (ref : StateRef)
    (state0 : DragState) (events : list MouseEvent) :
  globalDragState w0 = Some ref ->
  stateStore w0 !! ref = Some state0 ->
  copy state0 = None ->
  (item state0 < length (nodes (dom w0)))%nat ->
  truthyOpt (lookupProp "copy" (options state0)) = true ->
  let d := dom (runMoves this events w0) in
  parentNodeOf d (item state0) = parentNodeOf (dom w0) (item state0)
  \/ parentNodeOf d (item state0) = Some (parent state0).
Proof.
  intros Hg Hs Hc Hitem Hcopy. cbn zeta.
  set (p0 := parentNodeOf (dom w0) (item state0)).
  assert (Hinv : forall w,
    (exists state cs,
       globalDragState w = Some ref /\ stateStore w !! ref = Some state
       /\ settledIn cs (tickOf w state)
       /\ item state = item state0 /\ parent state = parent state0
       /\ options state = options state0
       /\ sourceKept p0 (tickOf w state)) ->
    parentNodeOf (dom (runMoves this events w)) (item state0) = p0
    \/ parentNodeOf (dom (runMoves this events w)) (item state0) = Some (parent state0)).
  { induction events as [|event events IH]; intros w (state & cs & G & Hst & Hset & Ei & Ep & Eo & Hk).
    - cbn [runMoves]. unfold sourceKept in Hk. cbn [tickOf tdom tstate] in Hk.
      now rewrite Ei, Ep in Hk.
    - cbn [runMoves]. apply IH.
      destruct (settledIn_moveBody (instanceRoots w) event _ cs Hset) as (added & _ & Hset').
      destruct (moveBody_source (instanceRoots w) event _ cs p0 Hset
                  ltac:(cbn [tickOf tstate]; now rewrite Eo) Hk)
        as (Hk' & Ei' & Ep' & Eo').
      cbn zeta in *. unfold handleMouseMove. rewrite G, Hst. fold (tickOf w state).
      set (r := moveBody (instanceRoots w) event (tickOf w state)) in *.
      cbn [fst]. exists (tstate (fst r)), (cs ++ copiesOf added)%list.
      cbn [globalDragState stateStore]. split; [reflexivity |].
      split; [apply list_lookup_insert_eq; exact (lookup_lt_Some _ _ _ Hst) |].
      cbn [tickOf tstate] in Ei', Ep', Eo'.
      split; [exact Hset' |]. split; [congruence |]. split; [congruence |].
      split; [congruence | exact Hk']. }
  apply Hinv. exists state0, []. split; [exact Hg |]. split; [exact Hs |].
  split.
  - unfold settledIn, tickOf. cbn [tdom tstate].
    split; [exact Hitem |]. split; [intros c; rewrite Hc; discriminate | intros c []].
  - split; [reflexivity |]. split; [reflexivity |]. split; [reflexivity |]. now left.
Qed.

End Engine.

(** * A worked document

    A body with two containers, [toolbox] (items A and B, and the host of a
    shadow tree that holds item D) and [library] (item C), laid out in rows
    of height 40 every 100 pixels; class selectors only. *)

Module Example.

Definition el (p : option NodeId) (kids : list NodeId) (attrs : list (string * string))
    (cls : list string) : Node :=
  mkNode Element p kids attrs cls [].

Definition exDom : Dom :=
  mkDom
    [ mkNode Document None [1] [] [] [];
      el (Some 0) [2; 5] [] [];
      el (Some 1) [3; 4; 7] [("data-drag-parent", "{}")] ["toolbox"];
      el (Some 2) [] [("data-drag", "{'copy':true}")] [];
      el (Some 2) [] [("data-drag", "true")] [];
      el (Some 1) [6]
        [("data-drag-parent",
          "{'adopted':{'data-drag':{'sort':true}},'access':{'order':['allow','deny'],'allow':['.toolbox'],'deny':[]}}")]
        ["library"];
      el (Some 5) [] [("data-drag", "{'sort':true}")] [];
      el (Some 2) [] [] [];
      mkNode (ShadowRoot 7) None [9] [] [] [];
      el (Some 8) [] [("data-drag", "{}")] [] ]
    0 1.

(** Selector engine: [.name] tests the class list, anything else is invalid. *)
Definition exCss (d : Dom) (n : NodeId) (selector : string) : option bool :=
  match selector with
  | String "."%char name => Some (hasClass d n name)
  | _ => None
  end.

(** Layout: node [n] occupies the row from [100 n] to [100 n + 40]. *)
Definition exRect (d : Dom) (n : NodeId) : Rect :=
  mkRect 0 (inject_Z (100 * Z.of_nat n)) 100 40.

Fixpoint rootOf (fuel : nat) (d : Dom) (n : NodeId) : NodeId :=
  match fuel with
  | O => n
  | S f =>
      match parentNodeOf d n with
      | Some p => rootOf f d p
      | None => n
      end
  end.

Definition hittable (d : Dom) (n : NodeId) : bool :=
  isElement d n
  && match getStyle d n "pointer-events" with Some _ => false | None => true end
  && match getStyle d n "display" with Some _ => false | None => true end.

(** Hit test: the element whose row holds the point, within the given root. *)
Definition exElementFromPoint (d : Dom) (rt : NodeId) (x y : Q) : option NodeId :=
  let row := Z.to_nat (Qfloor y / 100) in
  if Qle_bool 0 x && Qle_bool x 100
     && Qle_bool (inject_Z (100 * Z.of_nat row)) y
     && Qle_bool y (inject_Z (100 * Z.of_nat row + 40))
     && hittable d row
     && Nat.eqb (rootOf (length (nodes d)) d row) rt
  then Some row else None.

Definition exHost : Host := mkHost exCss exRect exElementFromPoint json_parse.

Definition down := handleMouseDown exHost.
Definition move := handleMouseMove exHost.
Definition up := handleMouseUp exHost.

(** The world after the module is loaded and a component has registered
    its shadow root: orchestrator 0 on the document, 1 on the shadow root. *)
Definition loaded : World :=
  fst (newDataDrag 8 (fst (newDataDrag 0 (initialWorld exDom)))).

Definition at_ (x y : Z) (path : list NodeId) : MouseEvent :=
  mkMouseEvent 0 (inject_Z x) (inject_Z y) path.

Definition noState : DragState := mkDragState 0 0 [] 0 0 0 0 None None false 0.

(** The drag state object of the session in [w]. *)
Definition stateOf (w : World) : DragState :=
  match globalDragState w with
  | Some ref =>
      match stateStore w !! ref with
      | Some state => state
      | None => noState
      end
  | None => noState
  end.

(** Pointer-down on item A, a first move within the toolbox, a second one
    over item C in the library, which admits items of the toolbox. *)
Definition grabA : MouseEvent := at_ 10 310 [3; 2; 1; 0].
Definition grabbedA : World := fst (down 0 grabA loaded).
Definition draggingA : World := fst (move 0 (at_ 10 320 []) grabbedA).
Definition copiedA : World := fst (move 0 (at_ 10 620 []) draggingA).




End Example.

(** * The theorems at work on the example *)

Lemma exDom_treeShaped : treeShaped (dom Example.loaded).
Proof. reflexivity. Qed.


Lemma grabbedA_reachable : reachable Example.exHost Example.exDom Example.grabbedA.
Proof.
  eapply reachable_step.
  - eapply reachable_step.
    + eapply reachable_step; [apply reachable_initial |].
      apply (step_construct _ _ 0%nat).
    + apply (step_construct _ _ 8%nat).
  - apply (step_mousedown Example.exHost _ 0%nat Example.grabA).
    cbn. now left.
Defined.

Lemma single_session_witness :
  reachable Example.exHost Example.exDom Example.grabbedA
  /\ atMostOneSession Example.grabbedA
  /\ forall (this : InstId) (event : MouseEvent),
       globalDragState Example.grabbedA <> None ->
       handleMouseDown Example.exHost this event Example.grabbedA
       = (Example.grabbedA, None).
Proof.
  split; [exact grabbedA_reachable |].
  exact (single_session Example.exHost Example.exDom Example.grabbedA grabbedA_reachable).
Defined.


(** C2 on the example: the source container matches both sets.  Under
    [['deny','allow']] the code rejects, as it does under
    [['allow','deny']]. *)
Lemma canAccept_tie_rejected :
  canAccept Example.exHost Example.exDom
    (mkAccess (patterns ["deny"; "allow"]) (patterns ["*"]) (patterns ["*"])) 3 (Some 2%nat)
  = Ret false
  /\ canAccept Example.exHost Example.exDom
       (mkAccess (patterns ["allow"; "deny"]) (patterns ["*"]) (patterns ["*"])) 3 (Some 2%nat)
     = Ret false.
Proof. split; vm_compute; reflexivity. Qed.





(** C8 on the example: the orchestrator that owns the Active session is
    destroyed.  The session reference is cleared, but the mirror still hangs
    from the body, the copy is still in the library and the source item
    still carries its in-flight mark. *)
Lemma destroy_leaves_mirror :
  let w := destroy 0 Example.copiedA in
  mirror (Example.stateOf Example.copiedA) = Some 10%nat
  /\ copy (Example.stateOf Example.copiedA) = Some 11%nat
  /\ sourceInstance (Example.stateOf Example.copiedA) = 0%nat
  /\ globalDragState w = None
  /\ parentNodeOf (dom w) 10 = Some (body (dom w))
  /\ In 10%nat (childNodes (nodeAt (dom w) (body (dom w))))
  /\ parentNodeOf (dom w) 11 = Some 5%nat
  /\ hasClass (dom w) 3 "data-drag-dragging" = true.
Proof.
  cbn zeta.
  split; [vm_compute; reflexivity |]. split; [vm_compute; reflexivity |].
  split; [vm_compute; reflexivity |]. split; [vm_compute; reflexivity |].
  split; [vm_compute; reflexivity |]. split; [vm_compute; tauto |].
  split; vm_compute; reflexivity.
Qed.



(** * Further examples *)

Module Scenes.

Import Example.

(** A list whose first item is not sortable. *)
Definition fixedDom : Dom :=
  mkDom
    [ mkNode Document None [1] [] [] [];
      el (Some 0) [2] [] [];
      el (Some 1) [3; 4] [("data-drag-parent", "{}")] [];
      el (Some 2) [] [("data-drag", "{'sort':false}")] [];
      el (Some 2) [] [("data-drag", "true")] [] ]
    0 1.

(** The first item is pressed and dragged a little way down. *)
Definition fixedDragging : World :=
  fst (move 0 (at_ 10 320 [])
         (fst (down 0 (at_ 10 310 [3; 2; 1; 0])
                 (fst (newDataDrag 0 (initialWorld fixedDom)))))).

(** A nested list: item 3 of the outer container holds a container. *)
Definition nestedDom : Dom :=
  mkDom
    [ mkNode Document None [1] [] [] [];
      el (Some 0) [2] [] [];
      el (Some 1) [3] [("data-drag-parent", "{}")] [];
      el (Some 2) [4] [("data-drag", "true")] [];
      el (Some 3) [5] [("data-drag-parent", "{}")] [];
      el (Some 4) [] [("data-drag", "true")] [] ]
    0 1.

Definition nestedTick : Tick :=
  mkTick nestedDom (mkDragState 3 2 defaults 0 0 0 0 None None true 0) [] [].

(** Access rules that only name an order, and rules with an empty allow
    set. *)
Definition orderOnly : JSON := JObj [("order", JArr [JStr "deny"; JStr "allow"])].
Definition allowNothing : JSON := JObj [("allow", JArr [])].

End Scenes.

Lemma newAccess_admits_all_witness :
  truthyOpt (getProp Scenes.orderOnly "allow") = false
  /\ truthyOpt (getProp Scenes.orderOnly "deny") = false
  /\ canAccept Example.exHost Example.exDom (newAccess Scenes.orderOnly) 3 (Some 2%nat)
     = Ret true.
Proof.
  assert (H1 : truthyOpt (getProp Scenes.orderOnly "allow") = false) by reflexivity.
  assert (H2 : truthyOpt (getProp Scenes.orderOnly "deny") = false) by reflexivity.
  split; [exact H1 |]. split; [exact H2 |].
  exact (newAccess_admits_all Example.exHost Example.exDom Scenes.orderOnly 3 (Some 2%nat)
           H1 H2).
Defined.

Lemma newAccess_empty_allow_witness :
  getProp Scenes.allowNothing "allow" = Some (JArr [])
  /\ canAccept Example.exHost Example.exDom (newAccess Scenes.allowNothing) 3 (Some 2%nat)
     <> Ret true.
Proof.
  assert (H1 : getProp Scenes.allowNothing "allow" = Some (JArr [])) by reflexivity.
  split; [exact H1 |].
  exact (newAccess_empty_allow Example.exHost Example.exDom Scenes.allowNothing 3 2 H1).
Defined.

Lemma matches_skips_invalid_witness :
  elementMatches Example.exHost Example.exDom 2 "div:" = None
  /\ "div:" <> "*"
  /\ matches Example.exHost Example.exDom 2 (patterns ([".library"] ++ "div:" :: [".toolbox"]))
     = matches Example.exHost Example.exDom 2 (patterns ([".library"] ++ [".toolbox"])).
Proof.
  assert (H1 : elementMatches Example.exHost Example.exDom 2 "div:" = None) by reflexivity.
  assert (H2 : "div:" <> "*") by discriminate.
  split; [exact H1 |]. split; [exact H2 |].
  exact (matches_skips_invalid Example.exHost Example.exDom 2 [".library"] [".toolbox"]
           "div:" H1 H2).
Defined.

Lemma handleMouseDown_requires_witness :
  globalDragState (fst (handleMouseDown Example.exHost 0 Example.grabA Example.loaded))
  <> globalDragState Example.loaded
  /\ exists it par,
       button Example.grabA = 0%Z
       /\ globalDragState Example.loaded = None
       /\ findInPath Example.exHost (dom Example.loaded) Example.grabA "[data-drag]"
          = Ret (Some it)
       /\ findInPath Example.exHost (dom Example.loaded) Example.grabA "[data-drag-parent]"
          = Ret (Some par)
       /\ (forall h,
             lookupProp "handle" (parseOptions Example.exHost (dom Example.loaded) it) = Some h ->
             h <> JNull ->
             exists e, findInPath Example.exHost (dom Example.loaded) Example.grabA (toString h)
                       = Ret (Some e))
       /\ handleMouseDown Example.exHost 0 Example.grabA Example.loaded
          = (pressedWorld 0 Example.loaded
               (pressedState Example.exHost 0 Example.grabA (dom Example.loaded) it par),
             None).
Proof.
  assert (H1 : globalDragState
                 (fst (handleMouseDown Example.exHost 0 Example.grabA Example.loaded))
               <> globalDragState Example.loaded) by (vm_compute; discriminate).
  split; [exact H1 |].
  exact (handleMouseDown_requires Example.exHost 0 Example.grabA Example.loaded H1).
Defined.



Lemma destroy_idempotent_witness :
  reachable Example.exHost Example.exDom Example.grabbedA
  /\ destroy 0 (destroy 0 Example.grabbedA) = destroy 0 Example.grabbedA.
Proof.
  split; [exact grabbedA_reachable |].
  exact (destroy_idempotent Example.exHost Example.exDom Example.grabbedA 0
           grabbedA_reachable).
Defined.

Lemma construct_destroy_witness :
  let w' := destroy (snd (newDataDrag 8 Example.grabbedA)) (fst (newDataDrag 8 Example.grabbedA)) in
  reachable Example.exHost Example.exDom Example.grabbedA
  /\ instances w' = instances Example.grabbedA
  /\ mousedownListeners w' = mousedownListeners Example.grabbedA
  /\ mousemoveListeners w' = mousemoveListeners Example.grabbedA
  /\ mouseupListeners w' = mouseupListeners Example.grabbedA
  /\ globalDragState w' = globalDragState Example.grabbedA
  /\ stateStore w' = stateStore Example.grabbedA
  /\ dom w' = dom Example.grabbedA /\ notifications w' = notifications Example.grabbedA.
Proof.
  cbn zeta. split; [exact grabbedA_reachable |].
  exact (construct_destroy Example.exHost Example.exDom Example.grabbedA 8
           grabbedA_reachable).
Defined.


Lemma createMirror_spec_witness :
  refsInStore Example.exDom
  /\ exists d',
       createMirror Example.exHost Example.exDom 3 = Ret (d', length (nodes Example.exDom))
       /\ parentNodeOf d' (length (nodes Example.exDom)) = Some (body Example.exDom)
       /\ childNodes (nodeAt d' (body Example.exDom))
          = (childNodes (nodeAt Example.exDom (body Example.exDom))
             ++ [length (nodes Example.exDom)])%list
       /\ looks (nodeAt d' (body Example.exDom)) = looks (nodeAt Example.exDom (body Example.exDom))
       /\ style (nodeAt d' (length (nodes Example.exDom)))
          = mirrorStyle (layoutRect Example.exHost Example.exDom 3)
       /\ attributes (nodeAt d' (length (nodes Example.exDom)))
          = attributes (nodeAt Example.exDom 3)
       /\ hasClass d' (length (nodes Example.exDom)) "data-drag-mirror" = true
       /\ (forall c, hasClass Example.exDom 3 c = true ->
                     hasClass d' (length (nodes Example.exDom)) c = true)
       /\ forall n, (n < length (nodes Example.exDom))%nat -> n <> body Example.exDom ->
                    nodeAt d' n = nodeAt Example.exDom n.
Proof.
  assert (H1 : refsInStore Example.exDom) by (vm_compute; reflexivity).
  split; [exact H1 |].
  exact (createMirror_spec Example.exHost Example.exDom 3 H1).
Defined.


Lemma cleanup_undoes_marks_witness :
  hasClass Example.exDom 3 "data-drag-dragging" = false
  /\ getStyle Example.exDom 3 "opacity" = None
  /\ getStyle Example.exDom 3 "transition" = None
  /\ getStyle Example.exDom 3 "transform" = None
  /\ cleanupElement (Some 3%nat)
       (setStyle 3 "opacity" (SText "0.4")
          (classList_add 3 "data-drag-dragging" Example.exDom))
     = Example.exDom.
Proof.
  assert (H1 : hasClass Example.exDom 3 "data-drag-dragging" = false) by reflexivity.
  assert (H2 : getStyle Example.exDom 3 "opacity" = None) by reflexivity.
  assert (H3 : getStyle Example.exDom 3 "transition" = None) by reflexivity.
  assert (H4 : getStyle Example.exDom 3 "transform" = None) by reflexivity.
  repeat (split; [assumption |]).
  exact (cleanup_undoes_marks 3 Example.exDom H1 H2 H3 H4).
Defined.


Lemma mirror_follows_pointer_witness :
  let w := Example.draggingA in
  let state := Example.stateOf w in
  let event := Example.at_ 10 620 [] in
  let d' := dom (fst (handleMouseMove Example.exHost 0 event w)) in
  globalDragState w = Some 0%nat
  /\ stateStore w !! 0%nat = Some state
  /\ isDragging state = true
  /\ mirror state = Some 10%nat
  /\ (10 < length (nodes (dom w)))%nat
  /\ snd (handleMouseMove Example.exHost 0 event w) = None
  /\ getStyle d' 10 "left" = Some (SPx (clientX event - offsetX state))
  /\ getStyle d' 10 "top" = Some (SPx (clientY event - offsetY state))
  /\ getStyle d' 10 "display" = None.
Proof.
  cbn zeta.
  assert (H1 : globalDragState Example.draggingA = Some 0%nat) by (vm_compute; reflexivity).
  assert (H2 : stateStore Example.draggingA !! 0%nat = Some (Example.stateOf Example.draggingA))
    by (vm_compute; reflexivity).
  assert (H3 : isDragging (Example.stateOf Example.draggingA) = true)
    by (vm_compute; reflexivity).
  assert (H4 : mirror (Example.stateOf Example.draggingA) = Some 10%nat)
    by (vm_compute; reflexivity).
  assert (H5 : (10 < length (nodes (dom Example.draggingA)))%nat) by (vm_compute; lia).
  assert (H6 : snd (handleMouseMove Example.exHost 0 (Example.at_ 10 620 []) Example.draggingA)
               = None) by (vm_compute; reflexivity).
  repeat (split; [assumption |]).
  exact (mirror_follows_pointer Example.exHost 0 (Example.at_ 10 620 []) Example.draggingA 0
           (Example.stateOf Example.draggingA) 10 H1 H2 H3 H4 H5 H6).
Defined.

Lemma unresolved_move_is_quiet_witness :
  let w := Example.draggingA in
  let state := Example.stateOf w in
  let event := Example.at_ 10 50 [] in
  globalDragState w = Some 0%nat
  /\ stateStore w !! 0%nat = Some state
  /\ isDragging state = true
  /\ mirror state = Some 10%nat
  /\ (10 < length (nodes (dom w)))%nat
  /\ snd (resolveTarget Example.exHost (instanceRoots w) event (tickOf w state)) = Ret None
  /\ handleMouseMove Example.exHost 0 event w
     = (fst (handleMouseMove Example.exHost 0 event w), None)
  /\ onlyMirrorMoved w (fst (handleMouseMove Example.exHost 0 event w)) 10.
Proof.
  cbn zeta.
  assert (H1 : globalDragState Example.draggingA = Some 0%nat) by (vm_compute; reflexivity).
  assert (H2 : stateStore Example.draggingA !! 0%nat = Some (Example.stateOf Example.draggingA))
    by (vm_compute; reflexivity).
  assert (H3 : isDragging (Example.stateOf Example.draggingA) = true)
    by (vm_compute; reflexivity).
  assert (H4 : mirror (Example.stateOf Example.draggingA) = Some 10%nat)
    by (vm_compute; reflexivity).
  assert (H5 : (10 < length (nodes (dom Example.draggingA)))%nat) by (vm_compute; lia).
  assert (H6 : snd (resolveTarget Example.exHost (instanceRoots Example.draggingA)
                      (Example.at_ 10 50 [])
                      (tickOf Example.draggingA (Example.stateOf Example.draggingA)))
               = Ret None) by (vm_compute; reflexivity).
  repeat (split; [assumption |]).
  exact (unresolved_move_is_quiet Example.exHost 0 (Example.at_ 10 50 []) Example.draggingA 0
           (Example.stateOf Example.draggingA) 10 H1 H2 H3 H4 H5 H6).
Defined.

Lemma unsortable_item_stays_witness :
  let w := Scenes.fixedDragging in
  let state := Example.stateOf w in
  let event := Example.at_ 10 410 [] in
  globalDragState w = Some 0%nat
  /\ stateStore w !! 0%nat = Some state
  /\ isDragging state = true
  /\ mirror state = Some 5%nat
  /\ (5 < length (nodes (dom w)))%nat
  /\ copy state = None
  /\ truthyOpt (lookupProp "sort" (options state)) = false
  /\ snd (resolveTarget Example.exHost (instanceRoots w) event (tickOf w state))
     = Ret (Some (parent state))
  /\ handleMouseMove Example.exHost 0 event w
     = (fst (handleMouseMove Example.exHost 0 event w), None)
  /\ onlyMirrorMoved w (fst (handleMouseMove Example.exHost 0 event w)) 5.
Proof.
  cbn zeta.
  assert (H1 : globalDragState Scenes.fixedDragging = Some 0%nat) by (vm_compute; reflexivity).
  assert (H2 : stateStore Scenes.fixedDragging !! 0%nat
               = Some (Example.stateOf Scenes.fixedDragging)) by (vm_compute; reflexivity).
  assert (H3 : isDragging (Example.stateOf Scenes.fixedDragging) = true)
    by (vm_compute; reflexivity).
  assert (H4 : mirror (Example.stateOf Scenes.fixedDragging) = Some 5%nat)
    by (vm_compute; reflexivity).
  assert (H5 : (5 < length (nodes (dom Scenes.fixedDragging)))%nat) by (vm_compute; lia).
  assert (H6 : copy (Example.stateOf Scenes.fixedDragging) = None) by (vm_compute; reflexivity).
  assert (H7 : truthyOpt (lookupProp "sort" (options (Example.stateOf Scenes.fixedDragging)))
               = false) by (vm_compute; reflexivity).
  assert (H8 : snd (resolveTarget Example.exHost (instanceRoots Scenes.fixedDragging)
                      (Example.at_ 10 410 [])
                      (tickOf Scenes.fixedDragging (Example.stateOf Scenes.fixedDragging)))
               = Ret (Some (parent (Example.stateOf Scenes.fixedDragging))))
    by (vm_compute; reflexivity).
  repeat (split; [assumption |]).
  exact (unsortable_item_stays Example.exHost 0 (Example.at_ 10 410 []) Scenes.fixedDragging 0
           (Example.stateOf Scenes.fixedDragging) 5 H1 H2 H3 H4 H5 H6 H7 H8).
Defined.

Lemma placeActive_position_witness :
  let t := tickOf Example.draggingA (Example.stateOf Example.draggingA) in
  let event := Example.at_ 10 620 [] in
  let t' := fst (placeActive Example.exHost 5 event t) in
  let d := tdom t in
  let active := activeElementOf (tstate t) in
  let reference :=
    findInsertPosition Example.exHost d (mirror (tstate t)) 5 (options (tstate t))
      (clientX event) (clientY event) active in
  (5 < length (nodes (tdom t)))%nat
  /\ (activeElementOf (tstate t) < length (nodes (tdom t)))%nat
  /\ placeActive Example.exHost 5 event t = (t', None)
  /\ ((parentElement d active = Some 5%nat
       /\ nextElementSibling d active = reference
       /\ t' = t)
      \/ ((parentElement d active <> Some 5%nat \/ nextElementSibling d active <> reference)
          /\ parentNodeOf (tdom t') active = Some 5%nat
          /\ (exists before rest,
                childNodes (nodeAt (tdom t') 5) = (before ++ active :: rest)%list
                /\ match reference with
                   | Some r => exists rest', rest = r :: rest'
                   | None => rest = []
                   end)
          /\ tnotes t' = (tnotes t ++ [moveNotification d active 5 reference])%list
          /\ tstate t' = tstate t)).
Proof.
  cbn zeta.
  set (t := tickOf Example.draggingA (Example.stateOf Example.draggingA)).
  assert (H1 : (5 < length (nodes (tdom t)))%nat) by (vm_compute; lia).
  assert (H2 : (activeElementOf (tstate t) < length (nodes (tdom t)))%nat)
    by (vm_compute; lia).
  assert (H3 : placeActive Example.exHost 5 (Example.at_ 10 620 []) t
               = (fst (placeActive Example.exHost 5 (Example.at_ 10 620 []) t), None))
    by (vm_compute; reflexivity).
  repeat (split; [assumption |]).
  exact (placeActive_position Example.exHost 5 (Example.at_ 10 620 []) t _ H1 H2 H3).
Defined.

Lemma placeActive_own_subtree_witness :
  isInclusiveAncestor (tdom Scenes.nestedTick) (activeElementOf (tstate Scenes.nestedTick)) 4
  = true
  /\ parentElement (tdom Scenes.nestedTick) (activeElementOf (tstate Scenes.nestedTick))
     <> Some 4%nat
  /\ placeActive Example.exHost 4 (Example.at_ 10 410 []) Scenes.nestedTick
     = (Scenes.nestedTick, Some HierarchyRequestError).
Proof.
  assert (H1 : isInclusiveAncestor (tdom Scenes.nestedTick)
                 (activeElementOf (tstate Scenes.nestedTick)) 4 = true)
    by (vm_compute; reflexivity).
  assert (H2 : parentElement (tdom Scenes.nestedTick)
                 (activeElementOf (tstate Scenes.nestedTick)) <> Some 4%nat)
    by (vm_compute; discriminate).
  split; [exact H1 |]. split; [exact H2 |].
  exact (placeActive_own_subtree Example.exHost 4 (Example.at_ 10 410 []) Scenes.nestedTick
           H1 H2).
Defined.

Lemma move_keeps_others_witness :
  let w := Example.draggingA in
  let state := Example.stateOf w in
  let d' := dom (fst (handleMouseMove Example.exHost 0 (Example.at_ 10 620 []) w)) in
  globalDragState w = Some 0%nat
  /\ stateStore w !! 0%nat = Some state
  /\ (6 < length (nodes (dom w)))%nat
  /\ kind (nodeAt d' 6) = kind (nodeAt (dom w) 6)
  /\ attributes (nodeAt d' 6) = attributes (nodeAt (dom w) 6)
  /\ (6%nat <> item state -> copy state <> Some 6%nat ->
      parentNodeOf d' 6 = parentNodeOf (dom w) 6
      /\ classList (nodeAt d' 6) = classList (nodeAt (dom w) 6)).
Proof.
  cbn zeta.
  assert (H1 : globalDragState Example.draggingA = Some 0%nat) by (vm_compute; reflexivity).
  assert (H2 : stateStore Example.draggingA !! 0%nat = Some (Example.stateOf Example.draggingA))
    by (vm_compute; reflexivity).
  assert (H3 : (6 < length (nodes (dom Example.draggingA)))%nat) by (vm_compute; lia).
  repeat (split; [assumption |]).
  exact (move_keeps_others Example.exHost 0 (Example.at_ 10 620 []) Example.draggingA 0
           (Example.stateOf Example.draggingA) 6 H1 H2 H3).
Defined.

Lemma copied_item_stays_witness :
  let w0 := Example.grabbedA in
  let state0 := Example.stateOf w0 in
  let d := dom (runMoves Example.exHost 0 [Example.at_ 10 320 []; Example.at_ 10 620 []] w0) in
  globalDragState w0 = Some 0%nat
  /\ stateStore w0 !! 0%nat = Some state0
  /\ copy state0 = None
  /\ (item state0 < length (nodes (dom w0)))%nat
  /\ truthyOpt (lookupProp "copy" (options state0)) = true
  /\ (parentNodeOf d (item state0) = parentNodeOf (dom w0) (item state0)
      \/ parentNodeOf d (item state0) = Some (parent state0)).
Proof.
  cbn zeta.
  assert (H1 : globalDragState Example.grabbedA = Some 0%nat) by (vm_compute; reflexivity).
  assert (H2 : stateStore Example.grabbedA !! 0%nat = Some (Example.stateOf Example.grabbedA))
    by (vm_compute; reflexivity).
  assert (H3 : copy (Example.stateOf Example.grabbedA) = None) by (vm_compute; reflexivity).
  assert (H4 : (item (Example.stateOf Example.grabbedA)
                < length (nodes (dom Example.grabbedA)))%nat) by (vm_compute; lia).
  assert (H5 : truthyOpt (lookupProp "copy" (options (Example.stateOf Example.grabbedA)))
               = true) by (vm_compute; reflexivity).
  repeat (split; [assumption |]).
  exact (copied_item_stays Example.exHost 0 Example.grabbedA 0
           (Example.stateOf Example.grabbedA)
           [Example.at_ 10 320 []; Example.at_ 10 620 []] H1 H2 H3 H4 H5).
Defined.
